(** * Melaka: translation synchronisation pipeline

    A shallow embedding of the TypeScript sources of the Melaka packages
    ([@melaka/core], [@melaka/ai], [@melaka/firestore]) and the properties
    of the pipeline that its specification states.

    JavaScript values are an inductive type; objects are association lists
    in own-property enumeration order (the order [Object.keys] and
    [Object.entries] return); strings are byte strings (UTF-8); numbers are
    the integers of the safe range, as [Z].  Code that can throw lives in a
    small state-and-exception monad over a [World] holding the Firestore
    documents, the fault schedule of the backend and the call log. *)

From Stdlib Require Import String Ascii List ZArith Lia Bool Permutation.
From Stdlib Require Import DecimalString.
Import ListNotations.
Set Warnings "-register-all".
Open Scope string_scope.
Open Scope Z_scope.

(* ================================================================== *)
(** * JavaScript values *)
(* ================================================================== *)

Inductive Value : Type :=
| VUndef : Value
| VNull  : Value
| VBool  : bool -> Value
| VNum   : Z -> Value
| VStr   : string -> Value
| VArr   : list Value -> Value
| VObj   : list (string * Value) -> Value.

(** A plain object, [Record<string, unknown>]. *)
Definition Obj : Type := list (string * Value).

(** [Object.keys(o)]. *)
Definition Object_keys {A : Type} (o : list (string * A)) : list string :=
  map fst o.

(** [o[k]] on own properties; [None] is JavaScript's [undefined] for a
    missing property. *)
Fixpoint obj_get {A : Type} (o : list (string * A)) (k : string) : option A :=
  match o with
  | [] => None
  | (k', v) :: rest => if String.eqb k' k then Some v else obj_get rest k
  end.

(** [o[k] = v]: an existing property keeps its place, a new one is
    appended. *)
Fixpoint obj_set {A : Type} (o : list (string * A)) (k : string) (v : A)
  : list (string * A) :=
  match o with
  | [] => [(k, v)]
  | (k', v') :: rest =>
      if String.eqb k' k then (k', v) :: rest else (k', v') :: obj_set rest k v
  end.

(** [o[k] = v] on an object made by an object literal.  The name
    [__proto__] is the accessor of [Object.prototype]: assigning to it
    creates no own property (the prototype of [o] is replaced when [v] is
    an object or [null], and nothing happens otherwise).  What is read
    from such an object afterwards ([Object.keys], a spread, a property
    it owns) does not go through its prototype. *)
Definition obj_assign {A : Type} (o : list (string * A)) (k : string) (v : A)
  : list (string * A) :=
  if String.eqb k "__proto__" then o else obj_set o k v.

(** The members that an object literal inherits from [Object.prototype];
    each is a function, but [__proto__], which reads as the prototype
    object: all are truthy. *)
Definition Object_prototype_members : list string :=
  ["constructor"; "hasOwnProperty"; "isPrototypeOf"; "propertyIsEnumerable";
   "toLocaleString"; "toString"; "valueOf"; "__proto__";
   "__defineGetter__"; "__defineSetter__"; "__lookupGetter__"; "__lookupSetter__"].

(** [k in o] for the own properties of a plain object. *)
Definition obj_has {A : Type} (o : list (string * A)) (k : string) : bool :=
  match obj_get o k with Some _ => true | None => false end.

(** [{...a, ...b}]. *)
Definition obj_spread {A : Type} (a b : list (string * A)) : list (string * A) :=
  fold_left (fun acc kv => obj_set acc (fst kv) (snd kv)) b a.

(** Truthiness ([!!v]). *)
Definition truthy (v : Value) : bool :=
  match v with
  | VUndef | VNull => false
  | VBool b => b
  | VNum n => negb (n =? 0)
  | VStr s => negb (String.eqb s "")
  | VArr _ | VObj _ => true
  end.

(** [Array.prototype.includes] on strings. *)
Definition includes (l : list string) (s : string) : bool :=
  existsb (String.eqb s) l.

(** [Array.prototype.join]. *)
Fixpoint join (sep : string) (l : list string) : string :=
  match l with
  | [] => ""
  | [x] => x
  | x :: rest => x ++ sep ++ join sep rest
  end.

(** [Array.prototype.sort()] on strings, default comparator.  The keys are
    compared as byte strings. *)
Fixpoint insert_sorted (x : string) (l : list string) : list string :=
  match l with
  | [] => [x]
  | y :: rest =>
      if String.leb x y then x :: y :: rest else y :: insert_sorted x rest
  end.

Definition sort (l : list string) : list string :=
  fold_right insert_sorted [] l.

(** [String(n)] for an integer. *)
Definition Number_toString (n : Z) : string :=
  NilZero.string_of_int (Z.to_int n).

(* ================================================================== *)
(** * [JSON.stringify] *)
(* ================================================================== *)

Definition dquote : string := String "034"%char EmptyString.
Definition backslash : string := String "092"%char EmptyString.

Definition hex_digit (n : Z) : ascii :=
  ascii_of_nat (Z.to_nat (if n <? 10 then 48 + n else 87 + n)).

(** One code unit of [QuoteJSONString]. *)
Definition escape_char (c : ascii) : string :=
  let n := Z.of_nat (nat_of_ascii c) in
  if n =? 34 then backslash ++ dquote
  else if n =? 92 then backslash ++ backslash
  else if n =? 8 then backslash ++ "b"
  else if n =? 12 then backslash ++ "f"
  else if n =? 10 then backslash ++ "n"
  else if n =? 13 then backslash ++ "r"
  else if n =? 9 then backslash ++ "t"
  else if n <? 32 then
    backslash ++ "u00" ++
    String (hex_digit (n / 16)) (String (hex_digit (n mod 16)) EmptyString)
  else String c EmptyString.

Fixpoint escape_string (s : string) : string :=
  match s with
  | EmptyString => ""
  | String c rest => escape_char c ++ escape_string rest
  end.

Definition QuoteJSONString (s : string) : string :=
  dquote ++ escape_string s ++ dquote.

(** The array replacer of [JSON.stringify(value, replacer)]: the property
    list, duplicates removed, first occurrence kept. *)
Fixpoint property_list (l : list string) : list string :=
  match l with
  | [] => []
  | x :: rest => x :: filter (fun y => negb (String.eqb x y)) (property_list rest)
  end.

(** [SerializeJSONProperty].  [K] is the property list of an array
    replacer, when there is one: it selects and orders the properties of
    EVERY object serialised, at any depth.  [None] is [undefined]. *)
Fixpoint SerializeJSONProperty (K : option (list string)) (v : Value)
  : option string :=
  match v with
  | VUndef => None
  | VNull => Some "null"
  | VBool true => Some "true"
  | VBool false => Some "false"
  | VNum n => Some (Number_toString n)
  | VStr s => Some (QuoteJSONString s)
  | VArr elems =>
      let items :=
        (fix items (l : list Value) : list string :=
           match l with
           | [] => []
           | e :: rest =>
               match SerializeJSONProperty K e with
               | Some s => s
               | None => "null"
               end :: items rest
           end) elems in
      Some ("[" ++ join "," items ++ "]")
  | VObj props =>
      let texts :=
        (fix texts (l : list (string * Value)) : list (string * option string) :=
           match l with
           | [] => []
           | (k, e) :: rest => (k, SerializeJSONProperty K e) :: texts rest
           end) props in
      let keys := match K with Some ks => ks | None => map fst props end in
      let partial :=
        flat_map
          (fun P => match obj_get texts P with
                    | Some (Some s) => [QuoteJSONString P ++ ":" ++ s]
                    | _ => []
                    end) keys in
      Some ("{" ++ join "," partial ++ "}")
  end.

(** [JSON.stringify(value, replacer)] with an array replacer or none; the
    result is a string for every value but [undefined]. *)
Definition JSON_stringify (replacer : option (list string)) (v : Value)
  : option string :=
  SerializeJSONProperty (option_map property_list replacer) v.

Definition JSON_stringify_obj (replacer : option (list string)) (o : Obj)
  : string :=
  match JSON_stringify replacer (VObj o) with
  | Some s => s
  | None => ""
  end.

(** The members of the text of an object: for each key of the property
    list (or each own key), the property when it has a text. *)
Definition object_members (K : option (list string)) (props : list (string * Value))
  : list string :=
  flat_map
    (fun P => match obj_get (map (fun kv => (fst kv, SerializeJSONProperty K (snd kv)))
                                 props) P with
              | Some (Some s) => [QuoteJSONString P ++ ":" ++ s]
              | _ => []
              end)
    (match K with Some ks => ks | None => map fst props end).

(* ================================================================== *)
(** * SHA-256 ([createHash('sha256')], FIPS 180-4) *)
(* ================================================================== *)

Module Sha256.

Definition w32 : Z := 4294967296.
Definition add32 (a b : Z) : Z := (a + b) mod w32.
Definition rotr (n x : Z) : Z :=
  Z.lor (Z.shiftr x n) ((Z.shiftl x (32 - n)) mod w32).
Definition not32 (x : Z) : Z := w32 - 1 - x.

Definition Ch (x y z : Z) : Z := Z.lxor (Z.land x y) (Z.land (not32 x) z).
Definition Maj (x y z : Z) : Z :=
  Z.lxor (Z.lxor (Z.land x y) (Z.land x z)) (Z.land y z).
Definition Sigma0 (x : Z) : Z := Z.lxor (Z.lxor (rotr 2 x) (rotr 13 x)) (rotr 22 x).
Definition Sigma1 (x : Z) : Z := Z.lxor (Z.lxor (rotr 6 x) (rotr 11 x)) (rotr 25 x).
Definition sigma0 (x : Z) : Z := Z.lxor (Z.lxor (rotr 7 x) (rotr 18 x)) (Z.shiftr x 3).
Definition sigma1 (x : Z) : Z := Z.lxor (Z.lxor (rotr 17 x) (rotr 19 x)) (Z.shiftr x 10).

(** The first sixty-four primes. *)
Definition primes : list Z :=
  [2; 3; 5; 7; 11; 13; 17; 19; 23; 29; 31; 37; 41; 43; 47; 53;
   59; 61; 67; 71; 73; 79; 83; 89; 97; 101; 103; 107; 109; 113; 127; 131;
   137; 139; 149; 151; 157; 163; 167; 173; 179; 181; 191; 193; 197; 199;
   211; 223; 227; 229; 233; 239; 241; 251; 257; 263; 269; 271; 277; 281;
   283; 293; 307; 311].

(** The integer cube root of [x], found bit by bit below [2 ^ n]. *)
Fixpoint cube_root (n : nat) (x r : Z) : Z :=
  match n with
  | O => r
  | S m =>
      let r' := r + 2 ^ Z.of_nat m in
      if r' * r' * r' <=? x then cube_root m x r' else cube_root m x r
  end.

(** The round constants: the first 32 bits of the fractional parts of the
    cube roots of the primes. *)
Definition K : list Z :=
  Eval vm_compute in
    map (fun p => cube_root 36 (p * 2 ^ 96) 0 mod w32) primes.

(** The initial hash value: the first 32 bits of the fractional parts of
    the square roots of the first eight primes. *)
Definition H0 : list Z :=
  Eval vm_compute in
    map (fun p => Z.sqrt (p * 2 ^ 64) mod w32) (firstn 8 primes).

Definition bytes_of_string (s : string) : list Z :=
  map (fun c => Z.of_nat (nat_of_ascii c)) (list_ascii_of_string s).

(** Big-endian bytes of [x], [n] of them. *)
Fixpoint be_bytes (n : nat) (x : Z) : list Z :=
  match n with
  | O => []
  | S m => be_bytes m (x / 256) ++ [x mod 256]
  end.

(** Padding: a one bit, zero bits up to 56 modulo 64 bytes, the bit length
    on 64 bits. *)
Definition pad (msg : list Z) : list Z :=
  let len := Z.of_nat (length msg) in
  let zeros := Z.to_nat ((55 - len) mod 64) in
  (msg ++ [128] ++ repeat 0 zeros ++ be_bytes 8 (len * 8))%list.

Fixpoint words (fuel : nat) (bs : list Z) : list Z :=
  match fuel, bs with
  | S f, b0 :: b1 :: b2 :: b3 :: rest =>
      (((b0 * 256 + b1) * 256 + b2) * 256 + b3) :: words f rest
  | _, _ => []
  end.

Fixpoint blocks (fuel : nat) (ws : list Z) : list (list Z) :=
  match fuel, ws with
  | S f, _ :: _ => firstn 16 ws :: blocks f (skipn 16 ws)
  | _, _ => []
  end.

(** Message schedule, most recent word first in [rev_w]. *)
Fixpoint schedule (n : nat) (rev_w : list Z) : list Z :=
  match n with
  | O => rev rev_w
  | S m =>
      let w := add32 (add32 (sigma1 (nth 1 rev_w 0)) (nth 6 rev_w 0))
                     (add32 (sigma0 (nth 14 rev_w 0)) (nth 15 rev_w 0)) in
      schedule m (w :: rev_w)
  end.

Definition round (st : list Z) (kw : Z * Z) : list Z :=
  match st with
  | [a; b; c; d; e; f; g; h] =>
      let t1 := add32 (add32 (add32 h (Sigma1 e)) (add32 (Ch e f g) (fst kw)))
                      (snd kw) in
      let t2 := add32 (Sigma0 a) (Maj a b c) in
      [add32 t1 t2; a; b; c; add32 d t1; e; f; g]
  | _ => st
  end.

Definition compress (h : list Z) (block : list Z) : list Z :=
  let w := schedule 48 (rev block) in
  let st := fold_left round (combine K w) h in
  map (fun p => add32 (fst p) (snd p)) (combine h st).

Definition hex_of_word (x : Z) : string :=
  string_of_list_ascii
    (flat_map (fun b => [hex_digit (b / 16); hex_digit (b mod 16)])
              (be_bytes 4 x)).

(** [createHash('sha256').update(s).digest('hex')]. *)
Definition digest_hex (s : string) : string :=
  let bs := pad (bytes_of_string s) in
  let ws := words (length bs) bs in
  let h := fold_left compress (blocks (length ws) ws) H0 in
  String.concat "" (map hex_of_word h).

End Sha256.

(* ================================================================== *)
(** * [@melaka/core]: utils.ts *)
(* ================================================================== *)

(** [hashContent]: the replacer is the sorted list of the top-level keys. *)
Definition hashContent (content : Obj) : string :=
  let normalized := JSON_stringify_obj (Some (sort (Object_keys content))) content in
  Sha256.digest_hex normalized.

Inductive SchemaType : Type :=
| T_string | T_string_array
| T_number | T_number_array
| T_boolean
| T_object | T_object_array | T_object_or_null
| T_DocumentReference | T_DocumentReference_array.

(** [typeof v === 'object'] (true of [null] and of arrays). *)
Definition typeof_object (v : Value) : bool :=
  match v with
  | VNull | VArr _ | VObj _ => true
  | _ => false
  end.

(** ['k' in v] for a value that passed [v !== null && typeof v === 'object'];
    an array has none of the named properties tested below. *)
Definition has_prop (v : Value) (k : string) : bool :=
  match v with
  | VObj o => obj_has o k
  | _ => false
  end.

(** [v.k]. *)
Definition js_prop (v : Value) (k : string) : Value :=
  match v with
  | VObj o => match obj_get o k with Some x => x | None => VUndef end
  | _ => VUndef
  end.

Definition is_string (v : Value) : bool :=
  match v with VStr _ => true | _ => false end.
Definition is_number (v : Value) : bool :=
  match v with VNum _ => true | _ => false end.
Definition is_boolean (v : Value) : bool :=
  match v with VBool _ => true | _ => false end.
Definition is_null (v : Value) : bool :=
  match v with VNull => true | _ => false end.

Definition isDocumentReference (value : Value) : bool :=
  negb (is_null value) && typeof_object value &&
  has_prop value "path" && is_string (js_prop value "path") &&
  has_prop value "id".

Definition isTimestamp (value : Value) : bool :=
  negb (is_null value) && typeof_object value &&
  has_prop value "_seconds" && has_prop value "_nanoseconds".

Definition isGeoPoint (value : Value) : bool :=
  negb (is_null value) && typeof_object value &&
  has_prop value "latitude" && has_prop value "longitude".

Definition detectFieldType (value : Value) : SchemaType :=
  match value with
  | VNull => T_object_or_null
  | VArr [] => T_string_array
  | VArr (firstItem :: _) =>
      if isDocumentReference firstItem then T_DocumentReference_array
      else if is_string firstItem then T_string_array
      else if is_number firstItem then T_number_array
      else if typeof_object firstItem && negb (is_null firstItem)
           then T_object_array
      else T_string_array
  | _ =>
      if isDocumentReference value then T_DocumentReference
      else if isTimestamp value then T_object
      else if isGeoPoint value then T_object
      else if is_string value then T_string
      else if is_number value then T_number
      else if is_boolean value then T_boolean
      else if typeof_object value then T_object
      else T_object
  end.

Definition isTranslatableType (schemaType : SchemaType) : bool :=
  match schemaType with
  | T_string | T_string_array => true
  | _ => false
  end.

Record SeparatedContent : Type := mkSeparated {
  translatable : Obj;
  nonTranslatable : Obj;
  detectedTypes : list (string * SchemaType)
}.

(** The body of the [for ... of Object.entries(doc)] loop. *)
Definition separate_step (fields : option (list string))
    (acc : SeparatedContent) (entry : string * Value) : SeparatedContent :=
  let (field, value) := entry in
  if String.eqb field "_melaka" then acc
  else if match fields with
          | Some fs => negb (includes fs field)
          | None => false
          end
  then mkSeparated (translatable acc)
                   (obj_assign (nonTranslatable acc) field value)
                   (detectedTypes acc)
  else
    let schemaType := detectFieldType value in
    let types := obj_assign (detectedTypes acc) field schemaType in
    if isTranslatableType schemaType
    then mkSeparated (obj_assign (translatable acc) field value)
                     (nonTranslatable acc) types
    else mkSeparated (translatable acc)
                     (obj_assign (nonTranslatable acc) field value) types.

Definition separateContent (doc : Obj) (fields : option (list string))
  : SeparatedContent :=
  fold_left (separate_step fields) doc (mkSeparated [] [] []).

Definition Glossary : Type := list (string * string).

Definition mergeGlossaries (shared collection : option Glossary) : Glossary :=
  obj_spread (match shared with Some g => g | None => [] end)
             (match collection with Some g => g | None => [] end).

(* ================================================================== *)
(** * [@melaka/core]: configuration *)
(* ================================================================== *)

(** The temperature is a fraction of one; it is carried, never computed
    with. *)
Definition Temperature : Type := (Z * Z)%type.

Record AIConfig : Type := mkAIConfig {
  ai_provider : string;
  ai_model : string;
  ai_temperature : option Temperature;
  ai_apiKeySecret : option string;
  ai_apiKey : option string
}.

(** [Partial<AIConfig>]. *)
Record PartialAIConfig : Type := mkPartialAIConfig {
  pai_provider : option string;
  pai_model : option string;
  pai_temperature : option Temperature;
  pai_apiKeySecret : option string;
  pai_apiKey : option string
}.

Record CollectionConfig : Type := mkCollectionConfig {
  cc_path : string;
  cc_isCollectionGroup : option bool;
  cc_fields : option (list string);
  cc_prompt : option string;
  cc_glossary : option Glossary;
  cc_ai : option PartialAIConfig;
  cc_batchSize : option Z;
  cc_maxConcurrency : option Z;
  cc_forceUpdate : option bool
}.

Record MelakaConfig : Type := mkMelakaConfig {
  mc_languages : list string;
  mc_ai : AIConfig;
  mc_glossary : option Glossary;
  mc_collections : list CollectionConfig
}.

Definition override {A : Type} (base : A) (o : option A) : A :=
  match o with Some x => x | None => base end.

Definition override_opt {A : Type} (base o : option A) : option A :=
  match o with Some x => Some x | None => base end.

(** [{ ...rootConfig.ai, ...(collection.ai || {}) }]. *)
Definition getEffectiveAIConfig (rootConfig : MelakaConfig)
    (collection : CollectionConfig) : AIConfig :=
  let root := mc_ai rootConfig in
  match cc_ai collection with
  | None => root
  | Some c =>
      mkAIConfig (override (ai_provider root) (pai_provider c))
                 (override (ai_model root) (pai_model c))
                 (override_opt (ai_temperature root) (pai_temperature c))
                 (override_opt (ai_apiKeySecret root) (pai_apiKeySecret c))
                 (override_opt (ai_apiKey root) (pai_apiKey c))
  end.

(* ================================================================== *)
(** * zod, and [@melaka/core]: schema-generator.ts *)
(* ================================================================== *)

(** What [z.object] does with the keys its shape does not name: [strip]
    is the default of [z.object(shape)], the others are chosen with
    [.passthrough()] and [.strict()]. *)
Inductive UnknownKeys : Type := strip | passthrough | strict.

Inductive ZodSchema : Type :=
| ZString : ZodSchema
| ZNumber : ZodSchema
| ZBoolean : ZodSchema
| ZUnknown : ZodSchema
| ZArray : ZodSchema -> ZodSchema
| ZRecord : ZodSchema -> ZodSchema
| ZNullable : ZodSchema -> ZodSchema
| ZOptional : ZodSchema -> ZodSchema
| ZObject : list (string * ZodSchema) -> UnknownKeys -> ZodSchema.

Record ZodIssue : Type := mkIssue {
  issue_code : string;
  issue_path : list string
}.

Definition under (key : string) (i : ZodIssue) : ZodIssue :=
  mkIssue (issue_code i) (key :: issue_path i).

Definition SafeParseResult : Type := (Value + list ZodIssue)%type.

Definition invalid_type : SafeParseResult := inr [mkIssue "invalid_type" []].

(** Parses the values of a list, gathering every issue under its key. *)
Fixpoint parse_all (parse : Value -> SafeParseResult)
    (l : list (string * Value)) : list (string * Value) + list ZodIssue :=
  match l with
  | [] => inl []
  | (k, v) :: rest =>
      match parse v, parse_all parse rest with
      | inl v', inl rest' => inl ((k, v') :: rest')
      | inl _, inr errs => inr errs
      | inr errs, inl _ => inr (map (under k) errs)
      | inr errs, inr errs' => inr (map (under k) errs ++ errs')%list
      end
  end.

Fixpoint index_from (n : nat) (l : list Value) : list (string * Value) :=
  match l with
  | [] => []
  | v :: rest => (Number_toString (Z.of_nat n), v) :: index_from (S n) rest
  end.

(** [schema.safeParse(data)].  A missing property is parsed as
    [undefined]; an object's result holds the shape's keys in the shape's
    order (one whose value is [undefined] only when the input has the
    key), then the unknown keys when they are passed through. *)
Fixpoint safeParse (schema : ZodSchema) (data : Value) : SafeParseResult :=
  match schema with
  | ZString => if is_string data then inl data else invalid_type
  | ZNumber => if is_number data then inl data else invalid_type
  | ZBoolean => if is_boolean data then inl data else invalid_type
  | ZUnknown => inl data
  | ZArray elem =>
      match data with
      | VArr items =>
          match parse_all (safeParse elem) (index_from 0 items) with
          | inl parsed => inl (VArr (map snd parsed))
          | inr errs => inr errs
          end
      | _ => invalid_type
      end
  | ZRecord val =>
      match data with
      | VObj props =>
          match parse_all (safeParse val) props with
          | inl parsed => inl (VObj parsed)
          | inr errs => inr errs
          end
      | _ => invalid_type
      end
  | ZNullable inner =>
      if is_null data then inl VNull else safeParse inner data
  | ZOptional inner =>
      match data with
      | VUndef => inl VUndef
      | _ => safeParse inner data
      end
  | ZObject shape unknownKeys =>
      match data with
      | VObj props =>
          let fields :=
            (fix fields (sh : list (string * ZodSchema))
               : list (string * Value) + list ZodIssue :=
               match sh with
               | [] => inl []
               | (k, s) :: rest =>
                   let input := match obj_get props k with
                                | Some v => v
                                | None => VUndef
                                end in
                   let keep (v : Value) (l : list (string * Value)) :=
                     match v, obj_get props k with
                     | VUndef, None => l
                     | _, _ => (k, v) :: l
                     end in
                   match safeParse s input, fields rest with
                   | inl v, inl rest' => inl (keep v rest')
                   | inl _, inr errs => inr errs
                   | inr errs, inl _ => inr (map (under k) errs)
                   | inr errs, inr errs' => inr (map (under k) errs ++ errs')%list
                   end
               end) shape in
          let extra :=
            filter (fun kv => negb (includes (map fst shape) (fst kv))) props in
          match unknownKeys with
          | strip =>
              match fields with
              | inl out => inl (VObj out)
              | inr errs => inr errs
              end
          | passthrough =>
              match fields with
              | inl out => inl (VObj (out ++ extra)%list)
              | inr errs => inr errs
              end
          | strict =>
              match fields, extra with
              | inl out, [] => inl (VObj out)
              | inl _, _ :: _ => inr [mkIssue "unrecognized_keys" []]
              | inr errs, [] => inr errs
              | inr errs, _ :: _ => inr (errs ++ [mkIssue "unrecognized_keys" []])%list
              end
          end
      | _ => invalid_type
      end
  end.

Definition DocumentReference_shape : ZodSchema :=
  ZObject [("path", ZString); ("id", ZString)] passthrough.

Definition createFieldSchema (schemaType : SchemaType) (required : bool)
  : ZodSchema :=
  let schema :=
    match schemaType with
    | T_string => ZString
    | T_string_array => ZArray ZString
    | T_number => ZNumber
    | T_number_array => ZArray ZNumber
    | T_boolean => ZBoolean
    | T_object => ZRecord ZUnknown
    | T_object_array => ZArray (ZRecord ZUnknown)
    | T_object_or_null => ZNullable (ZRecord ZUnknown)
    | T_DocumentReference => DocumentReference_shape
    | T_DocumentReference_array => ZArray DocumentReference_shape
    end in
  if required then schema else ZOptional schema.

(** [createFieldSchema] on a value that is none of the schema types: the
    [default] branch of its [switch]. *)
Definition createFieldSchema_default (required : bool) : ZodSchema :=
  if required then ZUnknown else ZOptional ZUnknown.

(** [createFieldSchema(detectedTypes[field] || 'string', true)].  The
    property access finds the detected type that [detectedTypes] owns;
    failing that, a member that it inherits from [Object.prototype], which
    is truthy and no schema type; failing that, it is [undefined] and the
    type is ['string']. *)
Definition detected_field_schema (detectedTypes : list (string * SchemaType))
    (field : string) : ZodSchema :=
  match obj_get detectedTypes field with
  | Some schemaType => createFieldSchema schemaType true
  | None =>
      if includes Object_prototype_members field
      then createFieldSchema_default true
      else createFieldSchema T_string true
  end.

(** [z.object(schemaFields)] over [Object.keys(translatable)]. *)
Definition createTranslationSchema (translatable : Obj)
    (detectedTypes : list (string * SchemaType)) : ZodSchema :=
  let schemaFields :=
    fold_left
      (fun acc field =>
         obj_assign acc field (detected_field_schema detectedTypes field))
      (Object_keys translatable) [] in
  ZObject schemaFields strip.

(* ================================================================== *)
(** * The world: platform, Firestore, endpoint, queue log *)
(* ================================================================== *)

(** The result of a call that can throw; an exception is carried as its
    message ([error instanceof Error ? error.message : String(error)]). *)
Inductive Outcome (A : Type) : Type :=
| Return : A -> Outcome A
| Throw : string -> Outcome A.
Arguments Return {A} _.
Arguments Throw {A} _.

(** A Firestore [Timestamp], an opaque value here. *)
Definition Timestamp : Type := Value.

Record DocumentReference : Type := mkRef { ref_path : string }.

Record DocumentSnapshot : Type := mkSnapshot {
  snap_exists : bool;
  snap_data : option Obj
}.

(** The body of the model's HTTP reply ([GeminiResponse]). *)
Record GeminiPart : Type := mkPart { part_text : option string }.
Record GeminiContent : Type := mkContent { parts : option (list GeminiPart) }.
Record GeminiCandidate : Type := mkCandidate { content : option GeminiContent }.
Record UsageMetadata : Type := mkUsageMetadata {
  promptTokenCount : option Z;
  candidatesTokenCount : option Z;
  totalTokenCount : option Z
}.
Record GeminiResponse : Type := mkGeminiResponse {
  candidates : option (list GeminiCandidate);
  usageMetadata : option UsageMetadata
}.

(** What [fetch] resolves to.  [response.json()] is read as any JSON value
    on the error path ([resp_errorData]) and as a [GeminiResponse] on the
    success path ([resp_data]); either read can throw. *)
Record HttpResponse : Type := mkHttpResponse {
  resp_ok : bool;
  resp_status : Z;
  resp_errorData : Outcome Value;
  resp_data : Outcome GeminiResponse
}.

Record TranslationTaskPayload : Type := mkPayload {
  collectionPath : string;
  documentId : string;
  targetLanguage : string;
  config : CollectionConfig;
  batchId : string
}.

(** Built-ins of the host that are not interpreted: [JSON.parse] ([None]
    when it throws), the two regular-expression matches of
    [extractJsonFromResponse] (the capture of the fenced block, the
    brace-delimited match), [String.prototype.trim], the text of a
    [ZodError], and the dynamic [import('firebase-admin/firestore')]:
    [None] when the module loads, the error the import rejects with when
    it does not. *)
Record Platform : Type := mkPlatform {
  JSON_parse : string -> option Value;
  match_code_block : string -> option string;
  match_json_object : string -> option string;
  String_trim : string -> string;
  ZodError_message : list ZodIssue -> string;
  import_firestore : option string
}.

Inductive Event : Type :=
| EvGet : string -> Event
| EvSet : string -> Obj -> Event
| EvUpdate : string -> list (list string * Value) -> Event
| EvDelete : string -> Event
| EvFetch : Event
| EvEnqueue : TranslationTaskPayload -> Z -> Event.

(** [faults] is the fault schedule of the backends: every call to
    Firestore or to the task queue consumes its head, and throws when the
    head is an error.  [entropy] feeds [Math.random]. *)
Record World : Type := mkWorld {
  platform : Platform;
  store : list (string * Obj);
  faults : list (option string);
  fetch_reply : Outcome HttpResponse;
  clock_ms : Z;
  timestamp_now : Timestamp;
  entropy : list string;
  log : list Event
}.

(** Computations with effects on the world that may throw. *)
Definition M (A : Type) : Type := World -> Outcome A * World.

Definition ret {A : Type} (a : A) : M A := fun w => (Return a, w).
Definition throw {A : Type} (e : string) : M A := fun w => (Throw e, w).
Definition bind {A B : Type} (c : M A) (k : A -> M B) : M B :=
  fun w => match c w with
           | (Return a, w') => k a w'
           | (Throw e, w') => (Throw e, w')
           end.
(** [try { c } catch (error) { handler(error) }]. *)
Definition try_catch {A : Type} (c : M A) (handler : string -> M A) : M A :=
  fun w => match c w with
           | (Return a, w') => (Return a, w')
           | (Throw e, w') => handler e w'
           end.
(** Lifts a call that throws or returns. *)
Definition of_outcome {A : Type} (o : Outcome A) : M A := fun w => (o, w).

Notation "x <- c ;; k" := (bind c (fun x => k))
  (at level 61, c at next level, right associativity).
Notation "c ;;; k" := (bind c (fun _ => k))
  (at level 61, right associativity).

Definition with_store (s : list (string * Obj)) (w : World) : World :=
  mkWorld (platform w) s (faults w) (fetch_reply w) (clock_ms w)
          (timestamp_now w) (entropy w) (log w).
Definition with_faults (f : list (option string)) (w : World) : World :=
  mkWorld (platform w) (store w) f (fetch_reply w) (clock_ms w)
          (timestamp_now w) (entropy w) (log w).
Definition with_entropy (e : list string) (w : World) : World :=
  mkWorld (platform w) (store w) (faults w) (fetch_reply w) (clock_ms w)
          (timestamp_now w) e (log w).
Definition with_event (ev : Event) (w : World) : World :=
  mkWorld (platform w) (store w) (faults w) (fetch_reply w) (clock_ms w)
          (timestamp_now w) (entropy w) (log w ++ [ev])%list.

(** One call to a backend: logged, then failed by the fault schedule or
    carried out. *)
Definition backend_call {A : Type} (ev : Event) (run : World -> Outcome A * World)
  : M A :=
  fun w =>
    let w1 := with_event ev w in
    match faults w1 with
    | Some e :: rest => (Throw e, with_faults rest w1)
    | None :: rest => run (with_faults rest w1)
    | [] => run w1
    end.

(** [store] without the document at [p]. *)
Fixpoint store_remove (s : list (string * Obj)) (p : string)
  : list (string * Obj) :=
  match s with
  | [] => []
  | (p', d) :: rest =>
      if String.eqb p' p then store_remove rest p else (p', d) :: store_remove rest p
  end.

(** Firestore [update] with a dotted field path, given by its segments:
    the value is set inside nested maps, which are created as needed. *)
Fixpoint set_path (o : Obj) (path : list string) (v : Value) : Obj :=
  match path with
  | [] => o
  | [k] => obj_set o k v
  | k :: rest =>
      let inner := match obj_get o k with
                   | Some (VObj m) => m
                   | _ => []
                   end in
      obj_set o k (VObj (set_path inner rest v))
  end.

Definition apply_updates (o : Obj) (updates : list (list string * Value)) : Obj :=
  fold_left (fun acc u => set_path acc (fst u) (snd u)) updates o.

(** [ref.get()]. *)
Definition ref_get (r : DocumentReference) : M DocumentSnapshot :=
  backend_call (EvGet (ref_path r))
    (fun w => match obj_get (store w) (ref_path r) with
              | Some d => (Return (mkSnapshot true (Some d)), w)
              | None => (Return (mkSnapshot false None), w)
              end).

(** [ref.set(data)]: the document is replaced. *)
Definition ref_set (r : DocumentReference) (data : Obj) : M unit :=
  backend_call (EvSet (ref_path r) data)
    (fun w => (Return tt, with_store (obj_set (store w) (ref_path r) data) w)).

(** [ref.update(updates)]: fails when the document does not exist. *)
Definition ref_update (r : DocumentReference)
    (updates : list (list string * Value)) : M unit :=
  backend_call (EvUpdate (ref_path r) updates)
    (fun w => match obj_get (store w) (ref_path r) with
              | Some d =>
                  (Return tt,
                   with_store (obj_set (store w) (ref_path r)
                                       (apply_updates d updates)) w)
              | None => (Throw "NOT_FOUND: No document to update", w)
              end).

(** [ref.delete()]. *)
Definition ref_delete (r : DocumentReference) : M unit :=
  backend_call (EvDelete (ref_path r))
    (fun w => (Return tt, with_store (store_remove (store w) (ref_path r)) w)).

(** [getTimestamp]: the Firestore module is imported, which can fail,
    then [Timestamp.now()] reads the clock. *)
Definition getTimestamp (docRef : DocumentReference) : M Timestamp :=
  fun w => match import_firestore (platform w) with
           | Some e => (Throw e, w)
           | None => (Return (timestamp_now w), w)
           end.

(** [Math.random().toString(36).substring(2, 8)]. *)
Definition Math_random36 : M string :=
  fun w => match entropy w with
           | r :: rest => (Return r, with_entropy rest w)
           | [] => (Return "", w)
           end.

Definition Date_now : M Z := fun w => (Return (clock_ms w), w).

(** [generateBatchId]. *)
Definition generateBatchId : M string :=
  timestamp <- Date_now ;;
  random <- Math_random36 ;;
  ret ("batch_" ++ Number_toString timestamp ++ "_" ++ random).

(* ================================================================== *)
(** * [@melaka/firestore]: i18n.ts *)
(* ================================================================== *)

Inductive TranslationStatus : Type := completed | failed | pending.

Definition status_string (s : TranslationStatus) : string :=
  match s with
  | completed => "completed"
  | failed => "failed"
  | pending => "pending"
  end.

Record MelakaMetadata : Type := mkMetadata {
  source_hash : string;
  translated_at : Timestamp;
  model : string;
  status : TranslationStatus;
  reviewed : bool
}.

(** The metadata as the object literal that is stored. *)
Definition metadata_value (m : MelakaMetadata) : Value :=
  VObj [("source_hash", VStr (source_hash m));
        ("translated_at", translated_at m);
        ("model", VStr (model m));
        ("status", VStr (status_string (status m)));
        ("reviewed", VBool (reviewed m))].

(** [v === s] for a string [s]. *)
Definition strict_eq_string (v : Value) (s : string) : bool :=
  match v with
  | VStr s' => String.eqb s' s
  | _ => false
  end.

Definition getI18nPath (docRef : DocumentReference) (locale : string) : string :=
  ref_path docRef ++ "/i18n/" ++ locale.

Definition getI18nRef (docRef : DocumentReference) (locale : string)
  : DocumentReference :=
  mkRef (ref_path docRef ++ "/i18n/" ++ locale).

Definition readTranslation (docRef : DocumentReference) (locale : string)
  : M (option Obj) :=
  let i18nRef := getI18nRef docRef locale in
  snapshot <- ref_get i18nRef ;;
  if negb (snap_exists snapshot) then ret None
  else ret (snap_data snapshot).

(** The metadata is the stored value of [_melaka], read without a check
    of its shape. *)
Definition readMelakaMetadata (docRef : DocumentReference) (locale : string)
  : M (option Value) :=
  translation <- readTranslation docRef locale ;;
  match translation with
  | None => ret None
  | Some t =>
      if negb (truthy (js_prop (VObj t) "_melaka")) then ret None
      else ret (Some (js_prop (VObj t) "_melaka"))
  end.

Definition writeTranslation (docRef : DocumentReference) (locale : string)
    (translatedContent nonTranslatableContent : Obj)
    (metadata : MelakaMetadata) : M unit :=
  let i18nRef := getI18nRef docRef locale in
  let finalDoc :=
    obj_set (obj_spread (obj_spread [] translatedContent) nonTranslatableContent)
            "_melaka" (metadata_value metadata) in
  ref_set i18nRef finalDoc.

Definition markTranslationFailed (docRef : DocumentReference) (locale : string)
    (error : string) (timestamp : Timestamp) : M unit :=
  let i18nRef := getI18nRef docRef locale in
  existing <- ref_get i18nRef ;;
  if snap_exists existing then
    ref_update i18nRef
      [(["_melaka"; "status"], VStr (status_string failed));
       (["_melaka"; "error"], VStr error);
       (["_melaka"; "translated_at"], timestamp)]
  else
    ref_set i18nRef
      [("_melaka",
        VObj [("status", VStr (status_string failed));
              ("error", VStr error);
              ("translated_at", timestamp);
              ("source_hash", VStr "");
              ("model", VStr "");
              ("reviewed", VBool false)])].

Definition deleteTranslation (docRef : DocumentReference) (locale : string)
  : M unit :=
  ref_delete (getI18nRef docRef locale).

Definition isTranslationCurrent (docRef : DocumentReference) (locale : string)
    (sourceHash : string) : M bool :=
  metadata <- readMelakaMetadata docRef locale ;;
  match metadata with
  | None => ret false
  | Some md =>
      ret (strict_eq_string (js_prop md "status") "completed" &&
           strict_eq_string (js_prop md "source_hash") sourceHash)
  end.

(* ================================================================== *)
(** * [@melaka/ai]: types.ts, prompt.ts, providers/gemini.ts, facade.ts *)
(* ================================================================== *)

Record TranslationOptions : Type := mkTranslationOptions {
  to_targetLanguage : string;
  to_prompt : option string;
  to_glossary : option Glossary;
  to_temperature : option Temperature
}.

Record Usage : Type := mkUsage {
  inputTokens : Z;
  outputTokens : Z;
  totalTokens : Z
}.

(** [TranslationResponse]; the wall-clock [durationMs] is left out. *)
Record TranslationResponse : Type := mkResponse {
  tr_success : bool;
  tr_output : option Value;
  tr_error : option string;
  tr_usage : option Usage
}.

Definition response_failure (e : string) : TranslationResponse :=
  mkResponse false None (Some e) None.

Record ProviderConfig : Type := mkProviderConfig {
  pc_apiKey : option string;
  pc_model : string;
  pc_temperature : option Temperature
}.

(** [interface AIProvider]. *)
Record AIProvider : Type := mkAIProvider {
  provider_name : string;
  provider_translate :
    Obj -> ZodSchema -> TranslationOptions -> M TranslationResponse;
  provider_isConfigured : bool;
  provider_getModel : string
}.

Definition get_platform : M Platform := fun w => (Return (platform w), w).

(** [extractJsonFromResponse]: the whole reply, then the fenced block,
    then the brace-delimited part; it throws when none parses. *)
Definition extractJsonFromResponse (response : string) : M Value :=
  p <- get_platform ;;
  match JSON_parse p response with
  | Some v => ret v
  | None =>
      match match match_code_block p response with
            | Some captured => JSON_parse p (String_trim p captured)
            | None => None
            end with
      | Some v => ret v
      | None =>
          match match match_json_object p response with
                | Some matched => JSON_parse p matched
                | None => None
                end with
          | Some v => ret v
          | None => throw "Failed to extract valid JSON from AI response"
          end
      end
  end.

(** [fetch(url, request)]: the reply is the world's. *)
Definition fetch : M HttpResponse :=
  fun w => (fetch_reply w, with_event EvFetch w).

(** [!!this.config.apiKey]. *)
Definition Gemini_isConfigured (cfg : ProviderConfig) : bool :=
  match pc_apiKey cfg with
  | Some k => negb (String.eqb k "")
  | None => false
  end.

(** [data.candidates?.[0]?.content?.parts?.[0]?.text]. *)
Definition first_text (data : GeminiResponse) : option string :=
  match candidates data with
  | Some (c :: _) =>
      match content c with
      | Some ct =>
          match parts ct with
          | Some (p :: _) => part_text p
          | _ => None
          end
      | None => None
      end
  | _ => None
  end.

Definition or_zero (n : option Z) : Z :=
  match n with
  | Some k => k
  | None => 0
  end.

(** [GeminiProvider.translate]. *)
Definition Gemini_translate (cfg : ProviderConfig) (content : Obj)
    (schema : ZodSchema) (options : TranslationOptions)
  : M TranslationResponse :=
  try_catch
    (if negb (Gemini_isConfigured cfg)
     then ret (response_failure "Gemini API key not configured")
     else
       response <- fetch ;;
       if negb (resp_ok response) then
         errorData <- try_catch (of_outcome (resp_errorData response))
                                (fun _ => ret (VObj [])) ;;
         ret (response_failure
                ("Gemini API error: " ++ Number_toString (resp_status response)
                 ++ " " ++ match JSON_stringify None errorData with
                           | Some s => s
                           | None => "undefined"
                           end))
       else
         data <- of_outcome (resp_data response) ;;
         match first_text data with
         | None => ret (response_failure "No response from Gemini")
         | Some textResponse =>
             if String.eqb textResponse ""
             then ret (response_failure "No response from Gemini")
             else
               parsed <- extractJsonFromResponse textResponse ;;
               match safeParse schema parsed with
               | inr issues =>
                   p <- get_platform ;;
                   ret (response_failure
                          ("Schema validation failed: " ++ ZodError_message p issues))
               | inl validated =>
                   ret (mkResponse true (Some validated) None
                          (match usageMetadata data with
                           | Some u =>
                               Some (mkUsage (or_zero (promptTokenCount u))
                                             (or_zero (candidatesTokenCount u))
                                             (or_zero (totalTokenCount u)))
                           | None => None
                           end))
               end
         end)
    (fun error => ret (response_failure error)).

(** [new GeminiProvider(config)], with [{ temperature: 0.3, ...config }]. *)
Definition GeminiProvider (cfg : ProviderConfig) : AIProvider :=
  let this_config :=
    mkProviderConfig (pc_apiKey cfg) (pc_model cfg)
                     (override_opt (Some (3, 10)) (pc_temperature cfg)) in
  mkAIProvider "gemini" (Gemini_translate this_config)
               (Gemini_isConfigured this_config) (pc_model this_config).

(** [createProvider]: the [switch] on the provider's name. *)
Definition createProvider (aiConfig : AIConfig) : Outcome AIProvider :=
  let providerConfig :=
    mkProviderConfig (ai_apiKey aiConfig) (ai_model aiConfig)
                     (ai_temperature aiConfig) in
  if String.eqb (ai_provider aiConfig) "gemini" then
    Return (GeminiProvider providerConfig)
  else if String.eqb (ai_provider aiConfig) "openai" then
    Throw "OpenAI provider not yet implemented. Use Gemini for MVP."
  else if String.eqb (ai_provider aiConfig) "claude" then
    Throw "Claude provider not yet implemented. Use Gemini for MVP."
  else Throw ("Unknown AI provider: " ++ ai_provider aiConfig).

(** [class TranslationFacade]: the constructor calls [createProvider]. *)
Record TranslationFacade : Type := mkFacade { facade_provider : AIProvider }.

Definition createTranslationFacade (aiConfig : AIConfig)
  : Outcome TranslationFacade :=
  match createProvider aiConfig with
  | Return p => Return (mkFacade p)
  | Throw e => Throw e
  end.

Definition facade_translate (facade : TranslationFacade) (content : Obj)
    (schema : ZodSchema) (options : TranslationOptions)
  : M TranslationResponse :=
  provider_translate (facade_provider facade) content schema options.

Definition facade_getModel (facade : TranslationFacade) : string :=
  provider_getModel (facade_provider facade).

(* ================================================================== *)
(** * [@melaka/firestore]: processor.ts *)
(* ================================================================== *)

Record ProcessOptions : Type := mkProcessOptions {
  po_forceUpdate : option bool;
  po_timestamp : option Timestamp
}.

(** [ProcessResult]; the wall-clock [durationMs] is left out. *)
Record ProcessResult : Type := mkResult {
  pr_success : bool;
  pr_skipped : bool;
  pr_error : option string
}.

Definition opt_true (b : option bool) : bool :=
  match b with
  | Some true => true
  | _ => false
  end.

(** [options.timestamp || (await getTimestamp(docRef))]. *)
Definition resolve_timestamp (docRef : DocumentReference)
    (options : ProcessOptions) : M Timestamp :=
  match po_timestamp options with
  | Some t => if truthy t then ret t else getTimestamp docRef
  | None => getTimestamp docRef
  end.

(** [response.error || 'Unknown translation error']. *)
Definition error_or_unknown (error : option string) : string :=
  match error with
  | Some e => if String.eqb e "" then "Unknown translation error" else e
  | None => "Unknown translation error"
  end.

(** [!response.success || !response.output]. *)
Definition response_rejected (response : TranslationResponse) : bool :=
  negb (tr_success response) ||
  negb match tr_output response with
       | Some output => truthy output
       | None => false
       end.

(** The properties spread from [response.output]; the output of an
    object schema is an object. *)
Definition output_fields (response : TranslationResponse) : Obj :=
  match tr_output response with
  | Some (VObj o) => o
  | _ => []
  end.

(** Steps 4 to 10 of the [try] block of [processTranslation]: the schema,
    the gateway, the translation and the record of its outcome. *)
Definition translate_and_record (docRef : DocumentReference)
    (targetLanguage : string) (config : MelakaConfig)
    (collectionConfig : CollectionConfig) (options : ProcessOptions)
    (sc : SeparatedContent) (sourceHash : string) : M ProcessResult :=
  let schema := createTranslationSchema (translatable sc) (detectedTypes sc) in
  let aiConfig := getEffectiveAIConfig config collectionConfig in
  facade <- of_outcome (createTranslationFacade aiConfig) ;;
  let glossary := mergeGlossaries (mc_glossary config)
                                  (cc_glossary collectionConfig) in
  response <- facade_translate facade (translatable sc) schema
                (mkTranslationOptions targetLanguage
                   (cc_prompt collectionConfig) (Some glossary)
                   (ai_temperature aiConfig)) ;;
  timestamp <- resolve_timestamp docRef options ;;
  if response_rejected response then
    markTranslationFailed docRef targetLanguage
      (error_or_unknown (tr_error response)) timestamp ;;;
    ret (mkResult false false (tr_error response))
  else
    let metadata :=
      mkMetadata sourceHash timestamp (facade_getModel facade) completed false in
    writeTranslation docRef targetLanguage (output_fields response)
                     (nonTranslatable sc) metadata ;;;
    ret (mkResult true false None).

(** The [try] block of [processTranslation]: steps 1 to 3, the two ways
    to skip, then the translation. *)
Definition processTranslation_try (docRef : DocumentReference) (docData : Obj)
    (targetLanguage : string) (config : MelakaConfig)
    (collectionConfig : CollectionConfig) (options : ProcessOptions)
  : M ProcessResult :=
  let sc := separateContent docData (cc_fields collectionConfig) in
  if (Z.of_nat (length (Object_keys (translatable sc))) =? 0) then
    ret (mkResult true true None)
  else
    let sourceHash := hashContent (translatable sc) in
    current <-
      (if negb (opt_true (po_forceUpdate options)) then
         existingMetadata <- readMelakaMetadata docRef targetLanguage ;;
         match existingMetadata with
         | Some md =>
             ret (strict_eq_string (js_prop md "status") "completed" &&
                  strict_eq_string (js_prop md "source_hash") sourceHash)
         | None => ret false
         end
       else ret false) ;;
    if (current : bool) then ret (mkResult true true None)
    else translate_and_record docRef targetLanguage config collectionConfig
                              options sc sourceHash.

(** The [catch] block of [processTranslation]: the failure is marked,
    errors of the marking are ignored. *)
Definition processTranslation_catch (docRef : DocumentReference)
    (targetLanguage : string) (options : ProcessOptions) (errorMessage : string)
  : M ProcessResult :=
  timestamp <- resolve_timestamp docRef options ;;
  try_catch (markTranslationFailed docRef targetLanguage errorMessage timestamp)
            (fun _ => ret tt) ;;;
  ret (mkResult false false (Some errorMessage)).

Definition processTranslation (docRef : DocumentReference) (docData : Obj)
    (targetLanguage : string) (config : MelakaConfig)
    (collectionConfig : CollectionConfig) (options : ProcessOptions)
  : M ProcessResult :=
  try_catch
    (processTranslation_try docRef docData targetLanguage config
                            collectionConfig options)
    (processTranslation_catch docRef targetLanguage options).

(* ================================================================== *)
(** * [@melaka/firestore]: task-handler.ts, queue.ts *)
(* ================================================================== *)

Definition createTaskPayload (collectionPath documentId targetLanguage : string)
    (config : CollectionConfig) (batchId : string) : TranslationTaskPayload :=
  mkPayload collectionPath documentId targetLanguage config batchId.

(** [interface TaskQueue]; the second argument is
    [options.scheduleDelaySeconds]. *)
Record TaskQueue : Type := mkQueue {
  enqueue : TranslationTaskPayload -> Z -> M unit
}.

Record EnqueueOptions : Type := mkEnqueueOptions {
  queue : TaskQueue;
  staggerDelayMs : option Z
}.

Record EnqueueResult : Type := mkEnqueueResult {
  er_batchId : string;
  tasksEnqueued : Z;
  er_failed : Z;
  errors : list string
}.

(** [options.staggerDelayMs || 100]. *)
Definition staggerDelay_of (options : EnqueueOptions) : Z :=
  match staggerDelayMs options with
  | Some d => if d =? 0 then 100 else d
  | None => 100
  end.

(** [Math.floor((i * staggerDelay) / 1000)]; exact on the safe
    integers. *)
Definition scheduleDelaySeconds (i staggerDelay : Z) : Z :=
  (i * staggerDelay) / 1000.

(** The [for (let i = 0; i < config.languages.length; i++)] loop, from
    index [i] on, over the languages that remain. *)
Fixpoint enqueue_loop (collectionPath documentId : string)
    (collectionConfig : CollectionConfig) (options : EnqueueOptions)
    (batchId : string) (staggerDelay : Z)
    (languages : list string) (i : Z) (acc : EnqueueResult) : M EnqueueResult :=
  match languages with
  | [] => ret acc
  | language :: rest =>
      acc' <-
        try_catch
          (let payload := createTaskPayload collectionPath documentId language
                                            collectionConfig batchId in
           enqueue (queue options) payload (scheduleDelaySeconds i staggerDelay) ;;;
           ret (mkEnqueueResult (er_batchId acc) (tasksEnqueued acc + 1)
                                (er_failed acc) (errors acc)))
          (fun error =>
             ret (mkEnqueueResult (er_batchId acc) (tasksEnqueued acc)
                    (er_failed acc + 1)
                    (List.app (errors acc)
                       ["Failed to enqueue " ++ documentId ++ "/" ++ language
                        ++ ": " ++ error]))) ;;
      enqueue_loop collectionPath documentId collectionConfig options
                   batchId staggerDelay rest (i + 1) acc'
  end.

Definition enqueueDocumentTranslation (collectionPath documentId : string)
    (config : MelakaConfig) (collectionConfig : CollectionConfig)
    (options : EnqueueOptions) : M EnqueueResult :=
  batchId <- generateBatchId ;;
  let staggerDelay := staggerDelay_of options in
  enqueue_loop collectionPath documentId collectionConfig options batchId
               staggerDelay (mc_languages config) 0
               (mkEnqueueResult batchId 0 0 []).

(** A task queue that hands every task to the transport: the call is
    logged with its payload and delay, and fails when the transport
    does. *)
Definition transport_queue : TaskQueue :=
  mkQueue (fun payload delay =>
             backend_call (EvEnqueue payload delay) (fun w => (Return tt, w))).

(* ================================================================== *)
(** * [@melaka/core]: field mappings and the lookup of a collection *)
(* ================================================================== *)

Record FieldMapping : Type := mkFieldMapping {
  sourceField : string;
  targetField : option string;
  schemaType : option SchemaType;
  required : option bool;
  description : option string
}.

(** [mapping.targetField || mapping.sourceField]: an empty target name
    counts as none. *)
Definition mapping_target (mapping : FieldMapping) : string :=
  match targetField mapping with
  | Some t => if String.eqb t "" then sourceField mapping else t
  | None => sourceField mapping
  end.

(** [mapping.schemaType || 'string']. *)
Definition mapping_type (mapping : FieldMapping) : SchemaType :=
  match schemaType mapping with
  | Some t => t
  | None => T_string
  end.

(** [mapping.required ?? true]. *)
Definition mapping_required (mapping : FieldMapping) : bool :=
  match required mapping with
  | Some b => b
  | None => true
  end.

Definition createSchemaFromMappings (fieldMappings : list FieldMapping)
  : ZodSchema :=
  let schemaFields :=
    fold_left
      (fun acc mapping =>
         obj_assign acc (mapping_target mapping)
                    (createFieldSchema (mapping_type mapping)
                                       (mapping_required mapping)))
      fieldMappings [] in
  ZObject schemaFields strip.

(** [translatableTypes.includes(schemaType)] for
    [['string', 'string[]']]. *)
Definition translatableTypes_includes (t : SchemaType) : bool :=
  match t with
  | T_string | T_string_array => true
  | _ => false
  end.

Definition createTranslatableSchemaFromMappings (fieldMappings : list FieldMapping)
  : ZodSchema :=
  let schemaFields :=
    fold_left
      (fun acc mapping =>
         let t := mapping_type mapping in
         if negb (translatableTypes_includes t) then acc
         else obj_assign acc (mapping_target mapping)
                         (createFieldSchema t (mapping_required mapping)))
      fieldMappings [] in
  ZObject schemaFields strip.

(** [config.collections.find((c) => c.path === collectionPath)]. *)
Definition findCollectionConfig (config : MelakaConfig) (collectionPath : string)
  : option CollectionConfig :=
  find (fun c => String.eqb (cc_path c) collectionPath) (mc_collections config).

(* ================================================================== *)
(** * Firestore: collections and batches *)
(* ================================================================== *)

Definition is_slash (c : ascii) : bool := Ascii.eqb c "/"%char.

(** The segments of a path. *)
Fixpoint split_path (s : string) : list string :=
  match s with
  | EmptyString => [EmptyString]
  | String c rest =>
      if is_slash c then EmptyString :: split_path rest
      else match split_path rest with
           | seg :: segs => String c seg :: segs
           | [] => [String c EmptyString]
           end
  end.

(** [doc.id] and [doc.ref.parent.path] of the document at a path. *)
Definition doc_id (p : string) : string := last (split_path p) "".
Definition doc_parent (p : string) : string := join "/" (removelast (split_path p)).

(** The documents of the store, each once. *)
Definition store_paths (s : list (string * Obj)) : list string :=
  nodup string_dec (map fst s).

(** [firestore.collection(path)]: the documents right under the
    collection. *)
Definition in_collection (path p : string) : bool :=
  String.eqb (doc_parent p) path && negb (String.eqb (doc_id p) "") &&
  Nat.ltb 1 (length (split_path p)).

(** [firestore.collectionGroup(id)]: the documents of every collection
    with that identifier. *)
Definition in_collection_group (id p : string) : bool :=
  String.eqb (doc_id (doc_parent p)) id && negb (String.eqb (doc_id p) "") &&
  Nat.ltb 1 (length (split_path p)).

(** [query.get()]: the paths of the documents that match, in the order of
    their names. *)
Definition query_get (label : string) (matches : string -> bool)
  : M (list string) :=
  backend_call (EvGet label)
    (fun w => (Return (sort (filter matches (store_paths (store w)))), w)).

(** [batch.commit()] of a batch of deletions: one call, all the deletions
    or none. *)
Definition batch_commit_deletes (paths : list string) : M unit :=
  fun w =>
    let w1 := fold_left (fun acc p => with_event (EvDelete p) acc) paths w in
    let deleted := fold_left store_remove paths (store w) in
    match faults w1 with
    | Some e :: rest => (Throw e, with_faults rest w1)
    | None :: rest => (Return tt, with_store deleted (with_faults rest w1))
    | [] => (Return tt, with_store deleted w1)
    end.

(* ================================================================== *)
(** * [@melaka/firestore]: the rest of i18n.ts *)
(* ================================================================== *)

(** [updateMelakaMetadata]; the partial metadata is given by its
    entries, the update [`_melaka.${key}`] by the segments of its field
    path. *)
Definition updateMelakaMetadata (docRef : DocumentReference) (locale : string)
    (metadata : Obj) : M unit :=
  let i18nRef := getI18nRef docRef locale in
  let updates := map (fun kv => (["_melaka"; fst kv], snd kv)) metadata in
  ref_update i18nRef updates.

Definition deleteAllTranslations (docRef : DocumentReference) : M unit :=
  let i18nCollection := ref_path docRef ++ "/i18n" in
  snapshots <- query_get i18nCollection (in_collection i18nCollection) ;;
  batch_commit_deletes snapshots.

Definition listTranslationLocales (docRef : DocumentReference)
  : M (list string) :=
  let i18nCollection := ref_path docRef ++ "/i18n" in
  snapshots <- query_get i18nCollection (in_collection i18nCollection) ;;
  ret (map doc_id snapshots).

(** The body of the loop of [getTranslationStatus]:
    [status[locale] = metadata?.status || 'missing']. *)
Definition status_step (docRef : DocumentReference) (status : Obj)
    (locale : string) : M Obj :=
  metadata <- readMelakaMetadata docRef locale ;;
  let value := match metadata with
               | Some md => js_prop md "status"
               | None => VUndef
               end in
  ret (obj_assign status locale (if truthy value then value else VStr "missing")).

Fixpoint status_loop (docRef : DocumentReference) (locales : list string)
    (status : Obj) : M Obj :=
  match locales with
  | [] => ret status
  | locale :: rest =>
      status' <- status_step docRef status locale ;;
      status_loop docRef rest status'
  end.

Definition getTranslationStatus (docRef : DocumentReference)
    (locales : list string) : M Obj :=
  status_loop docRef locales [].

(* ================================================================== *)
(** * [@melaka/firestore]: the rest of processor.ts, task-handler.ts, queue.ts *)
(* ================================================================== *)

(** The loop of [processAllLanguages]: [results[language] = await
    processTranslation(...)]. *)
Fixpoint processAllLanguages_loop (docRef : DocumentReference) (docData : Obj)
    (config : MelakaConfig) (collectionConfig : CollectionConfig)
    (options : ProcessOptions) (languages : list string)
    (results : list (string * ProcessResult))
  : M (list (string * ProcessResult)) :=
  match languages with
  | [] => ret results
  | language :: rest =>
      r <- processTranslation docRef docData language config collectionConfig
                              options ;;
      processAllLanguages_loop docRef docData config collectionConfig options
                               rest (obj_assign results language r)
  end.

Definition processAllLanguages (docRef : DocumentReference) (docData : Obj)
    (config : MelakaConfig) (collectionConfig : CollectionConfig)
    (options : ProcessOptions) : M (list (string * ProcessResult)) :=
  processAllLanguages_loop docRef docData config collectionConfig options
                           (mc_languages config) [].

Record TaskHandlerContext : Type := mkContext {
  ctx_config : MelakaConfig;
  ctx_apiKey : string
}.

(** [{ ...context.config, ai: { ...context.config.ai, apiKey } }]. *)
Definition config_with_key (context : TaskHandlerContext) : MelakaConfig :=
  let c := ctx_config context in
  mkMelakaConfig (mc_languages c)
    (mkAIConfig (ai_provider (mc_ai c)) (ai_model (mc_ai c))
                (ai_temperature (mc_ai c)) (ai_apiKeySecret (mc_ai c))
                (Some (ctx_apiKey context)))
    (mc_glossary c) (mc_collections c).

(** [handleTranslationTask].  [validate] is
    [TranslationTaskPayloadSchema.safeParse]: the payload or the message
    of the error; [context.firestore] is the world's store. *)
Definition handleTranslationTask
    (validate : Value -> TranslationTaskPayload + string)
    (payload : Value) (context : TaskHandlerContext) : M ProcessResult :=
  match validate payload with
  | inr message =>
      ret (mkResult false false (Some ("Invalid task payload: " ++ message)))
  | inl taskPayload =>
      let docRef := mkRef (collectionPath taskPayload ++ "/"
                           ++ documentId taskPayload) in
      docSnapshot <- ref_get docRef ;;
      if negb (snap_exists docSnapshot) then
        ret (mkResult true true (Some "Document no longer exists"))
      else
        match snap_data docSnapshot with
        | None => ret (mkResult true true (Some "Document has no data"))
        | Some docData =>
            match findCollectionConfig (ctx_config context)
                                       (collectionPath taskPayload) with
            | None =>
                ret (mkResult false false
                       (Some ("Collection not configured: "
                              ++ collectionPath taskPayload)))
            | Some collectionConfig =>
                processTranslation docRef docData (targetLanguage taskPayload)
                  (config_with_key context) collectionConfig
                  (mkProcessOptions (cc_forceUpdate collectionConfig) None)
            end
        end
  end.

(** The loop over [snapshots.docs] of [enqueueCollectionTranslation]; its
    inner loop over the languages is the loop of
    [enqueueDocumentTranslation], started at [taskIndex]. *)
Fixpoint enqueue_docs (collectionConfig : CollectionConfig)
    (options : EnqueueOptions) (batchId : string) (staggerDelay : Z)
    (languages : list string) (docs : list string) (taskIndex : Z)
    (acc : EnqueueResult) : M EnqueueResult :=
  match docs with
  | [] => ret acc
  | doc :: rest =>
      let collectionPath :=
        if opt_true (cc_isCollectionGroup collectionConfig)
        then doc_parent doc else cc_path collectionConfig in
      acc' <- enqueue_loop collectionPath (doc_id doc) collectionConfig options
                           batchId staggerDelay languages taskIndex acc ;;
      enqueue_docs collectionConfig options batchId staggerDelay languages rest
                   (taskIndex + Z.of_nat (length languages)) acc'
  end.

Definition enqueueCollectionTranslation (config : MelakaConfig)
    (collectionConfig : CollectionConfig) (options : EnqueueOptions)
  : M EnqueueResult :=
  batchId <- generateBatchId ;;
  let staggerDelay := staggerDelay_of options in
  snapshots <-
    (if opt_true (cc_isCollectionGroup collectionConfig)
     then query_get (cc_path collectionConfig)
                    (in_collection_group (cc_path collectionConfig))
     else query_get (cc_path collectionConfig)
                    (in_collection (cc_path collectionConfig))) ;;
  enqueue_docs collectionConfig options batchId staggerDelay
               (mc_languages config) snapshots 0
               (mkEnqueueResult batchId 0 0 []).

(* ================================================================== *)
(** * Worlds after a call, and what a marking leaves *)
(* ================================================================== *)

(** The world after a backend call that the fault schedule lets through,
    before the call takes effect. *)
Definition called (ev : Event) (w : World) : World :=
  with_faults (tl (faults w)) (with_event ev w).

(** What [markTranslationFailed] leaves at the record's path: the updated
    record when one exists, the minimal record otherwise. *)
Definition marked_failed (existing : option Obj) (error : string)
    (timestamp : Timestamp) : Obj :=
  match existing with
  | Some d =>
      apply_updates d
        [(["_melaka"; "status"], VStr "failed");
         (["_melaka"; "error"], VStr error);
         (["_melaka"; "translated_at"], timestamp)]
  | None =>
      [("_melaka",
        VObj [("status", VStr "failed");
              ("error", VStr error);
              ("translated_at", timestamp);
              ("source_hash", VStr "");
              ("model", VStr "");
              ("reviewed", VBool false)])]
  end.

(** The world after the two backend calls of a marking that goes
    through. *)
Definition after_mark (docRef : DocumentReference) (locale error : string)
    (timestamp : Timestamp) (w : World) : World :=
  let p := getI18nPath docRef locale in
  let w1 := called (EvGet p) w in
  match obj_get (store w) p with
  | Some d =>
      let w2 := called (EvUpdate p
                          [(["_melaka"; "status"], VStr "failed");
                           (["_melaka"; "error"], VStr error);
                           (["_melaka"; "translated_at"], timestamp)]) w1 in
      with_store (obj_set (store w) p (marked_failed (Some d) error timestamp)) w2
  | None =>
      let w2 := called (EvSet p (marked_failed None error timestamp)) w1 in
      with_store (obj_set (store w) p (marked_failed None error timestamp)) w2
  end.

(** The fields of an object schema parsed against the properties of the
    input, as [safeParse] does for a [z.object]. *)
Fixpoint parse_shape (props : Obj) (shape : list (string * ZodSchema))
  : list (string * Value) + list ZodIssue :=
  match shape with
  | [] => inl []
  | (k, s) :: rest =>
      let input := match obj_get props k with
                   | Some v => v
                   | None => VUndef
                   end in
      match safeParse s input, parse_shape props rest with
      | inl v, inl rest' =>
          inl match v, obj_get props k with
              | VUndef, None => rest'
              | _, _ => (k, v) :: rest'
              end
      | inl _, inr errs => inr errs
      | inr errs, inl _ => inr (map (under k) errs)
      | inr errs, inr errs' => inr (map (under k) errs ++ errs')%list
      end
  end.

(** The value of [options.timestamp || (await getTimestamp(docRef))]. *)
Definition resolved_timestamp (options : ProcessOptions) (w : World) : Timestamp :=
  match po_timestamp options with
  | Some t => if truthy t then t else timestamp_now w
  | None => timestamp_now w
  end.

(** The timestamp of a run is at hand: it is passed in the options, or
    the Firestore module loads on the host. *)
Definition has_timestamp (options : ProcessOptions) (host : Platform) : bool :=
  match po_timestamp options with
  | Some t => truthy t
  | None => false
  end
  || match import_firestore host with
     | None => true
     | Some _ => false
     end.

(** A computation that leaves the host as it is. *)
Definition keeps_platform {A : Type} (c : M A) : Prop :=
  forall w, platform (snd (c w)) = platform w.

(** The tasks handed to the transport for the languages that remain, from
    index [i] on. *)
Fixpoint handed (collectionPath documentId : string)
    (collectionConfig : CollectionConfig) (theBatchId : string)
    (staggerDelay : Z) (languages : list string) (i : Z) : list Event :=
  match languages with
  | [] => []
  | language :: rest =>
      EvEnqueue (createTaskPayload collectionPath documentId language
                                   collectionConfig theBatchId)
                (scheduleDelaySeconds i staggerDelay)
      :: handed collectionPath documentId collectionConfig theBatchId
                staggerDelay rest (i + 1)
  end.

(* ================================================================== *)
(** * What the record store holds after an operation *)
(* ================================================================== *)

(** The document that [writeTranslation] sets. *)
Definition final_record (translatedContent nonTranslatableContent : Obj)
    (metadata : MelakaMetadata) : Obj :=
  obj_set (obj_spread (obj_spread [] translatedContent) nonTranslatableContent)
          "_melaka" (metadata_value metadata).

(** The map stored under [_melaka], empty when there is none. *)
Definition metadata_map (record : Obj) : Obj :=
  match obj_get record "_melaka" with
  | Some (VObj m) => m
  | _ => []
  end.

(** What [getTranslationStatus] reports for a locale, read off the
    store. *)
Definition stored_status (s : list (string * Obj)) (docRef : DocumentReference)
    (locale : string) : Value :=
  match obj_get s (getI18nPath docRef locale) with
  | Some t =>
      let status := js_prop (js_prop (VObj t) "_melaka") "status" in
      if truthy (js_prop (VObj t) "_melaka") && truthy status
      then status else VStr "missing"
  | None => VStr "missing"
  end.

(** A locale that can name a document: not empty, without a slash. *)
Definition locale_ok (locale : string) : bool :=
  negb (String.eqb locale "") &&
  forallb (fun c => negb (is_slash c)) (list_ascii_of_string locale).

(** The tasks handed to the transport for the documents that remain, from
    task index [i] on. *)
Fixpoint handed_docs (collectionConfig : CollectionConfig) (theBatchId : string)
    (staggerDelay : Z) (languages docs : list string) (i : Z) : list Event :=
  match docs with
  | [] => []
  | doc :: rest =>
      (handed (if opt_true (cc_isCollectionGroup collectionConfig)
               then doc_parent doc else cc_path collectionConfig)
              (doc_id doc) collectionConfig theBatchId staggerDelay languages i
       ++ handed_docs collectionConfig theBatchId staggerDelay languages rest
                      (i + Z.of_nat (length languages)))%list
  end.

(** The documents that [enqueueCollectionTranslation] lists. *)
Definition listed_docs (collectionConfig : CollectionConfig)
    (s : list (string * Obj)) : list string :=
  sort (filter (if opt_true (cc_isCollectionGroup collectionConfig)
                then in_collection_group (cc_path collectionConfig)
                else in_collection (cc_path collectionConfig))
               (store_paths s)).

(** The calls to [enqueue] for a list of tasks, one after the other: each
    is made in the world that the call before left, whether that call
    returned or threw. *)
Fixpoint enqueue_outcomes (q : TaskQueue) (tasks : list (TranslationTaskPayload * Z))
    (w : World) : list (Outcome unit) * World :=
  match tasks with
  | [] => ([], w)
  | task :: rest =>
      let (o, w1) := enqueue q (fst task) (snd task) w in
      let (os, w') := enqueue_outcomes q rest w1 in
      (o :: os, w')
  end.

Definition succeeded (o : Outcome unit) : bool :=
  match o with Return _ => true | Throw _ => false end.

(** The messages for the languages whose enqueue threw, in order. *)
Definition failure_messages (documentId : string) (languages : list string)
    (outcomes : list (Outcome unit)) : list string :=
  flat_map (fun lo => match snd lo with
                      | Throw e => ["Failed to enqueue " ++ documentId ++ "/"
                                    ++ fst lo ++ ": " ++ e]
                      | Return _ => []
                      end)
           (combine languages outcomes).

(** An entry of the fault schedule that fails its call. *)
Definition is_fault (f : option string) : bool :=
  match f with Some _ => true | None => false end.

(** A digit of a lower-case hexadecimal number. *)
Definition is_lower_hex (c : ascii) : bool :=
  let n := nat_of_ascii c in
  ((48 <=? n)%nat && (n <=? 57)%nat) || ((97 <=? n)%nat && (n <=? 102)%nat).

(* ================================================================== *)
(** * A scenario: one article, three locales *)
(* ================================================================== *)

Module Scenario.

Definition article : DocumentReference := mkRef "articles/a1".

Definition articleData : Obj :=
  [("title", VStr "Hello"); ("views", VNum 10)].

Definition articles : CollectionConfig :=
  mkCollectionConfig "articles" None None None None None None None None.

Definition melakaConfig : MelakaConfig :=
  mkMelakaConfig ["ms-MY"; "zh-CN"; "ja-JP"]
    (mkAIConfig "gemini" "gemini-2.5-flash" None None (Some "test-key"))
    None [articles].

Definition noOptions : ProcessOptions := mkProcessOptions None None.

(** Three replies of the model to the translation of [articleData]: one
    that matches the schema, one with a field the schema does not have,
    one with a number where the schema has a string. *)
Definition replyExact : Obj := [("title", VStr "Halo")].
Definition replyExtra : Obj := [("title", VStr "Halo"); ("extra", VStr "x")].
Definition replyMistyped : Obj := [("title", VNum 5)].

Definition text_of (reply : Obj) : string := JSON_stringify_obj None reply.

(** A host whose [JSON.parse] reads the texts of the three replies, and
    whose other built-ins are not exercised. *)
Definition host : Platform :=
  mkPlatform
    (fun s => obj_get [(text_of replyExact, VObj replyExact);
                       (text_of replyExtra, VObj replyExtra);
                       (text_of replyMistyped, VObj replyMistyped)] s)
    (fun _ => None)
    (fun _ => None)
    (fun s => s)
    (fun issues =>
       join "; " (map (fun i => issue_code i ++ " at " ++ join "." (issue_path i))
                      issues))
    None.

(** The same host where the Firestore module does not load. *)
Definition hostWithoutFirestore : Platform :=
  mkPlatform (JSON_parse host) (match_code_block host) (match_json_object host)
             (String_trim host) (ZodError_message host)
             (Some "Cannot find module 'firebase-admin/firestore'").

Definition replyWith (text : string) : Outcome HttpResponse :=
  Return (mkHttpResponse true 200 (Return (VObj []))
            (Return (mkGeminiResponse
                       (Some [mkCandidate (Some (mkContent (Some [mkPart (Some text)])))])
                       None))).

Definition now : Timestamp :=
  VObj [("_seconds", VNum 1708972800); ("_nanoseconds", VNum 0)].

(** A world with the given records, fault schedule and reply. *)
Definition world (records : list (string * Obj)) (schedule : list (option string))
    (reply : Outcome HttpResponse) : World :=
  mkWorld host records schedule reply 1708972800000 now ["a1b2c3"] [].

(** A record of the article in Malay, translated from the content of
    [articleData]. *)
Definition currentRecord : Obj :=
  [("title", VStr "Halo"); ("views", VNum 10);
   ("_melaka",
    metadata_value
      (mkMetadata (hashContent [("title", VStr "Hello")]) now "gemini-2.5-flash"
                  completed false))].

(** The delays of the tasks in a log. *)
Definition delays (l : list Event) : list Z :=
  flat_map (fun ev => match ev with EvEnqueue _ d => [d] | _ => [] end) l.

(** The batch identifiers of the tasks in a log. *)
Definition batchIds (l : list Event) : list string :=
  flat_map (fun ev => match ev with EvEnqueue p _ => [batchId p] | _ => [] end) l.

End Scenario.

(* ================================================================== *)
(** * Properties *)
(* ================================================================== *)

(** ** The host: SHA-256 test vectors and a serialisation *)

Example sha256_abc :
  Sha256.digest_hex "abc" =
  "ba7816bf8f01cfea414140de5dae2223b00361a396177a9cb410ff61f20015ad".
Proof. vm_compute. reflexivity. Qed.

Example sha256_empty :
  Sha256.digest_hex "" =
  "e3b0c44298fc1c149afbf4c8996fb92427ae41e4649b934ca495991b7852b855".
Proof. vm_compute. reflexivity. Qed.

Example sha256_two_blocks :
  Sha256.digest_hex "abcdbcdecdefdefgefghfghighijhijkijkljklmklmnlmnomnopnopq" =
  "248d6a61d20638b8e5c026930c3e6039a33ce45964ff2167f6ecedd419db06c1".
Proof. vm_compute. reflexivity. Qed.

Example stringify_flat :
  JSON_stringify_obj None [("b", VNum 2); ("a", VStr "x")] =
  "{" ++ dquote ++ "b" ++ dquote ++ ":2," ++
  dquote ++ "a" ++ dquote ++ ":" ++ dquote ++ "x" ++ dquote ++ "}".
Proof. vm_compute. reflexivity. Qed.

(** ** Objects as association lists *)

Section Objects.
Context {A : Type}.
Implicit Types (o : list (string * A)) (k : string).

Lemma obj_get_None_not_In o k :
  obj_get o k = None <-> ~ In k (Object_keys o).
Proof.
  induction o as [|[k' v] rest IH]; simpl.
  - tauto.
  - destruct (String.eqb_spec k' k) as [->|Hne].
    + split; [discriminate | intros H; exfalso; apply H; now left].
    + rewrite IH. split; [intros H [E|I]; [congruence | tauto] | tauto].
Qed.

Lemma obj_get_In o k v :
  NoDup (Object_keys o) -> In (k, v) o -> obj_get o k = Some v.
Proof.
  induction o as [|[k' v'] rest IH]; simpl; [tauto|].
  intros Hnd [E|I].
  - inversion E; subst. now rewrite String.eqb_refl.
  - inversion Hnd as [|? ? Hnotin Hnd']; subst.
    destruct (String.eqb_spec k' k) as [->|Hne].
    + exfalso. apply Hnotin.
      change k with (fst (k, v)). now apply in_map.
    + now apply IH.
Qed.

Lemma obj_get_Some_In o k v :
  obj_get o k = Some v -> In (k, v) o.
Proof.
  induction o as [|[k' v'] rest IH]; simpl; [discriminate|].
  destruct (String.eqb_spec k' k) as [->|Hne].
  - intros E; inversion E; now left.
  - intros H; right; now apply IH.
Qed.

(** Reordering the properties of an object does not change what a
    property access returns. *)
Lemma obj_get_Permutation o o' k :
  NoDup (Object_keys o) -> Permutation o o' -> obj_get o k = obj_get o' k.
Proof.
  intros Hnd Hp.
  assert (Hnd' : NoDup (Object_keys o')).
  { unfold Object_keys.
    eapply Permutation_NoDup; [apply Permutation_map; exact Hp | exact Hnd]. }
  destruct (obj_get o k) as [v|] eqn:E.
  - symmetry. apply obj_get_In; [exact Hnd'|].
    eapply Permutation_in; [exact Hp|]. now apply obj_get_Some_In.
  - symmetry. apply obj_get_None_not_In.
    apply obj_get_None_not_In in E. intros I. apply E.
    unfold Object_keys in *.
    eapply Permutation_in; [apply Permutation_sym, Permutation_map; exact Hp | exact I].
Qed.

Lemma obj_set_fresh o k (v : A) :
  obj_get o k = None -> obj_set o k v = (o ++ [(k, v)])%list.
Proof.
  induction o as [|[k' v'] rest IH]; simpl; [reflexivity|].
  destruct (String.eqb k' k); [discriminate|].
  intros H. now rewrite IH.
Qed.
End Objects.

(** ** Sorting the keys *)

Lemma string_compare_refl (s : string) : (s ?= s)%string = Eq.
Proof.
  induction s as [|c s IH]; simpl; [reflexivity|].
  unfold Ascii.compare. now rewrite N.compare_refl.
Qed.

Lemma string_compare_lt_trans (a b c : string) :
  (a ?= b)%string = Lt -> (b ?= c)%string = Lt -> (a ?= c)%string = Lt.
Proof.
  revert b c. induction a as [|x a IH]; intros [|y b] [|z c]; simpl;
    try discriminate; try reflexivity.
  unfold Ascii.compare.
  destruct (N.compare_spec (N_of_ascii x) (N_of_ascii y)) as [Exy|Lxy|Gxy];
    try discriminate;
    destruct (N.compare_spec (N_of_ascii y) (N_of_ascii z)) as [Eyz|Lyz|Gyz];
    try discriminate; intros H1 H2.
  - rewrite Exy, Eyz, N.compare_refl. eapply IH; eassumption.
  - rewrite Exy. now apply N.compare_lt_iff in Lyz as ->.
  - rewrite <- Eyz. now apply N.compare_lt_iff in Lxy as ->.
  - assert (L : (N_of_ascii x < N_of_ascii z)%N) by lia.
    now apply N.compare_lt_iff in L as ->.
Qed.

Lemma string_leb_trans (a b c : string) :
  String.leb a b = true -> String.leb b c = true -> String.leb a c = true.
Proof.
  unfold String.leb.
  destruct (a ?= b)%string eqn:Eab; try discriminate;
    destruct (b ?= c)%string eqn:Ebc; try discriminate; intros _ _.
  - apply String.compare_eq_iff in Eab, Ebc. subst.
    now rewrite string_compare_refl.
  - apply String.compare_eq_iff in Eab. subst. now rewrite Ebc.
  - apply String.compare_eq_iff in Ebc. subst. now rewrite Eab.
  - now rewrite (string_compare_lt_trans a b c Eab Ebc).
Qed.

Lemma insert_sorted_comm (x y : string) (l : list string) :
  insert_sorted x (insert_sorted y l) = insert_sorted y (insert_sorted x l).
Proof.
  induction l as [|z l IH]; simpl.
  - destruct (String.leb x y) eqn:Exy, (String.leb y x) eqn:Eyx; try reflexivity.
    + now rewrite (String.leb_antisym x y Exy Eyx).
    + destruct (String.leb_total x y); congruence.
  - destruct (String.leb y z) eqn:Eyz, (String.leb x z) eqn:Exz; simpl.
    + destruct (String.leb x y) eqn:Exy, (String.leb y x) eqn:Eyx;
        rewrite ?Eyz, ?Exz; try reflexivity.
      * now rewrite (String.leb_antisym x y Exy Eyx).
      * destruct (String.leb_total x y); congruence.
    + destruct (String.leb x y) eqn:Exy.
      * rewrite (string_leb_trans x y z Exy Eyz) in Exz. discriminate.
      * now rewrite Exz, Eyz.
    + destruct (String.leb y x) eqn:Eyx.
      * rewrite (string_leb_trans y x z Eyx Exz) in Eyz. discriminate.
      * now rewrite Eyz, Exz.
    + now rewrite Eyz, Exz, IH.
Qed.

(** The sorted list of keys depends on the set of keys only. *)
Lemma sort_Permutation (l l' : list string) :
  Permutation l l' -> sort l = sort l'.
Proof.
  induction 1 as [| x l l' _ IH | x y l | l l' l'' _ IH1 _ IH2]; simpl.
  - reflexivity.
  - now rewrite IH.
  - apply insert_sorted_comm.
  - now rewrite IH1.
Qed.

(** ** [hashContent] *)

Lemma serialize_texts (K : option (list string)) (props : list (string * Value)) :
  (fix texts (l : list (string * Value)) : list (string * option string) :=
     match l with
     | [] => []
     | (k, e) :: rest => (k, SerializeJSONProperty K e) :: texts rest
     end) props
  = map (fun kv => (fst kv, SerializeJSONProperty K (snd kv))) props.
Proof.
  induction props as [|[k e] rest IH]; simpl; [reflexivity|].
  now rewrite IH.
Qed.

Lemma serialize_VObj (K : option (list string)) (props : list (string * Value)) :
  SerializeJSONProperty K (VObj props)
  = Some ("{" ++ join "," (object_members K props) ++ "}").
Proof.
  unfold object_members. rewrite <- serialize_texts. reflexivity.
Qed.

(** Under a property list, the text of an object does not depend on the
    order of its properties. *)
Lemma serialize_object_Permutation (K : list string) (o o' : Obj) :
  NoDup (Object_keys o) -> Permutation o o' ->
  SerializeJSONProperty (Some K) (VObj o) = SerializeJSONProperty (Some K) (VObj o').
Proof.
  intros Hnd Hp. rewrite !serialize_VObj.
  assert (E : object_members (Some K) o = object_members (Some K) o');
    [|now rewrite E].
  unfold object_members. apply flat_map_ext. intros P.
  rewrite (obj_get_Permutation _
             (map (fun kv => (fst kv, SerializeJSONProperty (Some K) (snd kv))) o')).
  - reflexivity.
  - unfold Object_keys. rewrite map_map. simpl. exact Hnd.
  - now apply Permutation_map.
Qed.

(** C9.  [hashContent] does not depend on the insertion order of the keys
    of the content map: two maps with the same key-value content, listed in
    any two orders, have the same digest; in particular
    [hashContent {a:1, b:2} = hashContent {b:2, a:1}]. *)
Theorem hashContent_key_order_invariant (M1 M2 : Obj) :
  NoDup (Object_keys M1) ->
  Permutation M1 M2 ->
  hashContent M1 = hashContent M2.
Proof.
  intros Hnd Hp. unfold hashContent, JSON_stringify_obj, JSON_stringify.
  assert (Hk : sort (Object_keys M1) = sort (Object_keys M2)).
  { apply sort_Permutation. unfold Object_keys. now apply Permutation_map. }
  rewrite <- Hk. cbn [option_map].
  now rewrite (serialize_object_Permutation _ M1 M2 Hnd Hp).
Qed.

Lemma hashContent_key_order_invariant_witness :
  hashContent [("a", VNum 1); ("b", VNum 2)] =
  hashContent [("b", VNum 2); ("a", VNum 1)].
Proof.
  apply hashContent_key_order_invariant.
  - repeat constructor; simpl; intuition discriminate.
  - apply perm_swap.
Defined.

(** The replacer of [hashContent] holds the top-level keys only, and
    [JSON.stringify] applies it at every depth: the properties of a nested
    object are serialised only when their names are top-level keys too. *)
Example hashContent_normalized_nested :
  JSON_stringify_obj (Some (sort (Object_keys [("tags", VArr [VStr "a"; VObj [("x", VNum 1)]])])))
                     [("tags", VArr [VStr "a"; VObj [("x", VNum 1)]])]
  = "{" ++ dquote ++ "tags" ++ dquote ++ ":[" ++ dquote ++ "a" ++ dquote ++ ",{}]}".
Proof. vm_compute. reflexivity. Qed.

(** C4.  Two content maps that differ in content and have the same
    fingerprint: the field [tags] is classified as a string array (its
    first item is a string), so both maps are translatable content; they
    differ in the nested value of [x], which the normalisation drops. *)
Theorem hashContent_nested_collision :
  let M1 : Obj := [("tags", VArr [VStr "a"; VObj [("x", VNum 1)]])] in
  let M2 : Obj := [("tags", VArr [VStr "a"; VObj [("x", VNum 2)]])] in
  translatable (separateContent M1 None) = M1 /\
  translatable (separateContent M2 None) = M2 /\
  M1 <> M2 /\
  hashContent M1 = hashContent M2.
Proof.
  intros M1 M2.
  split; [vm_compute; reflexivity|].
  split; [vm_compute; reflexivity|].
  split; [intros H; discriminate H|].
  vm_compute. reflexivity.
Qed.

(** ** [separateContent] *)

Section Separation.
Variable fields : option (list string).

(** The fields that are sent to translation, and those copied.  The
    loop skips [_melaka]; a field named [__proto__] is assigned to no
    map. *)
Let listed (field : string) : bool :=
  match fields with
  | Some fs => includes fs field
  | None => true
  end.
Let is_metadata (entry : string * Value) : bool := String.eqb (fst entry) "_melaka".
Let is_accessor (entry : string * Value) : bool := String.eqb (fst entry) "__proto__".
Let goes_translatable (entry : string * Value) : bool :=
  negb (is_metadata entry) && negb (is_accessor entry) && listed (fst entry) &&
  isTranslatableType (detectFieldType (snd entry)).
Let goes_nonTranslatable (entry : string * Value) : bool :=
  negb (is_metadata entry) && negb (is_accessor entry) &&
  negb (listed (fst entry) && isTranslatableType (detectFieldType (snd entry))).

(** One turn of the loop assigns the field to one map at most. *)
Lemma separate_step_maps (acc : SeparatedContent) (entry : string * Value) :
  translatable (separate_step fields acc entry)
  = (if goes_translatable entry
     then obj_set (translatable acc) (fst entry) (snd entry)
     else translatable acc) /\
  nonTranslatable (separate_step fields acc entry)
  = (if goes_nonTranslatable entry
     then obj_set (nonTranslatable acc) (fst entry) (snd entry)
     else nonTranslatable acc).
Proof.
  destruct entry as [f v].
  unfold separate_step, goes_translatable, goes_nonTranslatable, is_metadata,
    is_accessor, listed, obj_assign.
  cbn [fst snd].
  destruct (String.eqb f "_melaka"); cbn [negb andb]; [split; reflexivity|].
  destruct (String.eqb f "__proto__"); cbn [negb andb];
    (destruct fields as [fs|]; [destruct (includes fs f)|]); cbn [negb andb];
    try destruct (isTranslatableType (detectFieldType v));
    split; reflexivity.
Qed.

(** On an object (its keys are distinct) every assignment of the loop adds
    a new property, so the two maps are the fields of the document in
    their order, filtered. *)
Lemma separate_fold (doc : Obj) (acc : SeparatedContent) :
  NoDup (Object_keys doc) ->
  (forall k, In k (Object_keys doc) ->
             obj_get (translatable acc) k = None /\
             obj_get (nonTranslatable acc) k = None) ->
  translatable (fold_left (separate_step fields) doc acc)
  = (translatable acc ++ filter goes_translatable doc)%list /\
  nonTranslatable (fold_left (separate_step fields) doc acc)
  = (nonTranslatable acc ++ filter goes_nonTranslatable doc)%list.
Proof.
  revert acc. induction doc as [|[f v] rest IH]; intros acc Hnd Hfresh.
  - simpl. now rewrite !app_nil_r.
  - inversion Hnd as [|? ? Hnotin Hnd']; subst.
    destruct (Hfresh f (or_introl eq_refl)) as [HT HN].
    assert (Hrest : forall k, In k (Object_keys rest) -> k <> f).
    { intros k Hk ->. exact (Hnotin Hk). }
    assert (Hkeep : forall (o : Obj) k, In k (Object_keys rest) ->
              obj_get o k = None -> obj_get (o ++ [(f, v)])%list k = None).
    { intros o k Hk Ho. apply obj_get_None_not_In.
      apply obj_get_None_not_In in Ho.
      unfold Object_keys in *. rewrite map_app, in_app_iff. simpl.
      intros [I|[E|[]]]; [tauto | exact (Hrest k Hk (eq_sym E))]. }
    cbn [fold_left filter].
    destruct (separate_step_maps acc (f, v)) as [ET EN]. cbn [fst snd] in ET, EN.
    destruct (IH (separate_step fields acc (f, v)) Hnd') as [IHT IHN].
    { intros k Hk. destruct (Hfresh k (or_intror Hk)) as [HTk HNk].
      rewrite ET, EN.
      split; [destruct (goes_translatable (f, v))
             | destruct (goes_nonTranslatable (f, v))]; auto;
        rewrite obj_set_fresh by assumption; now apply Hkeep. }
    rewrite IHT, IHN, ET, EN.
    split; [destruct (goes_translatable (f, v))
           | destruct (goes_nonTranslatable (f, v))];
      rewrite ?obj_set_fresh by assumption; rewrite <- ?app_assoc; reflexivity.
Qed.

Lemma separateContent_filters (doc : Obj) :
  NoDup (Object_keys doc) ->
  translatable (separateContent doc fields) = filter goes_translatable doc /\
  nonTranslatable (separateContent doc fields) = filter goes_nonTranslatable doc.
Proof.
  intros Hnd. unfold separateContent.
  destruct (separate_fold doc (mkSeparated [] [] []) Hnd) as [HT HN].
  - intros k _. split; reflexivity.
  - now rewrite HT, HN.
Qed.



Lemma filter_keys_NoDup (p : string * Value -> bool) (doc : Obj) :
  NoDup (Object_keys doc) -> NoDup (Object_keys (filter p doc)).
Proof.
  induction doc as [|e rest IH]; simpl; [trivial|].
  intros Hnd. inversion Hnd as [|? ? Hnotin Hnd']; subst.
  destruct (p e); [|now apply IH].
  simpl. constructor; [|now apply IH].
  intros I. apply Hnotin. unfold Object_keys in *.
  apply in_map_iff in I as [x [Ex Ix]]. apply filter_In in Ix as [Ix _].
  rewrite <- Ex. now apply in_map.
Qed.



End Separation.


(** An own field named [__proto__] (a parsed JSON text can have one, a
    Firestore document cannot) reaches neither map. *)
Example separateContent_accessor_field :
  let sc := separateContent [("__proto__", VStr "x"); ("title", VStr "Hello")] None in
  translatable sc = [("title", VStr "Hello")] /\ nonTranslatable sc = [].
Proof. split; reflexivity. Qed.

(** Scenario A of the specification. *)
Example separateContent_scenario_A :
  let sc := separateContent [("title", VStr "Hello"); ("views", VNum 10);
                             ("tags", VArr [VStr "a"; VStr "b"])] None in
  Object_keys (translatable sc) = ["title"; "tags"] /\
  Object_keys (nonTranslatable sc) = ["views"].
Proof. split; reflexivity. Qed.

(** ** The record store *)

Lemma backend_call_ok {A : Type} (ev : Event) (run : World -> Outcome A * World)
    (w : World) :
  hd None (faults w) = None ->
  backend_call ev run w = run (called ev w).
Proof.
  unfold backend_call, called. destruct w as [p s f r c t e l]. simpl.
  destruct f as [|[msg|] rest]; simpl; intros H;
    [reflexivity | discriminate | reflexivity].
Qed.

Lemma backend_call_fault {A : Type} (ev : Event) (run : World -> Outcome A * World)
    (w : World) (msg : string) :
  hd None (faults w) = Some msg ->
  backend_call ev run w = (Throw msg, called ev w).
Proof.
  unfold backend_call, called. destruct w as [p s f r c t e l]. simpl.
  destruct f as [|[m|] rest]; simpl; intros H; try discriminate.
  now inversion H.
Qed.

Lemma strict_eq_string_true (v : Value) (s : string) :
  strict_eq_string v s = true <-> v = VStr s.
Proof.
  destruct v; simpl; try (split; [discriminate | intros H; discriminate H]).
  split.
  - intros H. apply String.eqb_eq in H. now subst.
  - intros H. inversion H. apply String.eqb_refl.
Qed.

Lemma js_prop_is_string (v : Value) (k s : string) :
  js_prop v k = VStr s <->
  exists o, v = VObj o /\ obj_get o k = Some (VStr s).
Proof.
  destruct v; simpl;
    try (split; [discriminate | intros [o [H _]]; discriminate H]).
  split.
  - destruct (obj_get l k) as [x|] eqn:E; [|discriminate].
    intros ->. now exists l.
  - intros [o [H1 H2]]. inversion H1; subst. now rewrite H2.
Qed.

(** The test of [isTranslationCurrent] and of the pipeline on the stored
    metadata. *)
Lemma metadata_is_current (md : Value) (sourceHash : string) :
  strict_eq_string (js_prop md "status") "completed" &&
  strict_eq_string (js_prop md "source_hash") sourceHash = true
  <-> exists metadata, md = VObj metadata /\
        obj_get metadata "status" = Some (VStr "completed") /\
        obj_get metadata "source_hash" = Some (VStr sourceHash).
Proof.
  rewrite andb_true_iff, !strict_eq_string_true, !js_prop_is_string.
  split.
  - intros [[o [E1 H1]] [o' [E2 H2]]]. subst md. inversion E2; subst o'.
    now exists o.
  - intros [o [E [H1 H2]]]. split; now exists o.
Qed.

(** [readMelakaMetadata] when the read goes through: the stored value of
    [_melaka], when the record exists and the value is truthy. *)
Lemma readMelakaMetadata_ok (docRef : DocumentReference) (locale : string)
    (w : World) :
  hd None (faults w) = None ->
  readMelakaMetadata docRef locale w =
  (Return match obj_get (store w) (getI18nPath docRef locale) with
          | Some t => if truthy (js_prop (VObj t) "_melaka")
                      then Some (js_prop (VObj t) "_melaka") else None
          | None => None
          end,
   called (EvGet (getI18nPath docRef locale)) w).
Proof.
  intros Hf. unfold readMelakaMetadata, readTranslation, bind, ref_get.
  rewrite (backend_call_ok _ _ _ Hf). cbn [getI18nRef ref_path].
  change (store (called (EvGet (ref_path docRef ++ "/i18n/" ++ locale)) w))
    with (store w).
  unfold getI18nPath.
  destruct (obj_get (store w) (ref_path docRef ++ "/i18n/" ++ locale)) as [t|];
    cbn; [|reflexivity].
  match goal with
  | |- context [truthy ?x] => destruct (truthy x); reflexivity
  end.
Qed.

(** C6.  When the read of the record goes through, [isTranslationCurrent]
    returns [true] exactly when a translation record exists for the
    document and locale whose metadata has status [completed] and whose
    stored [source_hash] is the expected hash; it returns [false] when the
    record is absent, when its status is [failed] or [pending], and when
    the stored hash differs.  The store is not written. *)
Theorem isTranslationCurrent_iff (docRef : DocumentReference)
    (locale sourceHash : string) (w : World) :
  hd None (faults w) = None ->
  exists (b : bool) (w' : World),
    isTranslationCurrent docRef locale sourceHash w = (Return b, w') /\
    store w' = store w /\
    (b = true <->
     exists (translation metadata : Obj),
       obj_get (store w) (getI18nPath docRef locale) = Some translation /\
       obj_get translation "_melaka" = Some (VObj metadata) /\
       obj_get metadata "status" = Some (VStr "completed") /\
       obj_get metadata "source_hash" = Some (VStr sourceHash)).
Proof.
  intros Hf. unfold isTranslationCurrent, bind.
  rewrite (readMelakaMetadata_ok _ _ _ Hf).
  destruct (obj_get (store w) (getI18nPath docRef locale)) as [t|] eqn:Et.
  - destruct (truthy (js_prop (VObj t) "_melaka")) eqn:Etr.
    + eexists; eexists; split; [reflexivity|]. split; [reflexivity|].
      rewrite metadata_is_current. split.
      * intros [metadata [E [H1 H2]]]. exists t, metadata.
        repeat split; try assumption.
        simpl in E. destruct (obj_get t "_melaka"); [now subst | discriminate].
      * intros [t' [metadata [E1 [E2 [H1 H2]]]]]. inversion E1; subst t'.
        exists metadata. simpl. rewrite E2. auto.
    + exists false; eexists; split; [reflexivity|]. split; [reflexivity|].
      split; [discriminate|].
      intros [t' [metadata [E1 [E2 _]]]]. inversion E1; subst t'.
      simpl in Etr. rewrite E2 in Etr. discriminate.
  - exists false; eexists; split; [reflexivity|]. split; [reflexivity|].
    split; [discriminate|].
    intros [t' [metadata [E1 _]]]. discriminate.
Qed.

Lemma obj_get_set_same {A : Type} (o : list (string * A)) (k : string) (v : A) :
  obj_get (obj_set o k v) k = Some v.
Proof.
  induction o as [|[k' v'] rest IH]; simpl.
  - now rewrite String.eqb_refl.
  - destruct (String.eqb k' k) eqn:E; simpl; rewrite E; [reflexivity | exact IH].
Qed.

Lemma obj_get_set_other {A : Type} (o : list (string * A)) (k k' : string) (v : A) :
  k <> k' -> obj_get (obj_set o k v) k' = obj_get o k'.
Proof.
  intros Hne. induction o as [|[k0 v0] rest IH]; simpl.
  - destruct (String.eqb_spec k k'); [contradiction | reflexivity].
  - destruct (String.eqb_spec k0 k) as [->|Hk]; simpl.
    + destruct (String.eqb_spec k k'); [contradiction | reflexivity].
    + destruct (String.eqb k0 k'); [reflexivity | exact IH].
Qed.

(** What an assignment leaves: the value under its name, unless the name
    is [__proto__]; the other properties as they were. *)
Lemma obj_get_assign {A : Type} (o : list (string * A)) (k k' : string) (v : A) :
  obj_get (obj_assign o k v) k'
  = if String.eqb k k' && negb (String.eqb k "__proto__") then Some v
    else obj_get o k'.
Proof.
  unfold obj_assign. destruct (String.eqb k "__proto__"); cbn [negb].
  - now rewrite andb_false_r.
  - rewrite andb_true_r. destruct (String.eqb_spec k k') as [->|Hne].
    + apply obj_get_set_same.
    + now apply obj_get_set_other.
Qed.

Lemma markTranslationFailed_ok (docRef : DocumentReference)
    (locale error : string) (timestamp : Timestamp) (w : World) :
  hd None (faults w) = None ->
  hd None (tl (faults w)) = None ->
  markTranslationFailed docRef locale error timestamp w
  = (Return tt, after_mark docRef locale error timestamp w).
Proof.
  intros H1 H2.
  unfold markTranslationFailed, after_mark, bind, ref_get, ref_update, ref_set.
  rewrite (backend_call_ok _ _ _ H1).
  cbn [getI18nRef ref_path]. unfold getI18nPath.
  set (p := ref_path docRef ++ "/i18n/" ++ locale).
  change (store (called (EvGet p) w)) with (store w).
  destruct (obj_get (store w) p) as [d|] eqn:Ed; cbn [snap_exists].
  - rewrite backend_call_ok by exact H2.
    match goal with
    | |- context [store (called ?ev (called ?ev' w))] =>
        change (store (called ev (called ev' w))) with (store w)
    end.
    rewrite Ed. reflexivity.
  - rewrite backend_call_ok by exact H2.
    match goal with
    | |- context [store (called ?ev (called ?ev' w))] =>
        change (store (called ev (called ev' w))) with (store w)
    end.
    reflexivity.
Qed.

Lemma marked_failed_status (existing : option Obj) (error : string)
    (timestamp : Timestamp) :
  let m := js_prop (VObj (marked_failed existing error timestamp)) "_melaka" in
  js_prop m "status" = VStr "failed" /\ js_prop m "error" = VStr error.
Proof.
  destruct existing as [d|]; [|split; reflexivity].
  unfold marked_failed, apply_updates. cbn [fold_left fst snd set_path js_prop].
  repeat first [ rewrite obj_get_set_same
               | rewrite obj_get_set_other by discriminate
               | progress cbn [js_prop] ].
  auto.
Qed.

(** A marking touches the metadata only. *)
Lemma marked_failed_content (existing : option Obj) (error : string)
    (timestamp : Timestamp) (k : string) :
  k <> "_melaka" ->
  obj_get (marked_failed existing error timestamp) k
  = match existing with Some d => obj_get d k | None => None end.
Proof.
  intros Hk. destruct existing as [d|]; unfold marked_failed.
  - unfold apply_updates. cbn [fold_left fst snd set_path].
    rewrite !obj_get_set_other by congruence. reflexivity.
  - cbn [obj_get].
    destruct (String.eqb_spec "_melaka" k); [congruence | reflexivity].
Qed.

(** The marking starts with a read of the record, whatever happens
    next. *)
Lemma markTranslationFailed_attempted (docRef : DocumentReference)
    (locale error : string) (timestamp : Timestamp) (w : World) :
  exists (o : Outcome unit) (w' : World) (rest : list Event),
    markTranslationFailed docRef locale error timestamp w = (o, w') /\
    log w' = (log w ++ EvGet (getI18nPath docRef locale) :: rest)%list.
Proof.
  unfold markTranslationFailed, bind, ref_get, ref_update, ref_set, backend_call,
    getI18nRef, getI18nPath.
  destruct w as [p s f r c t e l]. cbn.
  destruct f as [|[m|] f]; cbn.
  - destruct (obj_get s _); cbn;
      [destruct (obj_get s _); cbn|];
      do 3 eexists; (split; [reflexivity|]); cbn; rewrite <- app_assoc; reflexivity.
  - do 3 eexists. split; [reflexivity|]. reflexivity.
  - destruct (obj_get s _); cbn;
      (destruct f as [|[m|] f]; cbn;
       [ try destruct (obj_get s _); cbn | | try destruct (obj_get s _); cbn ]);
      do 3 eexists; (split; [reflexivity|]); cbn; rewrite <- app_assoc; reflexivity.
Qed.

(** ** [processTranslation] *)

Lemma resolve_timestamp_returns (docRef : DocumentReference)
    (options : ProcessOptions) (w : World) :
  has_timestamp options (platform w) = true ->
  resolve_timestamp docRef options w = (Return (resolved_timestamp options w), w).
Proof.
  unfold has_timestamp, resolve_timestamp, resolved_timestamp, getTimestamp, ret.
  destruct (po_timestamp options) as [t|]; [destruct (truthy t)|];
    destruct (import_firestore (platform w)); cbn;
    intros H; reflexivity || discriminate H.
Qed.

(** Without a timestamp in the options and without the module, the
    timestamp is not resolved: the import's error is thrown. *)
Lemma resolve_timestamp_throws (docRef : DocumentReference)
    (options : ProcessOptions) (w : World) :
  has_timestamp options (platform w) = false ->
  exists e, import_firestore (platform w) = Some e /\
            resolve_timestamp docRef options w = (Throw e, w).
Proof.
  unfold has_timestamp, resolve_timestamp, getTimestamp, ret.
  destruct (po_timestamp options) as [t|]; [destruct (truthy t)|];
    destruct (import_firestore (platform w)) as [e|]; cbn;
    intros H; try discriminate H; exists e; split; reflexivity.
Qed.

(** *** The host is the same throughout a run *)

Lemma keeps_ret {A : Type} (a : A) : keeps_platform (ret a).
Proof. intros w. reflexivity. Qed.

Lemma keeps_throw {A : Type} (e : string) : keeps_platform (@throw A e).
Proof. intros w. reflexivity. Qed.

Lemma keeps_of_outcome {A : Type} (o : Outcome A) : keeps_platform (of_outcome o).
Proof. intros w. reflexivity. Qed.

Lemma keeps_bind {A B : Type} (c : M A) (k : A -> M B) :
  keeps_platform c -> (forall a, keeps_platform (k a)) -> keeps_platform (bind c k).
Proof.
  intros Hc Hk w. unfold bind. specialize (Hc w).
  destruct (c w) as [[a|e] w1]; cbn in *; [|exact Hc].
  now rewrite Hk.
Qed.

Lemma keeps_try_catch {A : Type} (c : M A) (handler : string -> M A) :
  keeps_platform c -> (forall e, keeps_platform (handler e)) ->
  keeps_platform (try_catch c handler).
Proof.
  intros Hc Hh w. unfold try_catch. specialize (Hc w).
  destruct (c w) as [[a|e] w1]; cbn in *; [exact Hc|].
  now rewrite Hh.
Qed.

Lemma keeps_backend_call {A : Type} (ev : Event) (run : World -> Outcome A * World) :
  keeps_platform run -> keeps_platform (backend_call ev run).
Proof.
  intros Hr w. unfold backend_call.
  destruct w as [p s f r c t e l]. cbn.
  destruct f as [|[m|] f]; cbn; [rewrite Hr | | rewrite Hr]; reflexivity.
Qed.

Lemma keeps_markTranslationFailed (docRef : DocumentReference)
    (locale error : string) (timestamp : Timestamp) :
  keeps_platform (markTranslationFailed docRef locale error timestamp).
Proof.
  unfold markTranslationFailed, ref_get, ref_update, ref_set.
  apply keeps_bind.
  - apply keeps_backend_call. intros w. destruct (obj_get _ _); reflexivity.
  - intros a. destruct (snap_exists a); apply keeps_backend_call; intros w;
      [destruct (obj_get _ _)|]; reflexivity.
Qed.

Lemma keeps_readMelakaMetadata (docRef : DocumentReference) (locale : string) :
  keeps_platform (readMelakaMetadata docRef locale).
Proof.
  unfold readMelakaMetadata, readTranslation, ref_get.
  apply keeps_bind.
  - apply keeps_bind.
    + apply keeps_backend_call. intros w. destruct (obj_get _ _); reflexivity.
    + intros a. destruct (negb _); apply keeps_ret.
  - intros [t|]; [destruct (negb _)|]; apply keeps_ret.
Qed.

Lemma keeps_writeTranslation (docRef : DocumentReference) (locale : string)
    (translatedContent nonTranslatableContent : Obj) (metadata : MelakaMetadata) :
  keeps_platform (writeTranslation docRef locale translatedContent
                                   nonTranslatableContent metadata).
Proof.
  unfold writeTranslation, ref_set. apply keeps_backend_call. intros w. reflexivity.
Qed.

Lemma keeps_resolve_timestamp (docRef : DocumentReference) (options : ProcessOptions) :
  keeps_platform (resolve_timestamp docRef options).
Proof.
  intros w. unfold resolve_timestamp, getTimestamp, ret.
  destruct (po_timestamp options) as [t|]; [destruct (truthy t)|];
    try destruct (import_firestore (platform w)); reflexivity.
Qed.

Lemma keeps_extractJsonFromResponse (response : string) :
  keeps_platform (extractJsonFromResponse response).
Proof.
  intros w. unfold extractJsonFromResponse, bind, get_platform, ret, throw.
  destruct (JSON_parse _ _); [reflexivity|].
  destruct (match match_code_block _ _ with Some _ => _ | None => _ end);
    [reflexivity|].
  destruct (match match_json_object _ _ with Some _ => _ | None => _ end);
    reflexivity.
Qed.

Lemma keeps_Gemini_translate (cfg : ProviderConfig) (content : Obj)
    (schema : ZodSchema) (topts : TranslationOptions) :
  keeps_platform (Gemini_translate cfg content schema topts).
Proof.
  unfold Gemini_translate.
  apply keeps_try_catch; [|intros e; apply keeps_ret].
  destruct (negb (Gemini_isConfigured cfg)); [apply keeps_ret|].
  apply keeps_bind; [intros w; reflexivity|].
  intros response. destruct (negb (resp_ok response)).
  - apply keeps_bind; [|intros a; apply keeps_ret].
    apply keeps_try_catch; [apply keeps_of_outcome | intros e; apply keeps_ret].
  - apply keeps_bind; [apply keeps_of_outcome|].
    intros data. destruct (first_text data) as [textResponse|]; [|apply keeps_ret].
    destruct (String.eqb textResponse ""); [apply keeps_ret|].
    apply keeps_bind; [apply keeps_extractJsonFromResponse|].
    intros parsed. destruct (safeParse schema parsed); [apply keeps_ret|].
    apply keeps_bind; [intros w; reflexivity | intros a; apply keeps_ret].
Qed.

Lemma keeps_facade_translate (aiConfig : AIConfig) (facade : TranslationFacade)
    (content : Obj) (schema : ZodSchema) (topts : TranslationOptions) :
  createTranslationFacade aiConfig = Return facade ->
  keeps_platform (facade_translate facade content schema topts).
Proof.
  unfold createTranslationFacade, createProvider.
  destruct (String.eqb (ai_provider aiConfig) "gemini");
    [|destruct (String.eqb (ai_provider aiConfig) "openai");
      [|destruct (String.eqb (ai_provider aiConfig) "claude")]];
    intros H; try discriminate H.
  inversion H. unfold facade_translate. cbn. apply keeps_Gemini_translate.
Qed.

Lemma keeps_translate_and_record (docRef : DocumentReference)
    (targetLanguage : string) (config : MelakaConfig)
    (collectionConfig : CollectionConfig) (options : ProcessOptions)
    (sc : SeparatedContent) (sourceHash : string) :
  keeps_platform (translate_and_record docRef targetLanguage config collectionConfig
                                       options sc sourceHash).
Proof.
  intros w. unfold translate_and_record, bind at 1, of_outcome.
  destruct (createTranslationFacade (getEffectiveAIConfig config collectionConfig))
    as [facade|e] eqn:Ef; [|reflexivity].
  revert w. apply keeps_bind; [exact (keeps_facade_translate _ _ _ _ _ Ef)|].
  intros response. apply keeps_bind; [apply keeps_resolve_timestamp|].
  intros timestamp. destruct (response_rejected response); apply keeps_bind;
    try (intros a; apply keeps_ret).
  - apply keeps_markTranslationFailed.
  - apply keeps_writeTranslation.
Qed.

Lemma keeps_processTranslation_try (docRef : DocumentReference) (docData : Obj)
    (targetLanguage : string) (config : MelakaConfig)
    (collectionConfig : CollectionConfig) (options : ProcessOptions) :
  keeps_platform (processTranslation_try docRef docData targetLanguage config
                                         collectionConfig options).
Proof.
  unfold processTranslation_try.
  destruct (Z.of_nat _ =? 0); [apply keeps_ret|].
  apply keeps_bind.
  - destruct (negb (opt_true (po_forceUpdate options))); [|apply keeps_ret].
    apply keeps_bind; [apply keeps_readMelakaMetadata|].
    intros [md|]; apply keeps_ret.
  - intros [|]; [apply keeps_ret | apply keeps_translate_and_record].
Qed.

Lemma keeps_processTranslation_catch (docRef : DocumentReference)
    (targetLanguage : string) (options : ProcessOptions) (errorMessage : string) :
  keeps_platform (processTranslation_catch docRef targetLanguage options errorMessage).
Proof.
  unfold processTranslation_catch.
  apply keeps_bind; [apply keeps_resolve_timestamp|]. intros timestamp.
  apply keeps_bind; [|intros a; apply keeps_ret].
  apply keeps_try_catch; [apply keeps_markTranslationFailed | intros e; apply keeps_ret].
Qed.

Lemma keeps_processTranslation (docRef : DocumentReference) (docData : Obj)
    (targetLanguage : string) (config : MelakaConfig)
    (collectionConfig : CollectionConfig) (options : ProcessOptions) :
  keeps_platform (processTranslation docRef docData targetLanguage config
                                     collectionConfig options).
Proof.
  unfold processTranslation. apply keeps_try_catch.
  - apply keeps_processTranslation_try.
  - intros e. apply keeps_processTranslation_catch.
Qed.

(** The handler of the pipeline returns the failure result, having tried
    to mark the record. *)
Lemma processTranslation_catch_returns (docRef : DocumentReference)
    (targetLanguage : string) (options : ProcessOptions) (error : string)
    (w : World) :
  has_timestamp options (platform w) = true ->
  processTranslation_catch docRef targetLanguage options error w
  = (Return (mkResult false false (Some error)),
     snd (markTranslationFailed docRef targetLanguage error
            (resolved_timestamp options w) w)).
Proof.
  intros Hts. unfold processTranslation_catch, bind, try_catch, ret.
  rewrite resolve_timestamp_returns by exact Hts.
  destruct (markTranslationFailed docRef targetLanguage error
              (resolved_timestamp options w) w) as [[[]|e] w']; reflexivity.
Qed.

(** C7.  A document without translatable content is skipped:
    [processTranslation] returns [{success: true, skipped: true}] and
    leaves the world as it is, so no call reaches the record store and
    nothing is written for the document and locale. *)
Theorem processTranslation_skips_empty (docRef : DocumentReference)
    (docData : Obj) (targetLanguage : string) (config : MelakaConfig)
    (collectionConfig : CollectionConfig) (options : ProcessOptions)
    (w : World) :
  translatable (separateContent docData (cc_fields collectionConfig)) = [] ->
  processTranslation docRef docData targetLanguage config collectionConfig
                     options w
  = (Return (mkResult true true None), w).
Proof.
  intros Hempty.
  unfold processTranslation, try_catch, processTranslation_try.
  rewrite Hempty. reflexivity.
Qed.


(** ** [enqueueDocumentTranslation] *)

Lemma generateBatchId_returns (w : World) :
  exists w', generateBatchId w =
             (Return ("batch_" ++ Number_toString (clock_ms w) ++ "_"
                      ++ hd "" (entropy w)), w') /\
             log w' = log w /\ faults w' = faults w.
Proof.
  unfold generateBatchId, bind, Date_now, Math_random36, ret.
  destruct w as [p s f r c t e l]. cbn.
  destruct e as [|x e]; cbn; eexists; split; reflexivity || (split; reflexivity).
Qed.

Section AnyQueue.
Variables (collectionPath documentId : string).
Variable collectionConfig : CollectionConfig.
Variable options : EnqueueOptions.
Variables (theBatchId : string) (staggerDelay : Z).

(** Every language is counted once, as enqueued or as failed, whatever
    the queue does; a failure adds one message. *)
Lemma enqueue_loop_counts (languages : list string) :
  forall (i : Z) (acc : EnqueueResult) (w : World),
  exists (r : EnqueueResult) (w' : World),
    enqueue_loop collectionPath documentId collectionConfig options theBatchId
                 staggerDelay languages i acc w = (Return r, w') /\
    er_batchId r = er_batchId acc /\
    tasksEnqueued acc <= tasksEnqueued r /\
    er_failed acc <= er_failed r /\
    tasksEnqueued r + er_failed r
    = tasksEnqueued acc + er_failed acc + Z.of_nat (length languages) /\
    Z.of_nat (length (errors r)) - er_failed r
    = Z.of_nat (length (errors acc)) - er_failed acc.
Proof.
  induction languages as [|language rest IH]; intros i acc w.
  - exists acc, w. cbn. repeat split; lia.
  - cbn [enqueue_loop]. unfold bind at 1. unfold try_catch, bind, ret.
    destruct (enqueue (queue options) _ _ w) as [[[]|e] w1].
    + match goal with
      | |- context [enqueue_loop _ _ _ _ _ _ rest (i + 1) ?a w1] =>
          destruct (IH (i + 1) a w1) as [r [w' [E [Hb [H1 [H2 [H3 H4]]]]]]]
      end.
      exists r, w'. cbn in *. rewrite E. repeat split; try assumption; lia.
    + match goal with
      | |- context [enqueue_loop _ _ _ _ _ _ rest (i + 1) ?a w1] =>
          destruct (IH (i + 1) a w1) as [r [w' [E [Hb [H1 [H2 [H3 H4]]]]]]]
      end.
      exists r, w'. cbn in *. rewrite E.
      rewrite length_app in H4. cbn in H4.
      repeat split; try assumption; lia.
Qed.

End AnyQueue.

(** The loop, as a function of what the calls to the queue do. *)
Lemma enqueue_loop_outcomes (collectionPath documentId : string)
    (collectionConfig : CollectionConfig) (options : EnqueueOptions)
    (theBatchId : string) (staggerDelay : Z) (languages : list string) :
  forall (k : nat) (acc : EnqueueResult) (w : World),
  let tasks :=
    map (fun il => (mkPayload collectionPath documentId (snd il) collectionConfig
                              theBatchId,
                    (Z.of_nat (fst il) * staggerDelay) / 1000))
        (combine (seq k (length languages)) languages) in
  let run := enqueue_outcomes (queue options) tasks w in
  enqueue_loop collectionPath documentId collectionConfig options theBatchId
               staggerDelay languages (Z.of_nat k) acc w
  = (Return (mkEnqueueResult (er_batchId acc)
               (tasksEnqueued acc + Z.of_nat (length (filter succeeded (fst run))))
               (er_failed acc
                + Z.of_nat (length (filter (fun o => negb (succeeded o)) (fst run))))
               (errors acc ++ failure_messages documentId languages (fst run))),
     snd run) /\
  length (fst run) = length languages.
Proof.
  induction languages as [|language rest IH]; intros k acc w.
  - cbn. rewrite !Z.add_0_r, app_nil_r. destruct acc; split; reflexivity.
  - cbn [length seq combine map enqueue_outcomes fst snd enqueue_loop].
    unfold bind at 1. unfold try_catch, bind, ret.
    unfold createTaskPayload, scheduleDelaySeconds.
    destruct (enqueue (queue options) _ _ w) as [[[]|e] w1];
      replace (Z.of_nat k + 1) with (Z.of_nat (S k)) by lia;
      match goal with
      | |- context [enqueue_loop _ _ _ _ _ _ rest (Z.of_nat (S k)) ?a w1] =>
          destruct (IH (S k) a w1) as [E L]
      end;
      cbn zeta in E, L; rewrite E;
      destruct (enqueue_outcomes (queue options) _ w1) as [os w'];
      cbn [fst snd] in *;
      (split; [|cbn [length]; now rewrite L]);
      unfold failure_messages;
      cbn [combine flat_map fst snd filter succeeded negb length er_batchId
           tasksEnqueued er_failed errors app];
      rewrite <- ?app_assoc; cbn [app];
      do 3 f_equal; lia.
Qed.

Lemma failure_messages_length (documentId : string) (languages : list string)
    (outcomes : list (Outcome unit)) :
  length outcomes = length languages ->
  length (failure_messages documentId languages outcomes)
  = length (filter (fun o => negb (succeeded o)) outcomes).
Proof.
  unfold failure_messages. revert languages.
  induction outcomes as [|[u|e] os IH]; intros [|l ls] L; try discriminate L;
    cbn [combine flat_map snd fst filter succeeded negb length app];
    try reflexivity.
  - apply IH. cbn in L. lia.
  - f_equal. apply IH. cbn in L. lia.
Qed.

Lemma outcomes_split (outcomes : list (Outcome unit)) :
  (length (filter succeeded outcomes)
   + length (filter (fun o => negb (succeeded o)) outcomes)
   = length outcomes)%nat.
Proof.
  induction outcomes as [|[u|e] os IH]; cbn; lia.
Qed.

(** C10.  [enqueueDocumentTranslation] returns a result for every task
    queue, whichever of its calls throw.  The queue is called once for
    every configured language, in order, each call in the world the call
    before left: a failure for one language does not abort the others.
    [failed] is the number of calls that threw and [tasksEnqueued] the
    number of calls that returned, so that their sum is the number of
    configured languages; [errors] has exactly one entry per call that
    threw, in order, naming the document, the language and the error. *)
Theorem enqueueDocumentTranslation_counts (collectionPath documentId : string)
    (config : MelakaConfig) (collectionConfig : CollectionConfig)
    (options : EnqueueOptions) (w : World) :
  let languages := mc_languages config in
  let theBatchId :=
    "batch_" ++ Number_toString (clock_ms w) ++ "_" ++ hd "" (entropy w) in
  let tasks :=
    map (fun il => (mkPayload collectionPath documentId (snd il) collectionConfig
                              theBatchId,
                    (Z.of_nat (fst il) * staggerDelay_of options) / 1000))
        (combine (seq 0 (length languages)) languages) in
  exists (r : EnqueueResult) (w' : World) (outcomes : list (Outcome unit)),
    enqueueDocumentTranslation collectionPath documentId config collectionConfig
                               options w = (Return r, w') /\
    enqueue_outcomes (queue options) tasks (snd (generateBatchId w))
    = (outcomes, w') /\
    length outcomes = length languages /\
    tasksEnqueued r = Z.of_nat (length (filter succeeded outcomes)) /\
    er_failed r = Z.of_nat (length (filter (fun o => negb (succeeded o)) outcomes)) /\
    tasksEnqueued r + er_failed r = Z.of_nat (length languages) /\
    errors r = failure_messages documentId languages outcomes /\
    Z.of_nat (length (errors r)) = er_failed r.
Proof.
  intros languages theBatchId tasks.
  unfold enqueueDocumentTranslation, bind at 1.
  destruct (generateBatchId_returns w) as [w0 [E0 _]]. rewrite E0. cbn [snd].
  fold theBatchId languages.
  destruct (enqueue_loop_outcomes collectionPath documentId collectionConfig
              options theBatchId (staggerDelay_of options) languages 0
              (mkEnqueueResult theBatchId 0 0 []) w0) as [E L].
  cbn zeta in E, L. change (Z.of_nat 0) with 0 in E. rewrite E. fold tasks in L |- *.
  destruct (enqueue_outcomes (queue options) tasks w0) as [outcomes w'].
  cbn [fst snd] in *.
  exists (mkEnqueueResult theBatchId
            (0 + Z.of_nat (length (filter succeeded outcomes)))
            (0 + Z.of_nat (length (filter (fun o => negb (succeeded o)) outcomes)))
            ([] ++ failure_messages documentId languages outcomes)),
         w', outcomes.
  cbn [tasksEnqueued er_failed errors app].
  pose proof (outcomes_split outcomes) as Hsplit.
  pose proof (failure_messages_length documentId languages outcomes L) as Hmsg.
  repeat split; try reflexivity; try lia.
Qed.

Lemma transport_step {A : Type} (payload : TranslationTaskPayload) (delay : Z)
    (a : A) (b : string -> A) (w : World) :
  try_catch (enqueue transport_queue payload delay ;;; ret a)
            (fun error => ret (b error)) w
  = (Return match hd None (faults w) with Some e => b e | None => a end,
     called (EvEnqueue payload delay) w).
Proof.
  unfold try_catch, bind, ret, transport_queue, enqueue, backend_call, called.
  destruct w as [p s f r c t e l]. cbn.
  destruct f as [|[m|] f]; reflexivity.
Qed.

Lemma enqueue_loop_handed (collectionPath documentId : string)
    (collectionConfig : CollectionConfig) (stagger : option Z)
    (theBatchId : string) (staggerDelay : Z) (languages : list string) :
  forall (i : Z) (acc : EnqueueResult) (w : World),
  exists (r : EnqueueResult) (w' : World),
    enqueue_loop collectionPath documentId collectionConfig
                 (mkEnqueueOptions transport_queue stagger) theBatchId
                 staggerDelay languages i acc w = (Return r, w') /\
    er_batchId r = er_batchId acc /\
    log w' = (log w ++ handed collectionPath documentId collectionConfig
                              theBatchId staggerDelay languages i)%list.
Proof.
  induction languages as [|language rest IH]; intros i acc w.
  - exists acc, w. cbn. now rewrite app_nil_r.
  - cbn [enqueue_loop handed queue]. unfold bind at 1.
    rewrite transport_step.
    match goal with
    | |- context [enqueue_loop _ _ _ _ _ _ rest (i + 1) ?a ?w1] =>
        destruct (IH (i + 1) a w1) as [r [w' [E [Hb L]]]]
    end.
    exists r, w'. rewrite E. split; [reflexivity|]. split.
    + rewrite Hb. destruct (hd None (faults w)); reflexivity.
    + rewrite L. unfold called. destruct w; cbn. now rewrite <- app_assoc.
Qed.

Lemma handed_nth (collectionPath documentId : string)
    (collectionConfig : CollectionConfig) (theBatchId : string)
    (staggerDelay : Z) (languages : list string) :
  forall (i0 : Z) (i : nat) (language : string),
    nth_error languages i = Some language ->
    nth_error (handed collectionPath documentId collectionConfig theBatchId
                      staggerDelay languages i0) i
    = Some (EvEnqueue (mkPayload collectionPath documentId language
                                 collectionConfig theBatchId)
                      (((i0 + Z.of_nat i) * staggerDelay) / 1000)).
Proof.
  induction languages as [|l rest IH]; intros i0 [|i] language H;
    try discriminate.
  - cbn in *. inversion H. unfold scheduleDelaySeconds, createTaskPayload.
    now rewrite Z.add_0_r.
  - cbn [handed nth_error] in *. rewrite (IH (i0 + 1) i language H).
    do 3 f_equal. lia.
Qed.

Lemma handed_length (collectionPath documentId : string)
    (collectionConfig : CollectionConfig) (theBatchId : string)
    (staggerDelay : Z) (languages : list string) (i0 : Z) :
  length (handed collectionPath documentId collectionConfig theBatchId
                 staggerDelay languages i0) = length languages.
Proof.
  revert i0. induction languages as [|l rest IH]; intros i0; cbn;
    [reflexivity | now rewrite IH].
Qed.

(** C3 (amended).  With [n] configured languages, one task per language
    is handed to the transport, in order, whether or not the transport
    fails on some of them; all [n] payloads carry the batch identifier
    generated once for the call, which is the [batchId] of the result; the
    task at index [i] is scheduled with a delay of
    [floor (i * staggerDelayMs / 1000)] seconds, where [staggerDelayMs] is
    100 when the option is absent or zero. *)
Theorem enqueueDocumentTranslation_tasks (collectionPath documentId : string)
    (config : MelakaConfig) (collectionConfig : CollectionConfig)
    (stagger : option Z) (w : World) :
  let options := mkEnqueueOptions transport_queue stagger in
  exists (r : EnqueueResult) (w' : World) (tasks : list Event),
    enqueueDocumentTranslation collectionPath documentId config collectionConfig
                               options w = (Return r, w') /\
    er_batchId r = "batch_" ++ Number_toString (clock_ms w) ++ "_"
                   ++ hd "" (entropy w) /\
    log w' = (log w ++ tasks)%list /\
    length tasks = length (mc_languages config) /\
    forall (i : nat) (language : string),
      nth_error (mc_languages config) i = Some language ->
      nth_error tasks i
      = Some (EvEnqueue
                (mkPayload collectionPath documentId language collectionConfig
                           (er_batchId r))
                ((Z.of_nat i * staggerDelay_of options) / 1000)).
Proof.
  intros options. unfold enqueueDocumentTranslation, bind at 1.
  destruct (generateBatchId_returns w) as [w0 [-> [L0 _]]].
  set (b := "batch_" ++ Number_toString (clock_ms w) ++ "_" ++ hd "" (entropy w)).
  destruct (enqueue_loop_handed collectionPath documentId collectionConfig stagger
              b (staggerDelay_of options) (mc_languages config) 0
              (mkEnqueueResult b 0 0 []) w0) as [r [w' [E [Hb L]]]].
  exists r, w', (handed collectionPath documentId collectionConfig b
                        (staggerDelay_of options) (mc_languages config) 0).
  split; [exact E|]. cbn in Hb. rewrite Hb.
  split; [reflexivity|]. split; [now rewrite L, L0|].
  split; [apply handed_length|].
  intros i language H. now rewrite (handed_nth _ _ _ _ _ _ 0 i language H).
Qed.

(** ** The gateway *)

(** C1 (amended).  For an AI configuration that selects [openai] or
    [claude], creating the translation gateway throws an error whose
    message says that the provider is not yet implemented: no gateway is
    returned, so [translate] is never reached. *)
Theorem createTranslationFacade_unimplemented (aiConfig : AIConfig) :
  ai_provider aiConfig = "openai" \/ ai_provider aiConfig = "claude" ->
  createTranslationFacade aiConfig
  = Throw ((if String.eqb (ai_provider aiConfig) "openai" then "OpenAI" else "Claude")
           ++ " provider not yet implemented. Use Gemini for MVP.").
Proof.
  unfold createTranslationFacade, createProvider.
  intros [-> | ->]; reflexivity.
Qed.

Lemma createTranslationFacade_unimplemented_witness :
  createTranslationFacade (mkAIConfig "claude" "claude-sonnet-4-20250514" None None None)
  = Throw "Claude provider not yet implemented. Use Gemini for MVP.".
Proof.
  apply (createTranslationFacade_unimplemented
           (mkAIConfig "claude" "claude-sonnet-4-20250514" None None None)).
  right. reflexivity.
Defined.

(** C1, as stated, fails: with the provider [openai] the creation of the
    gateway throws, it returns no gateway whose [translate] could return
    a failure result. *)
Lemma openai_gateway_creation_throws :
  let aiConfig := mkAIConfig "openai" "gpt-4o-mini" None None (Some "sk-test") in
  createTranslationFacade aiConfig
  = Throw "OpenAI provider not yet implemented. Use Gemini for MVP." /\
  ~ exists facade, createTranslationFacade aiConfig = Return facade.
Proof.
  split; [reflexivity|]. intros [facade H]. discriminate H.
Qed.

Lemma extractJsonFromResponse_pure (response : string) (w : World) :
  snd (extractJsonFromResponse response w) = w.
Proof.
  unfold extractJsonFromResponse, bind, get_platform, ret, throw.
  destruct (JSON_parse _ _); [reflexivity|].
  destruct (match match_code_block _ _ with Some _ => _ | None => _ end);
    [reflexivity|].
  destruct (match match_json_object _ _ with Some _ => _ | None => _ end);
    reflexivity.
Qed.

Lemma extractJsonFromResponse_platform (response : string) (w1 w2 : World) :
  platform w1 = platform w2 ->
  fst (extractJsonFromResponse response w1) = fst (extractJsonFromResponse response w2).
Proof.
  intros H. unfold extractJsonFromResponse, bind, get_platform, ret, throw.
  rewrite H.
  destruct (JSON_parse _ _); [reflexivity|].
  destruct (match match_code_block _ _ with Some _ => _ | None => _ end);
    [reflexivity|].
  destruct (match match_json_object _ _ with Some _ => _ | None => _ end);
    reflexivity.
Qed.

(** The provider on a reply that is extracted and does not validate. *)
Lemma Gemini_translate_invalid (cfg : ProviderConfig) (content : Obj)
    (schema : ZodSchema) (topts : TranslationOptions) (w : World)
    (response : HttpResponse) (data : GeminiResponse)
    (textResponse : string) (parsed : Value) (issues : list ZodIssue) :
  Gemini_isConfigured cfg = true ->
  fetch_reply w = Return response ->
  resp_ok response = true ->
  resp_data response = Return data ->
  first_text data = Some textResponse ->
  textResponse <> "" ->
  fst (extractJsonFromResponse textResponse w) = Return parsed ->
  safeParse schema parsed = inr issues ->
  Gemini_translate cfg content schema topts w
  = (Return (response_failure
               ("Schema validation failed: " ++ ZodError_message (platform w) issues)),
     with_event EvFetch w).
Proof.
  intros Hcfg Hfetch Hok Hdata Htext Hne Hextract Hparse.
  unfold Gemini_translate, try_catch. rewrite Hcfg. cbn [negb].
  unfold bind at 1. unfold fetch. rewrite Hfetch, Hok. cbn [negb].
  unfold bind at 1. unfold of_outcome. rewrite Hdata, Htext.
  destruct (String.eqb_spec textResponse "") as [E|_]; [contradiction|].
  unfold bind at 1.
  pose proof (extractJsonFromResponse_pure textResponse (with_event EvFetch w)) as Hw.
  assert (Hx : fst (extractJsonFromResponse textResponse (with_event EvFetch w))
               = Return parsed).
  { rewrite <- Hextract. now apply extractJsonFromResponse_platform. }
  destruct (extractJsonFromResponse textResponse (with_event EvFetch w))
    as [o wx]. cbn in Hw, Hx. subst o wx.
  rewrite Hparse. reflexivity.
Qed.

(** ** Validation against an object schema *)

Lemma safeParse_object_strip (shape : list (string * ZodSchema)) (props : Obj) :
  safeParse (ZObject shape strip) (VObj props)
  = match parse_shape props shape with
    | inl out => inl (VObj out)
    | inr errs => inr errs
    end.
Proof.
  cbn [safeParse].
  match goal with
  | |- match ?f shape with _ => _ end = _ =>
      assert (E : f shape = parse_shape props shape)
  end.
  { induction shape as [|[k s] rest IH]; [reflexivity|].
    cbn [parse_shape]. rewrite <- IH. reflexivity. }
  now rewrite E.
Qed.

(** The validation of an object against [z.object(shape)] fails exactly
    when a field of the shape does not validate, a missing property being
    read as [undefined]; the properties that the shape does not name play
    no part. *)
Lemma parse_shape_fails_iff (props : Obj) (shape : list (string * ZodSchema)) :
  (exists errs, parse_shape props shape = inr errs) <->
  (exists k s errs, In (k, s) shape /\
     safeParse s match obj_get props k with Some v => v | None => VUndef end
     = inr errs).
Proof.
  induction shape as [|[k s] rest IH]; cbn [parse_shape].
  - split; [intros [errs H]; discriminate H | intros [k [s [errs [[] _]]]]].
  - destruct (safeParse s match obj_get props k with Some v => v | None => VUndef end)
      as [v|errs] eqn:Ek.
    + destruct (parse_shape props rest) as [out|errs'] eqn:Er.
      * split; [intros [errs H]; discriminate H|].
        intros [k' [s' [errs [[E|I] H]]]].
        -- inversion E; subst k' s'. rewrite Ek in H. discriminate H.
        -- assert (X : exists errs0 : list ZodIssue,
                     @inl (list (string * Value)) (list ZodIssue) out = inr errs0).
           { apply IH. now exists k', s', errs. }
           destruct X as [? X]. discriminate X.
      * split; [|intros _; now exists errs'].
        intros _. destruct (proj1 IH (ex_intro _ errs' eq_refl))
          as [k' [s' [errs [I H]]]].
        exists k', s', errs. split; [now right | exact H].
    + split.
      * intros _. exists k, s, errs. split; [now left | exact Ek].
      * intros _. destruct (parse_shape props rest); eexists; reflexivity.
Qed.

Lemma createTranslationFacade_gemini (aiConfig : AIConfig) :
  ai_provider aiConfig = "gemini" ->
  createTranslationFacade aiConfig
  = Return (mkFacade (GeminiProvider
                        (mkProviderConfig (ai_apiKey aiConfig) (ai_model aiConfig)
                                          (ai_temperature aiConfig)))).
Proof.
  intros H. unfold createTranslationFacade, createProvider. now rewrite H.
Qed.

Lemma translate_and_record_invalid (docRef : DocumentReference)
    (targetLanguage : string) (config : MelakaConfig)
    (collectionConfig : CollectionConfig) (options : ProcessOptions)
    (sc : SeparatedContent) (sourceHash : string) (w : World)
    (response : HttpResponse) (data : GeminiResponse)
    (textResponse : string) (parsed : Value) (issues : list ZodIssue) :
  let aiConfig := getEffectiveAIConfig config collectionConfig in
  let schema := createTranslationSchema (translatable sc) (detectedTypes sc) in
  let message := "Schema validation failed: " ++ ZodError_message (platform w) issues in
  ai_provider aiConfig = "gemini" ->
  (exists key, ai_apiKey aiConfig = Some key /\ key <> "") ->
  fetch_reply w = Return response ->
  resp_ok response = true ->
  resp_data response = Return data ->
  first_text data = Some textResponse ->
  textResponse <> "" ->
  fst (extractJsonFromResponse textResponse w) = Return parsed ->
  safeParse schema parsed = inr issues ->
  faults w = [] ->
  has_timestamp options (platform w) = true ->
  translate_and_record docRef targetLanguage config collectionConfig options
                       sc sourceHash w
  = (Return (mkResult false false (Some message)),
     after_mark docRef targetLanguage message (resolved_timestamp options w)
                (with_event EvFetch w)).
Proof.
  intros aiConfig schema message Hprov [key [Hkey Hne]] Hfetch Hok Hdata Htext
         Hnonempty Hextract Hparse Hfaults Hts.
  unfold translate_and_record. fold aiConfig schema.
  unfold bind at 1. unfold of_outcome.
  rewrite (createTranslationFacade_gemini aiConfig Hprov).
  unfold bind at 1. unfold facade_translate.
  cbn [facade_provider GeminiProvider provider_translate pc_apiKey pc_model].
  erewrite Gemini_translate_invalid; try eassumption.
  2:{ unfold Gemini_isConfigured. cbn [pc_apiKey]. rewrite Hkey.
      destruct (String.eqb_spec key ""); [contradiction | reflexivity]. }
  unfold bind at 1. rewrite resolve_timestamp_returns by exact Hts.
  cbn [response_rejected response_failure tr_success tr_output tr_error negb orb
       error_or_unknown].
  fold message.
  assert (Hmsg : String.eqb message "" = false) by reflexivity.
  rewrite Hmsg. unfold bind at 1.
  rewrite markTranslationFailed_ok.
  - reflexivity.
  - cbn. now rewrite Hfaults.
  - cbn. now rewrite Hfaults.
Qed.

(** C8 (amended).  When the reply of the model is extracted as JSON and
    the extracted value fails the validation against the synthesized
    schema, the gateway returns a failure whose error starts with
    [Schema validation failed], and the pipeline, the backends working,
    returns [{success: false, skipped: false, error}] and marks the
    record failed: the record's metadata has status [failed] and every
    other field of the record is what it was before, so nothing of the
    reply is persisted.  The backends working includes the timestamp of
    the marking being at hand. *)
Theorem schema_mismatch_is_rejected (docRef : DocumentReference)
    (docData : Obj) (targetLanguage : string) (config : MelakaConfig)
    (collectionConfig : CollectionConfig) (options : ProcessOptions)
    (w : World) (response : HttpResponse) (data : GeminiResponse)
    (textResponse : string) (parsed : Value) (issues : list ZodIssue) :
  let sc := separateContent docData (cc_fields collectionConfig) in
  let schema := createTranslationSchema (translatable sc) (detectedTypes sc) in
  let aiConfig := getEffectiveAIConfig config collectionConfig in
  let path := getI18nPath docRef targetLanguage in
  let message := "Schema validation failed: " ++ ZodError_message (platform w) issues in
  translatable sc <> [] ->
  (opt_true (po_forceUpdate options) = true \/
   ~ exists (translation metadata : Obj),
       obj_get (store w) path = Some translation /\
       obj_get translation "_melaka" = Some (VObj metadata) /\
       obj_get metadata "status" = Some (VStr "completed") /\
       obj_get metadata "source_hash" = Some (VStr (hashContent (translatable sc)))) ->
  ai_provider aiConfig = "gemini" ->
  (exists key, ai_apiKey aiConfig = Some key /\ key <> "") ->
  fetch_reply w = Return response ->
  resp_ok response = true ->
  resp_data response = Return data ->
  first_text data = Some textResponse ->
  textResponse <> "" ->
  fst (extractJsonFromResponse textResponse w) = Return parsed ->
  safeParse schema parsed = inr issues ->
  faults w = [] ->
  has_timestamp options (platform w) = true ->
  exists (facade : TranslationFacade) (w' : World) (record : Obj),
    createTranslationFacade aiConfig = Return facade /\
    (forall topts,
       fst (facade_translate facade (translatable sc) schema topts w)
       = Return (response_failure message)) /\
    processTranslation docRef docData targetLanguage config collectionConfig
                       options w
    = (Return (mkResult false false (Some message)), w') /\
    obj_get (store w') path = Some record /\
    js_prop (js_prop (VObj record) "_melaka") "status" = VStr "failed" /\
    js_prop (js_prop (VObj record) "_melaka") "error" = VStr message /\
    (forall k, k <> "_melaka" ->
               obj_get record k
               = match obj_get (store w) path with
                 | Some existing => obj_get existing k
                 | None => None
                 end) /\
    (forall p, p <> path -> obj_get (store w') p = obj_get (store w) p).
Proof.
  intros sc schema aiConfig path message Hsc Hcheck Hprov Hkey Hfetch Hok Hdata
         Htext Hnonempty Hextract Hparse Hfaults Hts.
  assert (Hgw : forall w1, platform w1 = platform w -> fetch_reply w1 = fetch_reply w ->
                 faults w1 = [] -> store w1 = store w ->
                 timestamp_now w1 = timestamp_now w ->
                 exists w',
                   translate_and_record docRef targetLanguage config collectionConfig
                     options sc (hashContent (translatable sc)) w1
                   = (Return (mkResult false false (Some message)), w') /\
                   store w' = obj_set (store w) path
                                (marked_failed (obj_get (store w) path) message
                                               (resolved_timestamp options w))).
  { intros w1 Hp Hf Hfl Hst Hclock.
    eexists. split.
    - unfold message. rewrite <- Hp.
      eapply translate_and_record_invalid; try eassumption.
      + now rewrite Hf.
      + rewrite <- Hextract. now apply extractJsonFromResponse_platform.
      + now rewrite Hp.
    - unfold after_mark. cbn [store with_event]. fold path.
      replace (resolved_timestamp options w1) with (resolved_timestamp options w)
        by (unfold resolved_timestamp; now rewrite Hclock).
      rewrite Hp. fold message.
      change (store (with_event EvFetch w1)) with (store w1). rewrite Hst.
      destruct (obj_get (store w) path); reflexivity. }
  assert (Hrun : exists w',
             processTranslation docRef docData targetLanguage config
               collectionConfig options w
             = (Return (mkResult false false (Some message)), w') /\
             store w' = obj_set (store w) path
                          (marked_failed (obj_get (store w) path) message
                                         (resolved_timestamp options w))).
  { unfold processTranslation, try_catch, processTranslation_try. fold sc.
    assert (Hlen : (Z.of_nat (length (Object_keys (translatable sc))) =? 0) = false).
    { destruct (translatable sc); [contradiction | reflexivity]. }
    rewrite Hlen. unfold bind at 1.
    destruct (opt_true (po_forceUpdate options)) eqn:Eforce; cbn [negb].
    - unfold ret at 1.
      destruct (Hgw w eq_refl eq_refl Hfaults eq_refl eq_refl) as [w' [E S]].
      rewrite E. now exists w'.
    - destruct Hcheck as [Hforced | Hstale]; [discriminate|].
      unfold bind at 1.
      rewrite readMelakaMetadata_ok by now rewrite Hfaults.
      fold path.
      assert (Hw1 : exists w',
                translate_and_record docRef targetLanguage config collectionConfig
                  options sc (hashContent (translatable sc))
                  (called (EvGet path) w)
                = (Return (mkResult false false (Some message)), w') /\
                store w' = obj_set (store w) path
                             (marked_failed (obj_get (store w) path) message
                                            (resolved_timestamp options w))).
      { apply Hgw; try reflexivity. cbn. now rewrite Hfaults. }
      destruct Hw1 as [w' [E S]].
      destruct (obj_get (store w) path) as [t|] eqn:Et.
      + destruct (truthy (js_prop (VObj t) "_melaka")) eqn:Etr.
        * unfold ret at 1.
          destruct (strict_eq_string _ _ && strict_eq_string _ _) eqn:Ecur.
          -- exfalso. apply Hstale.
             apply metadata_is_current in Ecur as [metadata [Emd [H1 H2]]].
             exists t, metadata. repeat split; try assumption.
             cbn in Emd. destruct (obj_get t "_melaka"); [now subst | discriminate].
          -- rewrite E. now exists w'.
        * unfold ret at 1. rewrite E. now exists w'.
      + unfold ret at 1. rewrite E. now exists w'. }
  destruct Hrun as [w' [Erun Hstore]].
  destruct Hkey as [key [Hkey Hkne]].
  eexists. exists w'.
  exists (marked_failed (obj_get (store w) path) message (resolved_timestamp options w)).
  split; [apply createTranslationFacade_gemini; exact Hprov|].
  split.
  { intros topts. unfold facade_translate.
    cbn [facade_provider GeminiProvider provider_translate pc_apiKey pc_model].
    erewrite Gemini_translate_invalid; try eassumption; [reflexivity|].
    unfold Gemini_isConfigured. cbn [pc_apiKey]. fold aiConfig. rewrite Hkey.
    destruct (String.eqb_spec key ""); [contradiction | reflexivity]. }
  split; [exact Erun|].
  split; [rewrite Hstore; apply obj_get_set_same|].
  split; [apply marked_failed_status|].
  split; [apply marked_failed_status|].
  split; [intros k Hk; now apply marked_failed_content|].
  intros p Hp. rewrite Hstore. apply obj_get_set_other. congruence.
Qed.

(** ** The scenario *)

Section ScenarioFacts.
Import Scenario.

Lemma isTranslationCurrent_iff_witness :
  exists (b : bool) (w' : World),
    isTranslationCurrent article "ms-MY" (hashContent [("title", VStr "Hello")])
      (world [("articles/a1/i18n/ms-MY", currentRecord)] [] (replyWith ""))
    = (Return b, w') /\
    store w' = [("articles/a1/i18n/ms-MY", currentRecord)] /\
    (b = true <->
     exists (translation metadata : Obj),
       obj_get [("articles/a1/i18n/ms-MY", currentRecord)]
               (getI18nPath article "ms-MY") = Some translation /\
       obj_get translation "_melaka" = Some (VObj metadata) /\
       obj_get metadata "status" = Some (VStr "completed") /\
       obj_get metadata "source_hash"
       = Some (VStr (hashContent [("title", VStr "Hello")]))).
Proof.
  apply (isTranslationCurrent_iff article "ms-MY"
           (hashContent [("title", VStr "Hello")])
           (world [("articles/a1/i18n/ms-MY", currentRecord)] [] (replyWith ""))).
  reflexivity.
Defined.

(** The record of the scenario is current for the content it was made
    from; it is not for another hash, nor when it is marked failed, nor
    when there is no record. *)
Example isTranslationCurrent_cases :
  let h := hashContent [("title", VStr "Hello")] in
  let failedRecord := marked_failed (Some currentRecord) "boom" now in
  fst (isTranslationCurrent article "ms-MY" h
         (world [("articles/a1/i18n/ms-MY", currentRecord)] [] (replyWith "")))
  = Return true /\
  fst (isTranslationCurrent article "ms-MY" (hashContent [("title", VStr "Bye")])
         (world [("articles/a1/i18n/ms-MY", currentRecord)] [] (replyWith "")))
  = Return false /\
  fst (isTranslationCurrent article "ms-MY" h
         (world [("articles/a1/i18n/ms-MY", failedRecord)] [] (replyWith "")))
  = Return false /\
  fst (isTranslationCurrent article "ms-MY" h (world [] [] (replyWith "")))
  = Return false.
Proof.
  intros h failedRecord.
  split; [vm_compute; reflexivity|].
  split; [vm_compute; reflexivity|].
  split; vm_compute; reflexivity.
Qed.

Lemma processTranslation_skips_empty_witness :
  processTranslation article [("views", VNum 10); ("_melaka", VObj [])] "ms-MY"
                     melakaConfig articles noOptions
                     (world [] [Some "UNAVAILABLE"] (replyWith ""))
  = (Return (mkResult true true None),
     world [] [Some "UNAVAILABLE"] (replyWith "")).
Proof.
  apply (processTranslation_skips_empty article
           [("views", VNum 10); ("_melaka", VObj [])] "ms-MY" melakaConfig
           articles noOptions (world [] [Some "UNAVAILABLE"] (replyWith ""))).
  reflexivity.
Defined.


(** The reply [{title: 5}] fails the validation: the pipeline returns the
    failure and marks the record. *)
Lemma schema_mismatch_is_rejected_witness :
  let w := world [] [] (replyWith (text_of replyMistyped)) in
  exists (w' : World) (record : Obj),
    processTranslation article articleData "ms-MY" melakaConfig articles
                       noOptions w
    = (Return (mkResult false false
                 (Some "Schema validation failed: invalid_type at title")), w') /\
    obj_get (store w') "articles/a1/i18n/ms-MY" = Some record /\
    js_prop (js_prop (VObj record) "_melaka") "status" = VStr "failed" /\
    obj_get record "title" = None.
Proof.
  intros w.
  destruct (schema_mismatch_is_rejected article articleData "ms-MY" melakaConfig
              articles noOptions w
              (mkHttpResponse true 200 (Return (VObj []))
                 (Return (mkGeminiResponse
                            (Some [mkCandidate
                                     (Some (mkContent
                                              (Some [mkPart (Some (text_of replyMistyped))])))])
                            None)))
              (mkGeminiResponse
                 (Some [mkCandidate
                          (Some (mkContent
                                   (Some [mkPart (Some (text_of replyMistyped))])))])
                 None)
              (text_of replyMistyped) (VObj replyMistyped)
              [mkIssue "invalid_type" ["title"]])
    as [facade [w' [record [_ [_ [E [Hrec [Hst [_ [Hcontent _]]]]]]]]]].
  - discriminate.
  - right. intros [translation [metadata [H _]]]. discriminate H.
  - reflexivity.
  - exists "test-key". split; [reflexivity | discriminate].
  - reflexivity.
  - reflexivity.
  - reflexivity.
  - reflexivity.
  - discriminate.
  - vm_compute. reflexivity.
  - vm_compute. reflexivity.
  - reflexivity.
  - reflexivity.
  - exists w', record. split; [exact E|]. split; [exact Hrec|].
    split; [exact Hst|]. apply Hcontent. discriminate.
Defined.

(** What the validation does with the three replies: a reply with a
    field the schema does not have passes, that field removed. *)
Example safeParse_replies :
  let sc := separateContent articleData None in
  let schema := createTranslationSchema (translatable sc) (detectedTypes sc) in
  schema = ZObject [("title", ZString)] strip /\
  safeParse schema (VObj replyExact) = inl (VObj [("title", VStr "Halo")]) /\
  safeParse schema (VObj replyExtra) = inl (VObj [("title", VStr "Halo")]) /\
  safeParse schema (VObj replyMistyped) = inr [mkIssue "invalid_type" ["title"]] /\
  safeParse schema (VObj []) = inr [mkIssue "invalid_type" ["title"]].
Proof. repeat split. Qed.

(** C8, as stated, fails: the reply [{title: 'Halo', extra: 'x'}] has a
    field that the synthesized schema does not have; the gateway returns a
    success whose output is the reply without that field, and the pipeline
    writes a completed record with the translated title. *)
Lemma extra_field_reply_is_accepted :
  let w := world [] [] (replyWith (text_of replyExtra)) in
  let sc := separateContent articleData None in
  let schema := createTranslationSchema (translatable sc) (detectedTypes sc) in
  obj_has replyExtra "extra" = true /\
  schema = ZObject [("title", ZString)] strip /\
  fst (Gemini_translate (mkProviderConfig (Some "test-key") "gemini-2.5-flash" None)
         (translatable sc) schema
         (mkTranslationOptions "ms-MY" None None None) w)
  = Return (mkResponse true (Some (VObj [("title", VStr "Halo")])) None None) /\
  fst (processTranslation article articleData "ms-MY" melakaConfig articles
                          noOptions w)
  = Return (mkResult true false None) /\
  exists record,
    obj_get (store (snd (processTranslation article articleData "ms-MY"
                           melakaConfig articles noOptions w)))
            "articles/a1/i18n/ms-MY" = Some record /\
    obj_get record "title" = Some (VStr "Halo") /\
    js_prop (js_prop (VObj record) "_melaka") "status" = VStr "completed".
Proof.
  intros w sc schema.
  split; [reflexivity|]. split; [reflexivity|].
  split; [vm_compute; reflexivity|].
  split; [vm_compute; reflexivity|].
  eexists. split; [vm_compute; reflexivity|].
  split; reflexivity.
Qed.

(** C3, as stated, fails: with the default stagger of 100 ms the three
    tasks are scheduled with delays 0, 0, 0 seconds, not 0, 100, 200 (nor
    0, 0.1, 0.2). *)
Lemma enqueue_default_stagger_delays :
  let options := mkEnqueueOptions transport_queue None in
  let run := enqueueDocumentTranslation "articles" "a1" melakaConfig articles
               options (world [] [] (replyWith "")) in
  staggerDelay_of options = 100 /\
  delays (log (snd run)) = [0; 0; 0] /\
  delays (log (snd run)) <> [0 * 100; 1 * 100; 2 * 100] /\
  batchIds (log (snd run))
  = ["batch_1708972800000_a1b2c3"; "batch_1708972800000_a1b2c3";
     "batch_1708972800000_a1b2c3"].
Proof.
  intros options run.
  split; [reflexivity|].
  split; [vm_compute; reflexivity|].
  split; [vm_compute; discriminate|].
  vm_compute. reflexivity.
Qed.

Lemma enqueueDocumentTranslation_tasks_witness :
  let options := mkEnqueueOptions transport_queue (Some 1500) in
  let w := world [] [] (replyWith "") in
  exists (r : EnqueueResult) (w' : World) (tasks : list Event),
    enqueueDocumentTranslation "articles" "a1" melakaConfig articles options w
    = (Return r, w') /\
    log w' = tasks /\
    nth_error tasks 2
    = Some (EvEnqueue (mkPayload "articles" "a1" "ja-JP" articles
                                 "batch_1708972800000_a1b2c3") 3).
Proof.
  intros options w.
  destruct (enqueueDocumentTranslation_tasks "articles" "a1" melakaConfig
              articles (Some 1500) w) as [r [w' [tasks [E [Hb [L [_ H]]]]]]].
  exists r, w', tasks. split; [exact E|]. split; [exact L|].
  rewrite (H 2%nat "ja-JP" eq_refl), Hb. reflexivity.
Defined.

(** Scenario C of the specification with a stagger of one second: delays
    0, 1, 2. *)
Example enqueue_one_second_stagger :
  let run := enqueueDocumentTranslation "articles" "a1" melakaConfig articles
               (mkEnqueueOptions transport_queue (Some 1000))
               (world [] [] (replyWith "")) in
  delays (log (snd run)) = [0; 1; 2].
Proof. vm_compute. reflexivity. Qed.

(** The transport fails on the second of three tasks: the third is
    enqueued all the same, and the failure is counted and reported. *)
Example enqueue_with_a_failure :
  let run := enqueueDocumentTranslation "articles" "a1" melakaConfig articles
               (mkEnqueueOptions transport_queue None)
               (world [] [None; Some "DEADLINE_EXCEEDED"] (replyWith "")) in
  fst run = Return (mkEnqueueResult "batch_1708972800000_a1b2c3" 2 1
                      ["Failed to enqueue a1/zh-CN: DEADLINE_EXCEEDED"]) /\
  length (delays (log (snd run))) = 3%nat.
Proof. split; vm_compute; reflexivity. Qed.

(** The transport fails on the second of three tasks: the third call is
    made all the same; two tasks are counted as enqueued, one as failed,
    with its message. *)
Lemma enqueueDocumentTranslation_counts_witness :
  let w := world [] [None; Some "DEADLINE_EXCEEDED"] (replyWith "") in
  exists (r : EnqueueResult) (w' : World),
    enqueueDocumentTranslation "articles" "a1" melakaConfig articles
      (mkEnqueueOptions transport_queue None) w = (Return r, w') /\
    tasksEnqueued r = 2 /\ er_failed r = 1 /\
    errors r = ["Failed to enqueue a1/zh-CN: DEADLINE_EXCEEDED"] /\
    length (delays (log w')) = 3%nat.
Proof.
  intros w.
  destruct (enqueueDocumentTranslation_counts "articles" "a1" melakaConfig articles
              (mkEnqueueOptions transport_queue None) w)
    as [r [w' [outcomes [E [O [_ [T [F [_ [M _]]]]]]]]]].
  vm_compute in O. inversion O; subst outcomes w'. clear O.
  exists r. eexists. split; [exact E|].
  split; [exact T|]. split; [exact F|]. split; [exact M | reflexivity].
Defined.

End ScenarioFacts.

(* ================================================================== *)
(** * Further properties of the sources *)
(* ================================================================== *)

(** ** Classification *)

(** X1.  A value is classified as translatable exactly when it is a
    string, an empty array, or an array whose first item is a string, a
    boolean, [null] or [undefined]; the other items of an array play no
    part. *)
Theorem detectFieldType_translatable_iff (value : Value) :
  isTranslatableType (detectFieldType value) = true <->
  match value with
  | VStr _ => True
  | VArr [] => True
  | VArr ((VStr _ | VBool _ | VNull | VUndef) :: _) => True
  | _ => False
  end.
Proof.
  assert (T : true = true <-> True) by tauto.
  assert (F : false = true <-> False) by (split; [discriminate | tauto]).
  unfold detectFieldType.
  destruct value as [| |b|n|s|items|props];
    try destruct items as [|first rest];
    try destruct first as [| |b|n|s|l|o];
    cbn -[obj_get];
    repeat match goal with
           | |- context [if ?c then _ else _] => destruct c; cbn -[obj_get]
           end;
    assumption.
Qed.

Section Classification.
Variable fields : option (list string).

Lemma separateContent_translatable_filter (doc : Obj) :
  NoDup (Object_keys doc) ->
  translatable (separateContent doc fields)
  = filter (fun entry =>
              negb (String.eqb (fst entry) "_melaka") &&
              negb (String.eqb (fst entry) "__proto__") &&
              match fields with Some fs => includes fs (fst entry) | None => true end &&
              isTranslatableType (detectFieldType (snd entry))) doc.
Proof.
  intros Hnd. exact (proj1 (separateContent_filters fields doc Hnd)).
Qed.

Lemma filter_obj_get (p : string * Value -> bool) (doc : Obj) (k : string) (v : Value) :
  NoDup (Object_keys doc) ->
  (obj_get (filter p doc) k = Some v <-> obj_get doc k = Some v /\ p (k, v) = true).
Proof.
  intros Hnd. split.
  - intros H. apply obj_get_Some_In in H. apply filter_In in H as [I P].
    split; [now apply obj_get_In | exact P].
  - intros [H P]. apply obj_get_In; [now apply filter_keys_NoDup|].
    apply filter_In. split; [now apply obj_get_Some_In | exact P].
Qed.

(** X2.  A field of a document is translatable content exactly when it is
    neither the reserved field [_melaka] nor named [__proto__], it is in
    the list of fields when there is one, and its value is classified as
    a string or a string array; a field left out of the list is never
    translated, whatever its type. *)
Theorem separateContent_translatable_iff (doc : Obj) (k : string) (v : Value) :
  NoDup (Object_keys doc) ->
  (obj_get (translatable (separateContent doc fields)) k = Some v <->
   obj_get doc k = Some v /\
   k <> "_melaka" /\
   k <> "__proto__" /\
   match fields with Some fs => includes fs k = true | None => True end /\
   isTranslatableType (detectFieldType v) = true).
Proof.
  intros Hnd. rewrite (separateContent_translatable_filter doc Hnd).
  rewrite (filter_obj_get _ doc k v Hnd). cbn [fst snd].
  rewrite !andb_true_iff, !negb_true_iff.
  destruct (String.eqb_spec k "_melaka") as [E|N].
  - split; [intros [_ [[[X _] _] _]]; discriminate X
           | intros [_ [X _]]; contradiction].
  - destruct (String.eqb_spec k "__proto__") as [E'|N'].
    + split; [intros [_ [[[_ X] _] _]]; discriminate X
             | intros [_ [_ [X _]]]; contradiction].
    + destruct fields as [fs|]; tauto.
Qed.

End Classification.

Lemma separateContent_translatable_iff_witness :
  obj_get (translatable
             (separateContent [("title", VStr "Hello"); ("body", VStr "World")]
                              (Some ["title"]))) "body" = Some (VStr "World")
  <-> (obj_get [("title", VStr "Hello"); ("body", VStr "World")] "body"
       = Some (VStr "World") /\
       "body" <> "_melaka" /\
       "body" <> "__proto__" /\
       includes ["title"] "body" = true /\
       isTranslatableType (detectFieldType (VStr "World")) = true).
Proof.
  apply (separateContent_translatable_iff (Some ["title"])
           [("title", VStr "Hello"); ("body", VStr "World")] "body" (VStr "World")).
  repeat constructor; simpl; intuition discriminate.
Defined.

(** ** Glossaries and spreads *)

(** In [{...a, ...b}] a property of [b] wins over the one of [a]. *)
Lemma obj_get_spread {A : Type} (b : list (string * A)) :
  forall (a : list (string * A)) (k : string),
    NoDup (Object_keys b) ->
    obj_get (obj_spread a b) k
    = match obj_get b k with
      | Some v => Some v
      | None => obj_get a k
      end.
Proof.
  unfold obj_spread.
  induction b as [|[k' v'] rest IH]; intros a k Hnd; [reflexivity|].
  inversion Hnd as [|? ? Hnotin Hnd']; subst.
  cbn [fold_left fst snd obj_get]. rewrite (IH _ k Hnd').
  destruct (String.eqb_spec k' k) as [->|Hne].
  - apply obj_get_None_not_In in Hnotin. rewrite Hnotin.
    apply obj_get_set_same.
  - now rewrite obj_get_set_other.
Qed.

(** X3.  In the merged glossary a term of the collection's glossary has
    the collection's translation, and any other term has the shared
    one. *)
Theorem mergeGlossaries_precedence (shared collection : Glossary) (term : string) :
  NoDup (Object_keys collection) ->
  obj_get (mergeGlossaries (Some shared) (Some collection)) term
  = match obj_get collection term with
    | Some t => Some t
    | None => obj_get shared term
    end.
Proof.
  intros Hnd. unfold mergeGlossaries. now apply obj_get_spread.
Qed.

Lemma mergeGlossaries_precedence_witness :
  obj_get (mergeGlossaries (Some [("cart", "keranjang"); ("checkout", "checkout")])
                           (Some [("cart", "troli")])) "cart"
  = match obj_get [("cart", "troli")] "cart" with
    | Some t => Some t
    | None => obj_get [("cart", "keranjang"); ("checkout", "checkout")] "cart"
    end.
Proof.
  apply (mergeGlossaries_precedence
           [("cart", "keranjang"); ("checkout", "checkout")] [("cart", "troli")] "cart").
  repeat constructor; simpl; intuition discriminate.
Defined.

(** ** Schemas from field mappings *)

Lemma mappings_fold_filter (fieldMappings : list FieldMapping) :
  forall acc : list (string * ZodSchema),
    fold_left
      (fun acc mapping =>
         let t := mapping_type mapping in
         if negb (translatableTypes_includes t) then acc
         else obj_assign acc (mapping_target mapping)
                      (createFieldSchema t (mapping_required mapping)))
      fieldMappings acc
    = fold_left
        (fun acc mapping =>
           obj_assign acc (mapping_target mapping)
                   (createFieldSchema (mapping_type mapping)
                                      (mapping_required mapping)))
        (filter (fun m => translatableTypes_includes (mapping_type m)) fieldMappings)
        acc.
Proof.
  induction fieldMappings as [|m rest IH]; intros acc; [reflexivity|].
  cbn [fold_left filter].
  destruct (translatableTypes_includes (mapping_type m)); cbn [negb fold_left];
    apply IH.
Qed.

(** X4.  The schema of the translatable fields of a list of mappings is
    the schema of the mappings whose type is [string] or [string[]] (a
    mapping without a type is a string): the other mappings leave no
    trace, not even when they share their target name with a translatable
    one. *)
Theorem createTranslatableSchemaFromMappings_filter (fieldMappings : list FieldMapping) :
  createTranslatableSchemaFromMappings fieldMappings
  = createSchemaFromMappings
      (filter (fun m => translatableTypes_includes (mapping_type m)) fieldMappings).
Proof.
  unfold createTranslatableSchemaFromMappings, createSchemaFromMappings.
  now rewrite mappings_fold_filter.
Qed.

(** ** Paths *)

Lemma split_path_nonempty (s : string) : split_path s <> [].
Proof.
  destruct s as [|c s]; cbn; [discriminate|].
  destruct (is_slash c); [discriminate|].
  destruct (split_path s); discriminate.
Qed.

Lemma join_split_path (s : string) : join "/" (split_path s) = s.
Proof.
  induction s as [|c s IH]; [reflexivity|].
  cbn [split_path]. destruct (is_slash c) eqn:E.
  - unfold is_slash in E. apply Ascii.eqb_eq in E. subst c.
    pose proof (split_path_nonempty s) as N.
    destruct (split_path s) as [|seg segs]; [contradiction|].
    cbn [join]. cbn. now rewrite <- IH.
  - pose proof (split_path_nonempty s) as N.
    destruct (split_path s) as [|seg segs]; [contradiction|].
    rewrite <- IH. destruct segs; reflexivity.
Qed.

Lemma split_path_no_slash (id : string) :
  forallb (fun c => negb (is_slash c)) (list_ascii_of_string id) = true ->
  split_path id = [id].
Proof.
  induction id as [|c id IH]; [reflexivity|].
  cbn. intros H. apply andb_true_iff in H as [Hc Hid].
  apply negb_true_iff in Hc. rewrite Hc, (IH Hid). reflexivity.
Qed.

Lemma split_path_app (a id : string) :
  forallb (fun c => negb (is_slash c)) (list_ascii_of_string id) = true ->
  split_path (a ++ "/" ++ id) = (split_path a ++ [id])%list.
Proof.
  intros H. induction a as [|c a IH].
  - cbn. now rewrite (split_path_no_slash id H).
  - cbn [append split_path] in *. rewrite IH.
    destruct (is_slash c); [reflexivity|].
    pose proof (split_path_nonempty a) as N.
    destruct (split_path a); [contradiction | reflexivity].
Qed.

Lemma doc_id_child (a id : string) :
  forallb (fun c => negb (is_slash c)) (list_ascii_of_string id) = true ->
  doc_id (a ++ "/" ++ id) = id.
Proof.
  intros H. unfold doc_id. rewrite (split_path_app a id H). apply last_last.
Qed.

Lemma doc_parent_child (a id : string) :
  forallb (fun c => negb (is_slash c)) (list_ascii_of_string id) = true ->
  doc_parent (a ++ "/" ++ id) = a.
Proof.
  intros H. unfold doc_parent. rewrite (split_path_app a id H).
  rewrite removelast_last. apply join_split_path.
Qed.

Lemma in_collection_child (a id : string) :
  locale_ok id = true -> in_collection a (a ++ "/" ++ id) = true.
Proof.
  unfold locale_ok, in_collection. intros H.
  apply andb_true_iff in H as [Hne Hns].
  rewrite (doc_id_child a id Hns), (doc_parent_child a id Hns), Hne.
  rewrite String.eqb_refl, (split_path_app a id Hns), length_app. cbn.
  pose proof (split_path_nonempty a) as N.
  destruct (split_path a); [contradiction|]. cbn.
  rewrite Nat.add_comm. reflexivity.
Qed.

Lemma string_app_assoc (a b c : string) : (a ++ b) ++ c = a ++ (b ++ c).
Proof.
  induction a as [|x a IH]; [reflexivity|]. cbn. now rewrite IH.
Qed.

Lemma join_last (l : list string) (x : string) :
  l <> [] -> join "/" (l ++ [x]) = join "/" l ++ "/" ++ x.
Proof.
  induction l as [|y l IH]; [contradiction|]. intros _.
  destruct l as [|z l].
  - reflexivity.
  - change (join "/" ((y :: z :: l) ++ [x]))
      with (y ++ "/" ++ join "/" ((z :: l) ++ [x])).
    rewrite IH by discriminate.
    change (join "/" (y :: z :: l)) with (y ++ "/" ++ join "/" (z :: l)).
    rewrite !string_app_assoc. reflexivity.
Qed.

(** A document of a collection is at the path of the collection followed
    by its identifier. *)
Lemma in_collection_path (a p : string) :
  in_collection a p = true -> p = a ++ "/" ++ doc_id p.
Proof.
  unfold in_collection, doc_parent, doc_id. intros H.
  apply andb_true_iff in H as [H Hlen]. apply andb_true_iff in H as [Hp _].
  apply String.eqb_eq in Hp. apply Nat.ltb_lt in Hlen.
  destruct (split_path p) as [|s0 l] eqn:E using rev_ind; [cbn in Hlen; lia|].
  rewrite removelast_last in Hp. rewrite last_last.
  rewrite <- Hp, <- join_last.
  - rewrite <- E. symmetry. apply join_split_path.
  - intros ->. cbn in Hlen. lia.
Qed.

(** ** The record store: write, mark, update, delete *)

Lemma store_remove_get_same (s : list (string * Obj)) (p : string) :
  obj_get (store_remove s p) p = None.
Proof.
  induction s as [|[p' d] rest IH]; [reflexivity|]. cbn [store_remove].
  destruct (String.eqb p' p) eqn:E; [exact IH|].
  cbn [obj_get]. now rewrite E.
Qed.

Lemma store_remove_get_other (s : list (string * Obj)) (p p' : string) :
  p <> p' -> obj_get (store_remove s p) p' = obj_get s p'.
Proof.
  intros Hne. induction s as [|[p0 d] rest IH]; [reflexivity|].
  cbn [store_remove obj_get].
  destruct (String.eqb_spec p0 p) as [->|Hp].
  - destruct (String.eqb_spec p p'); [contradiction | exact IH].
  - cbn [obj_get]. destruct (String.eqb p0 p'); [reflexivity | exact IH].
Qed.

Lemma obj_set_set_same {A : Type} (o : list (string * A)) (k : string) (v v' : A) :
  obj_set (obj_set o k v) k v' = obj_set o k v'.
Proof.
  induction o as [|[k0 v0] rest IH]; cbn.
  - now rewrite String.eqb_refl.
  - destruct (String.eqb k0 k) eqn:E; cbn; rewrite E; [reflexivity | now rewrite IH].
Qed.

Lemma writeTranslation_ok (docRef : DocumentReference) (locale : string)
    (translatedContent nonTranslatableContent : Obj) (metadata : MelakaMetadata)
    (w : World) :
  hd None (faults w) = None ->
  writeTranslation docRef locale translatedContent nonTranslatableContent metadata w
  = (Return tt,
     with_store (obj_set (store w) (getI18nPath docRef locale)
                   (final_record translatedContent nonTranslatableContent metadata))
       (called (EvSet (getI18nPath docRef locale)
                  (final_record translatedContent nonTranslatableContent metadata)) w)).
Proof.
  intros H. unfold writeTranslation, ref_set.
  rewrite (backend_call_ok _ _ _ H). reflexivity.
Qed.

Lemma final_record_get (translatedContent nonTranslatableContent : Obj)
    (metadata : MelakaMetadata) (k : string) :
  NoDup (Object_keys translatedContent) ->
  NoDup (Object_keys nonTranslatableContent) ->
  obj_get (final_record translatedContent nonTranslatableContent metadata) k
  = if String.eqb k "_melaka" then Some (metadata_value metadata)
    else match obj_get nonTranslatableContent k with
         | Some v => Some v
         | None => obj_get translatedContent k
         end.
Proof.
  intros HT HN. unfold final_record.
  destruct (String.eqb_spec k "_melaka") as [->|Hne].
  - apply obj_get_set_same.
  - rewrite obj_get_set_other by congruence.
    rewrite (obj_get_spread _ _ k HN), (obj_get_spread _ _ k HT).
    destruct (obj_get nonTranslatableContent k); [reflexivity|].
    destruct (obj_get translatedContent k); reflexivity.
Qed.

(** X5.  [writeTranslation] replaces the record: after a write that goes
    through, the record holds the given metadata under [_melaka], the
    copied fields, and the translated fields that no copied field
    shadows, and nothing else, whatever the record held before; the other
    documents are untouched. *)
Theorem writeTranslation_replaces (docRef : DocumentReference) (locale : string)
    (translatedContent nonTranslatableContent : Obj) (metadata : MelakaMetadata)
    (w : World) :
  hd None (faults w) = None ->
  NoDup (Object_keys translatedContent) ->
  NoDup (Object_keys nonTranslatableContent) ->
  exists (w' : World) (record : Obj),
    writeTranslation docRef locale translatedContent nonTranslatableContent
                     metadata w = (Return tt, w') /\
    obj_get (store w') (getI18nPath docRef locale) = Some record /\
    (forall k,
       obj_get record k
       = if String.eqb k "_melaka" then Some (metadata_value metadata)
         else match obj_get nonTranslatableContent k with
              | Some v => Some v
              | None => obj_get translatedContent k
              end) /\
    (forall p, p <> getI18nPath docRef locale ->
               obj_get (store w') p = obj_get (store w) p).
Proof.
  intros Hf HT HN. rewrite (writeTranslation_ok _ _ _ _ _ _ Hf).
  eexists; eexists; split; [reflexivity|]. cbn [store with_store].
  split; [apply obj_get_set_same|]. split.
  - intros k. now apply final_record_get.
  - intros p Hp. apply obj_get_set_other. congruence.
Qed.

Lemma metadata_value_current (metadata : MelakaMetadata) (h : string) :
  strict_eq_string (js_prop (metadata_value metadata) "status") "completed" &&
  strict_eq_string (js_prop (metadata_value metadata) "source_hash") h
  = match status metadata with
    | completed => String.eqb (source_hash metadata) h
    | _ => false
    end.
Proof.
  destruct metadata as [sh ta mo st re]. cbn.
  destruct st; reflexivity.
Qed.

(** X6.  Round trip of a record: after [writeTranslation],
    [isTranslationCurrent] answers [true] for a hash exactly when the
    metadata written has status [completed] and that hash. *)
Theorem writeTranslation_then_isTranslationCurrent (docRef : DocumentReference)
    (locale : string) (translatedContent nonTranslatableContent : Obj)
    (metadata : MelakaMetadata) (sourceHash : string) (w : World) :
  hd None (faults w) = None ->
  hd None (tl (faults w)) = None ->
  exists (w1 w2 : World),
    writeTranslation docRef locale translatedContent nonTranslatableContent
                     metadata w = (Return tt, w1) /\
    isTranslationCurrent docRef locale sourceHash w1
    = (Return match status metadata with
              | completed => String.eqb (source_hash metadata) sourceHash
              | _ => false
              end, w2).
Proof.
  intros H1 H2. rewrite (writeTranslation_ok _ _ _ _ _ _ H1).
  eexists; eexists; split; [reflexivity|].
  unfold isTranslationCurrent, bind.
  rewrite readMelakaMetadata_ok by exact H2.
  cbn [store with_store]. rewrite obj_get_set_same.
  assert (E : js_prop (VObj (final_record translatedContent nonTranslatableContent
                                          metadata)) "_melaka"
              = metadata_value metadata).
  { unfold final_record. cbn [js_prop]. now rewrite obj_get_set_same. }
  rewrite E. cbn [truthy metadata_value].
  change (VObj [("source_hash", VStr (source_hash metadata));
                ("translated_at", translated_at metadata);
                ("model", VStr (model metadata));
                ("status", VStr (status_string (status metadata)));
                ("reviewed", VBool (reviewed metadata))])
    with (metadata_value metadata).
  unfold ret. rewrite metadata_value_current. reflexivity.
Qed.

Lemma writeTranslation_then_isTranslationCurrent_witness :
  exists (w1 w2 : World),
    writeTranslation Scenario.article "ms-MY" [("title", VStr "Halo")]
      [("views", VNum 10)]
      (mkMetadata "h1" Scenario.now "gemini-2.5-flash" completed false)
      (Scenario.world [] [] (Scenario.replyWith "")) = (Return tt, w1) /\
    isTranslationCurrent Scenario.article "ms-MY" "h1" w1 = (Return true, w2).
Proof.
  apply (writeTranslation_then_isTranslationCurrent Scenario.article "ms-MY"
           [("title", VStr "Halo")] [("views", VNum 10)]
           (mkMetadata "h1" Scenario.now "gemini-2.5-flash" completed false) "h1"
           (Scenario.world [] [] (Scenario.replyWith ""))); reflexivity.
Defined.

Lemma writeTranslation_replaces_witness :
  exists (w' : World) (record : Obj),
    writeTranslation Scenario.article "ms-MY" [("title", VStr "Halo")]
      [("views", VNum 10)]
      (mkMetadata "h1" Scenario.now "gemini-2.5-flash" completed false)
      (Scenario.world [("articles/a1/i18n/ms-MY", [("subtitle", VStr "lama")])] []
                      (Scenario.replyWith "")) = (Return tt, w') /\
    obj_get (store w') "articles/a1/i18n/ms-MY" = Some record /\
    obj_get record "subtitle" = None /\
    obj_get record "title" = Some (VStr "Halo").
Proof.
  destruct (writeTranslation_replaces Scenario.article "ms-MY"
              [("title", VStr "Halo")] [("views", VNum 10)]
              (mkMetadata "h1" Scenario.now "gemini-2.5-flash" completed false)
              (Scenario.world [("articles/a1/i18n/ms-MY", [("subtitle", VStr "lama")])]
                              [] (Scenario.replyWith "")))
    as [w' [record [E [G [F _]]]]].
  - reflexivity.
  - repeat constructor; simpl; intuition discriminate.
  - repeat constructor; simpl; intuition discriminate.
  - exists w', record. split; [exact E|]. split; [exact G|].
    split; [exact (F "subtitle") | exact (F "title")].
Defined.

(** X7.  A marking that goes through leaves a record whose metadata has
    status [failed] and the error; the content of an existing record is
    kept, a record that did not exist holds the metadata only; the other
    documents are untouched. *)
Theorem markTranslationFailed_keeps_content (docRef : DocumentReference)
    (locale error : string) (timestamp : Timestamp) (w : World) :
  hd None (faults w) = None ->
  hd None (tl (faults w)) = None ->
  exists (w' : World) (record : Obj),
    markTranslationFailed docRef locale error timestamp w = (Return tt, w') /\
    obj_get (store w') (getI18nPath docRef locale) = Some record /\
    js_prop (js_prop (VObj record) "_melaka") "status" = VStr "failed" /\
    js_prop (js_prop (VObj record) "_melaka") "error" = VStr error /\
    (forall k, k <> "_melaka" ->
               obj_get record k
               = match obj_get (store w) (getI18nPath docRef locale) with
                 | Some existing => obj_get existing k
                 | None => None
                 end) /\
    (forall p, p <> getI18nPath docRef locale ->
               obj_get (store w') p = obj_get (store w) p).
Proof.
  intros H1 H2. rewrite (markTranslationFailed_ok _ _ _ _ _ H1 H2).
  set (p := getI18nPath docRef locale).
  exists (after_mark docRef locale error timestamp w),
         (marked_failed (obj_get (store w) p) error timestamp).
  split; [reflexivity|].
  assert (S : store (after_mark docRef locale error timestamp w)
              = obj_set (store w) p
                        (marked_failed (obj_get (store w) p) error timestamp)).
  { unfold after_mark. fold p. destruct (obj_get (store w) p); reflexivity. }
  rewrite S.
  split; [apply obj_get_set_same|].
  split; [apply marked_failed_status|].
  split; [apply marked_failed_status|].
  split; [intros k Hk; now apply marked_failed_content|].
  intros q Hq. apply obj_get_set_other. congruence.
Qed.

Lemma markTranslationFailed_keeps_content_witness :
  exists (w' : World) (record : Obj),
    markTranslationFailed Scenario.article "ms-MY" "boom" Scenario.now
      (Scenario.world [("articles/a1/i18n/ms-MY", Scenario.currentRecord)] []
                      (Scenario.replyWith "")) = (Return tt, w') /\
    obj_get (store w') "articles/a1/i18n/ms-MY" = Some record /\
    obj_get record "title" = Some (VStr "Halo").
Proof.
  destruct (markTranslationFailed_keeps_content Scenario.article "ms-MY" "boom"
              Scenario.now
              (Scenario.world [("articles/a1/i18n/ms-MY", Scenario.currentRecord)] []
                              (Scenario.replyWith "")))
    as [w' [record [E [G [_ [_ [F _]]]]]]]; try reflexivity.
  exists w', record. split; [exact E|]. split; [exact G|].
  rewrite (F "title") by discriminate. reflexivity.
Defined.

(** X8.  After a marking, the record is current for no hash: a record
    marked failed is translated again by the next run, although the hash
    of its last translation is still stored. *)
Theorem markTranslationFailed_not_current (docRef : DocumentReference)
    (locale error : string) (timestamp : Timestamp) (sourceHash : string)
    (w : World) :
  hd None (faults w) = None ->
  hd None (tl (faults w)) = None ->
  hd None (tl (tl (faults w))) = None ->
  exists (w1 w2 : World),
    markTranslationFailed docRef locale error timestamp w = (Return tt, w1) /\
    isTranslationCurrent docRef locale sourceHash w1 = (Return false, w2).
Proof.
  intros H1 H2 H3. rewrite (markTranslationFailed_ok _ _ _ _ _ H1 H2).
  eexists; eexists; split; [reflexivity|].
  set (p := getI18nPath docRef locale).
  assert (S : store (after_mark docRef locale error timestamp w)
              = obj_set (store w) p
                        (marked_failed (obj_get (store w) p) error timestamp)).
  { unfold after_mark. fold p. destruct (obj_get (store w) p); reflexivity. }
  assert (Hf : hd None (faults (after_mark docRef locale error timestamp w)) = None).
  { unfold after_mark. fold p. destruct (obj_get (store w) p); exact H3. }
  unfold isTranslationCurrent, bind.
  rewrite (readMelakaMetadata_ok _ _ _ Hf). fold p. rewrite S, obj_get_set_same.
  destruct (marked_failed_status (obj_get (store w) p) error timestamp) as [Hst _].
  destruct (truthy _); [|reflexivity].
  cbv zeta in Hst. unfold ret. rewrite Hst. reflexivity.
Qed.

Lemma markTranslationFailed_not_current_witness :
  exists (w1 w2 : World),
    markTranslationFailed Scenario.article "ms-MY" "boom" Scenario.now
      (Scenario.world [("articles/a1/i18n/ms-MY", Scenario.currentRecord)] []
                      (Scenario.replyWith "")) = (Return tt, w1) /\
    isTranslationCurrent Scenario.article "ms-MY"
      (hashContent [("title", VStr "Hello")]) w1 = (Return false, w2).
Proof.
  apply (markTranslationFailed_not_current Scenario.article "ms-MY" "boom"
           Scenario.now (hashContent [("title", VStr "Hello")])
           (Scenario.world [("articles/a1/i18n/ms-MY", Scenario.currentRecord)] []
                           (Scenario.replyWith ""))); reflexivity.
Defined.

(** X9.  [updateMelakaMetadata] on a record that does not exist throws
    and writes nothing: unlike [markTranslationFailed], it creates no
    record. *)
Theorem updateMelakaMetadata_missing (docRef : DocumentReference)
    (locale : string) (metadata : Obj) (w : World) :
  metadata <> [] ->
  obj_get (store w) (getI18nPath docRef locale) = None ->
  exists (e : string) (w' : World),
    updateMelakaMetadata docRef locale metadata w = (Throw e, w') /\
    store w' = store w.
Proof.
  intros _ Hnone. unfold updateMelakaMetadata, ref_update, backend_call.
  cbn [getI18nRef ref_path]. unfold getI18nPath in Hnone.
  destruct w as [p s f r c t e l]. cbn in *.
  destruct f as [|[m|] f]; cbn; rewrite ?Hnone;
    eexists; eexists; split; reflexivity.
Qed.

Lemma updateMelakaMetadata_missing_witness :
  exists (e : string) (w' : World),
    updateMelakaMetadata Scenario.article "ms-MY" [("reviewed", VBool true)]
      (Scenario.world [] [] (Scenario.replyWith "")) = (Throw e, w') /\
    store w' = [].
Proof.
  apply (updateMelakaMetadata_missing Scenario.article "ms-MY"
           [("reviewed", VBool true)]
           (Scenario.world [] [] (Scenario.replyWith ""))).
  - discriminate.
  - reflexivity.
Defined.

Lemma apply_updates_metadata (metadata : Obj) :
  forall record : Obj,
    metadata <> [] ->
    apply_updates record (map (fun kv => (["_melaka"; fst kv], snd kv)) metadata)
    = obj_set record "_melaka" (VObj (obj_spread (metadata_map record) metadata)).
Proof.
  unfold apply_updates, obj_spread.
  induction metadata as [|[k v] rest IH]; intros record Hne; [contradiction|].
  cbn [map fold_left fst snd set_path].
  fold (metadata_map record).
  destruct rest as [|kv rest'].
  - reflexivity.
  - rewrite IH by discriminate.
    unfold metadata_map at 1. rewrite obj_get_set_same.
    now rewrite obj_set_set_same.
Qed.

(** X10.  [updateMelakaMetadata] on an existing record sets the given
    metadata fields (each has a value) and nothing else: the content of
    the record and the metadata fields that are not given keep their
    values. *)
Theorem updateMelakaMetadata_existing (docRef : DocumentReference)
    (locale : string) (metadata existing : Obj) (w : World) :
  hd None (faults w) = None ->
  obj_get (store w) (getI18nPath docRef locale) = Some existing ->
  NoDup (Object_keys metadata) ->
  metadata <> [] ->
  Forall (fun kv => snd kv <> VUndef) metadata ->
  exists (w' : World) (record : Obj),
    updateMelakaMetadata docRef locale metadata w = (Return tt, w') /\
    obj_get (store w') (getI18nPath docRef locale) = Some record /\
    (forall k, k <> "_melaka" -> obj_get record k = obj_get existing k) /\
    (forall k, obj_get (metadata_map record) k
               = match obj_get metadata k with
                 | Some v => Some v
                 | None => obj_get (metadata_map existing) k
                 end) /\
    (forall p, p <> getI18nPath docRef locale ->
               obj_get (store w') p = obj_get (store w) p).
Proof.
  intros Hf Hex Hnd Hne _. unfold updateMelakaMetadata, ref_update.
  rewrite (backend_call_ok _ _ _ Hf). cbn [getI18nRef ref_path].
  unfold getI18nPath in *.
  match goal with
  | |- context [store (called ?ev w)] => change (store (called ev w)) with (store w)
  end.
  rewrite Hex, (apply_updates_metadata metadata existing Hne).
  eexists; eexists; split; [reflexivity|]. cbn [store with_store].
  split; [apply obj_get_set_same|]. split; [|split].
  - intros k Hk. apply obj_get_set_other. congruence.
  - intros k. unfold metadata_map at 1. rewrite obj_get_set_same.
    now apply obj_get_spread.
  - intros p Hp. apply obj_get_set_other. congruence.
Qed.

Lemma updateMelakaMetadata_existing_witness :
  exists (w' : World) (record : Obj),
    updateMelakaMetadata Scenario.article "ms-MY" [("reviewed", VBool true)]
      (Scenario.world [("articles/a1/i18n/ms-MY", Scenario.currentRecord)] []
                      (Scenario.replyWith "")) = (Return tt, w') /\
    obj_get (store w') "articles/a1/i18n/ms-MY" = Some record /\
    obj_get (metadata_map record) "reviewed" = Some (VBool true) /\
    obj_get (metadata_map record) "status" = Some (VStr "completed") /\
    obj_get record "title" = Some (VStr "Halo").
Proof.
  destruct (updateMelakaMetadata_existing Scenario.article "ms-MY"
              [("reviewed", VBool true)] Scenario.currentRecord
              (Scenario.world [("articles/a1/i18n/ms-MY", Scenario.currentRecord)] []
                              (Scenario.replyWith "")))
    as [w' [record [E [G [C [Mt _]]]]]].
  - reflexivity.
  - reflexivity.
  - repeat constructor; simpl; intuition discriminate.
  - discriminate.
  - repeat constructor. discriminate.
  - exists w', record. split; [exact E|]. split; [exact G|].
    split; [exact (Mt "reviewed")|]. split; [exact (Mt "status")|].
    rewrite (C "title") by discriminate. reflexivity.
Defined.

(** X11.  After [deleteTranslation] the record of the locale is gone,
    [readTranslation] returns [null] for it, and every other document,
    the records of the other locales among them, is untouched. *)
Theorem deleteTranslation_removes (docRef : DocumentReference)
    (locale : string) (w : World) :
  hd None (faults w) = None ->
  hd None (tl (faults w)) = None ->
  exists (w1 w2 : World),
    deleteTranslation docRef locale w = (Return tt, w1) /\
    readTranslation docRef locale w1 = (Return None, w2) /\
    (forall p, p <> getI18nPath docRef locale ->
               obj_get (store w1) p = obj_get (store w) p).
Proof.
  intros H1 H2. unfold deleteTranslation, ref_delete.
  rewrite (backend_call_ok _ _ _ H1). cbn [getI18nRef ref_path].
  eexists; eexists; split; [reflexivity|]. split.
  - unfold readTranslation, bind, ref_get.
    rewrite backend_call_ok by exact H2. cbn [getI18nRef ref_path].
    cbn [store with_store called with_faults with_event].
    rewrite store_remove_get_same. reflexivity.
  - intros p Hp. cbn [store with_store].
    apply store_remove_get_other. unfold getI18nPath in Hp. congruence.
Qed.

Lemma deleteTranslation_removes_witness :
  exists (w1 w2 : World),
    deleteTranslation Scenario.article "ms-MY"
      (Scenario.world [("articles/a1/i18n/ms-MY", Scenario.currentRecord);
                       ("articles/a1/i18n/zh-CN", Scenario.currentRecord)] []
                      (Scenario.replyWith "")) = (Return tt, w1) /\
    readTranslation Scenario.article "ms-MY" w1 = (Return None, w2) /\
    obj_get (store w1) "articles/a1/i18n/zh-CN" = Some Scenario.currentRecord.
Proof.
  destruct (deleteTranslation_removes Scenario.article "ms-MY"
              (Scenario.world [("articles/a1/i18n/ms-MY", Scenario.currentRecord);
                               ("articles/a1/i18n/zh-CN", Scenario.currentRecord)] []
                              (Scenario.replyWith "")))
    as [w1 [w2 [E [R O]]]]; try reflexivity.
  exists w1, w2. split; [exact E|]. split; [exact R|].
  rewrite (O "articles/a1/i18n/zh-CN") by discriminate. reflexivity.
Defined.

(** ** The record store: listings *)

Lemma In_insert_sorted (x y : string) (l : list string) :
  In x (insert_sorted y l) <-> x = y \/ In x l.
Proof.
  induction l as [|z l IH]; cbn.
  - intuition.
  - destruct (String.leb y z); cbn; [intuition|]. rewrite IH. intuition.
Qed.

Lemma In_sort (x : string) (l : list string) : In x (sort l) <-> In x l.
Proof.
  induction l as [|y l IH]; cbn; [tauto|].
  rewrite In_insert_sorted, IH. intuition.
Qed.

Lemma In_store_paths (s : list (string * Obj)) (p : string) :
  In p (store_paths s) <-> obj_get s p <> None.
Proof.
  unfold store_paths. rewrite nodup_In.
  pose proof (obj_get_None_not_In s p) as H. unfold Object_keys in H.
  destruct (obj_get s p); split; intros X.
  - discriminate.
  - destruct (in_dec string_dec p (map fst s)) as [I|N]; [exact I|].
    apply H in N. discriminate N.
  - intros _. now apply (proj1 H).
  - contradiction.
Qed.

Lemma removed_stays_removed (ps : list string) :
  forall (s : list (string * Obj)) (p : string),
    obj_get s p = None -> obj_get (fold_left store_remove ps s) p = None.
Proof.
  induction ps as [|q ps IH]; intros s p H; [exact H|].
  cbn [fold_left]. apply IH.
  destruct (String.eqb_spec q p) as [->|Hne].
  - apply store_remove_get_same.
  - now rewrite store_remove_get_other.
Qed.

Lemma remove_all_In (ps : list string) :
  forall (s : list (string * Obj)) (p : string),
    In p ps -> obj_get (fold_left store_remove ps s) p = None.
Proof.
  induction ps as [|q ps IH]; intros s p I; [destruct I|].
  destruct I as [E|I]; cbn [fold_left].
  - subst q. apply removed_stays_removed, store_remove_get_same.
  - now apply IH.
Qed.

Lemma remove_all_not_In (ps : list string) :
  forall (s : list (string * Obj)) (p : string),
    ~ In p ps -> obj_get (fold_left store_remove ps s) p = obj_get s p.
Proof.
  induction ps as [|q ps IH]; intros s p N; [reflexivity|].
  cbn [fold_left]. rewrite IH by (intros I; apply N; now right).
  apply store_remove_get_other. intros ->. apply N. now left.
Qed.

Lemma events_keep_store (events : list string) :
  forall w : World,
    store (fold_left (fun acc p => with_event (EvDelete p) acc) events w) = store w /\
    faults (fold_left (fun acc p => with_event (EvDelete p) acc) events w) = faults w.
Proof.
  induction events as [|p ps IH]; intros w; [split; reflexivity|].
  cbn [fold_left]. destruct (IH (with_event (EvDelete p) w)) as [S F].
  rewrite S, F. split; reflexivity.
Qed.

Lemma i18n_path_child (docRef : DocumentReference) (locale : string) :
  getI18nPath docRef locale = (ref_path docRef ++ "/i18n") ++ "/" ++ locale.
Proof.
  unfold getI18nPath. now rewrite string_app_assoc.
Qed.

(** The documents that a query of the i18n collection returns. *)
Lemma i18n_listing (docRef : DocumentReference) (s : list (string * Obj))
    (p : string) :
  In p (sort (filter (in_collection (ref_path docRef ++ "/i18n")) (store_paths s)))
  <-> in_collection (ref_path docRef ++ "/i18n") p = true /\ obj_get s p <> None.
Proof.
  rewrite In_sort, filter_In, In_store_paths. tauto.
Qed.

(** X12.  [deleteAllTranslations] deletes all or nothing: when it throws,
    the store is what it was; when it returns, no locale has a record of
    the document any more and every document outside its i18n collection
    is untouched. *)
Theorem deleteAllTranslations_all_or_nothing (docRef : DocumentReference)
    (w : World) :
  exists (o : Outcome unit) (w' : World),
    deleteAllTranslations docRef w = (o, w') /\
    (forall e, o = Throw e -> store w' = store w) /\
    (o = Return tt ->
     (forall locale, locale_ok locale = true ->
                     obj_get (store w') (getI18nPath docRef locale) = None) /\
     (forall p, in_collection (ref_path docRef ++ "/i18n") p = false ->
                obj_get (store w') p = obj_get (store w) p)).
Proof.
  unfold deleteAllTranslations, bind, query_get.
  set (coll := ref_path docRef ++ "/i18n").
  destruct (hd None (faults w)) as [m|] eqn:Hq.
  - rewrite (backend_call_fault _ _ _ m Hq).
    eexists; eexists; split; [reflexivity|]. split; [reflexivity|].
    intros H. discriminate H.
  - rewrite (backend_call_ok _ _ _ Hq).
    set (w1 := called (EvGet coll) w).
    change (store w1) with (store w).
    set (snaps := sort (filter (in_collection coll) (store_paths (store w)))).
    unfold batch_commit_deletes.
    destruct (events_keep_store snaps w1) as [S F].
    set (w2 := fold_left (fun acc p => with_event (EvDelete p) acc) snaps w1) in *.
    change (store w1) with (store w) in *.
    assert (Hgone : forall locale, locale_ok locale = true ->
              obj_get (fold_left store_remove snaps (store w))
                      (getI18nPath docRef locale) = None).
    { intros locale Hl. rewrite i18n_path_child. fold coll.
      destruct (obj_get (store w) (coll ++ "/" ++ locale)) eqn:E.
      - apply remove_all_In. apply i18n_listing. fold coll.
        split; [now apply in_collection_child | congruence].
      - now apply removed_stays_removed. }
    assert (Hkept : forall p, in_collection coll p = false ->
              obj_get (fold_left store_remove snaps (store w)) p
              = obj_get (store w) p).
    { intros p Hp. apply remove_all_not_In. intros I.
      apply i18n_listing in I as [I _]. fold coll in I. congruence. }
    destruct (faults w2) as [|[m|] rest] eqn:Ef.
    + eexists; eexists; split; [reflexivity|].
      split; [intros e H; discriminate H|]. intros _. cbn [store with_store].
      split; assumption.
    + eexists; eexists; split; [reflexivity|].
      split; [intros e _; exact S|]. intros H. discriminate H.
    + eexists; eexists; split; [reflexivity|].
      split; [intros e H; discriminate H|]. intros _. cbn [store with_store].
      split; assumption.
Qed.

(** X13.  [listTranslationLocales] lists the locales that have a record
    of the document, and only them; it does not write. *)
Theorem listTranslationLocales_lists_records (docRef : DocumentReference)
    (w : World) :
  hd None (faults w) = None ->
  exists (locales : list string) (w' : World),
    listTranslationLocales docRef w = (Return locales, w') /\
    store w' = store w /\
    forall locale, locale_ok locale = true ->
      (In locale locales <->
       obj_get (store w) (getI18nPath docRef locale) <> None).
Proof.
  intros Hf. unfold listTranslationLocales, bind, query_get.
  rewrite (backend_call_ok _ _ _ Hf).
  set (coll := ref_path docRef ++ "/i18n").
  change (store (called (EvGet coll) w)) with (store w).
  eexists; eexists; split; [reflexivity|]. split; [reflexivity|].
  intros locale Hl. rewrite i18n_path_child. fold coll.
  assert (Hns : forallb (fun c => negb (is_slash c)) (list_ascii_of_string locale)
                = true).
  { unfold locale_ok in Hl. now apply andb_true_iff in Hl as [_ Hl]. }
  rewrite in_map_iff. split.
  - intros [p [Eid I]]. apply i18n_listing in I as [Hc Hs]. fold coll in Hc.
    rewrite (in_collection_path coll p Hc), Eid in Hs. exact Hs.
  - intros Hs. exists (coll ++ "/" ++ locale).
    split; [now apply doc_id_child|].
    apply i18n_listing. fold coll.
    split; [now apply in_collection_child | exact Hs].
Qed.

Lemma listTranslationLocales_lists_records_witness :
  exists (locales : list string) (w' : World),
    listTranslationLocales Scenario.article
      (Scenario.world [("articles/a1/i18n/zh-CN", Scenario.currentRecord);
                       ("articles/a1", Scenario.articleData);
                       ("articles/a1/i18n/ms-MY", Scenario.currentRecord);
                       ("articles/a2/i18n/ja-JP", Scenario.currentRecord)] []
                      (Scenario.replyWith "")) = (Return locales, w') /\
    locales = ["ms-MY"; "zh-CN"] /\
    (In "ms-MY" locales <->
     obj_get [("articles/a1/i18n/zh-CN", Scenario.currentRecord);
              ("articles/a1", Scenario.articleData);
              ("articles/a1/i18n/ms-MY", Scenario.currentRecord);
              ("articles/a2/i18n/ja-JP", Scenario.currentRecord)]
             (getI18nPath Scenario.article "ms-MY") <> None).
Proof.
  destruct (listTranslationLocales_lists_records Scenario.article
              (Scenario.world [("articles/a1/i18n/zh-CN", Scenario.currentRecord);
                               ("articles/a1", Scenario.articleData);
                               ("articles/a1/i18n/ms-MY", Scenario.currentRecord);
                               ("articles/a2/i18n/ja-JP", Scenario.currentRecord)] []
                              (Scenario.replyWith "")) eq_refl)
    as [locales [w' [E [_ H]]]].
  exists locales, w'. split; [exact E|]. split.
  - vm_compute in E. now inversion E.
  - exact (H "ms-MY" eq_refl).
Defined.

Lemma deleteAllTranslations_all_or_nothing_witness :
  let w := Scenario.world [("articles/a1/i18n/zh-CN", Scenario.currentRecord);
                           ("articles/a1", Scenario.articleData);
                           ("articles/a1/i18n/ms-MY", Scenario.currentRecord)] []
                          (Scenario.replyWith "") in
  exists w',
    deleteAllTranslations Scenario.article w = (Return tt, w') /\
    obj_get (store w') (getI18nPath Scenario.article "ms-MY") = None /\
    obj_get (store w') "articles/a1" = Some Scenario.articleData.
Proof.
  intros w.
  destruct (deleteAllTranslations_all_or_nothing Scenario.article w)
    as [o [w' [E [_ H]]]].
  assert (Ho : o = Return tt).
  { change o with (fst (o, w')). rewrite <- E. vm_compute. reflexivity. }
  subst o. destruct (H eq_refl) as [G K].
  exists w'. split; [exact E|]. split; [exact (G "ms-MY" eq_refl)|].
  rewrite (K "articles/a1" eq_refl). reflexivity.
Defined.

Lemma status_step_ok (docRef : DocumentReference) (status : Obj)
    (locale : string) (w : World) :
  hd None (faults w) = None ->
  status_step docRef status locale w
  = (Return (obj_assign status locale (stored_status (store w) docRef locale)),
     called (EvGet (getI18nPath docRef locale)) w).
Proof.
  intros Hf. unfold status_step, bind, ret, stored_status.
  rewrite (readMelakaMetadata_ok _ _ _ Hf).
  destruct (obj_get (store w) (getI18nPath docRef locale)) as [t|]; [|reflexivity].
  destruct (truthy (js_prop (VObj t) "_melaka")); [|reflexivity].
  cbn [andb]. reflexivity.
Qed.

Lemma status_loop_ok (docRef : DocumentReference) (locales : list string) :
  forall (status : Obj) (w : World),
    faults w = [] ->
    exists (result : Obj) (w' : World),
      status_loop docRef locales status w = (Return result, w') /\
      store w' = store w /\
      forall locale,
        obj_get result locale
        = if in_dec string_dec locale locales
          then if String.eqb locale "__proto__" then obj_get status locale
               else Some (stored_status (store w) docRef locale)
          else obj_get status locale.
Proof.
  induction locales as [|l rest IH]; intros status w Hf.
  - exists status, w. split; [reflexivity|]. split; reflexivity.
  - cbn [status_loop]. unfold bind at 1.
    rewrite status_step_ok by now rewrite Hf.
    destruct (IH (obj_assign status l (stored_status (store w) docRef l))
                 (called (EvGet (getI18nPath docRef l)) w))
      as [result [w' [E [S G]]]].
    { cbn. now rewrite Hf. }
    exists result, w'. split; [exact E|]. split; [exact S|].
    intros locale. rewrite G, obj_get_assign.
    change (store (called (EvGet (getI18nPath docRef l)) w)) with (store w).
    destruct (String.eqb_spec l locale) as [->|Hne]; cbn [andb].
    + destruct (String.eqb locale "__proto__"); cbn [negb];
        destruct (in_dec string_dec locale rest) as [I|N];
        destruct (in_dec string_dec locale (locale :: rest)) as [I'|N'];
        try reflexivity; exfalso; apply N'; now left.
    + destruct (in_dec string_dec locale rest) as [I|N];
        destruct (in_dec string_dec locale (l :: rest)) as [I'|N'];
        try reflexivity.
      * exfalso. apply N'. now right.
      * destruct I' as [->|I']; contradiction.
Qed.

(** X14.  When the store works, [getTranslationStatus] has one entry for
    each of the given locales and no other: the stored status of the
    record's metadata, or [missing] when there is no record, no metadata
    or no status; it does not write.  A locale named [__proto__] gets no
    entry: the assignment [status[locale] = ...] creates no property under
    that name. *)
Theorem getTranslationStatus_reports (docRef : DocumentReference)
    (locales : list string) (w : World) :
  faults w = [] ->
  exists (result : Obj) (w' : World),
    getTranslationStatus docRef locales w = (Return result, w') /\
    store w' = store w /\
    (forall locale, In locale locales -> locale <> "__proto__" ->
       obj_get result locale = Some (stored_status (store w) docRef locale)) /\
    (forall locale, ~ In locale locales \/ locale = "__proto__" ->
       obj_get result locale = None).
Proof.
  intros Hf. unfold getTranslationStatus.
  destruct (status_loop_ok docRef locales [] w Hf) as [result [w' [E [S G]]]].
  exists result, w'. split; [exact E|]. split; [exact S|]. split.
  - intros locale I N. rewrite G.
    destruct (in_dec string_dec locale locales); [|contradiction].
    destruct (String.eqb_spec locale "__proto__"); [contradiction | reflexivity].
  - intros locale N. rewrite G.
    destruct (in_dec string_dec locale locales) as [I|_]; [|reflexivity].
    destruct N as [N| ->]; [contradiction | reflexivity].
Qed.

Lemma getTranslationStatus_reports_witness :
  exists (result : Obj) (w' : World),
    getTranslationStatus Scenario.article ["ms-MY"; "zh-CN"]
      (Scenario.world [("articles/a1/i18n/ms-MY", Scenario.currentRecord)] []
                      (Scenario.replyWith "")) = (Return result, w') /\
    obj_get result "ms-MY" = Some (VStr "completed") /\
    obj_get result "zh-CN" = Some (VStr "missing").
Proof.
  destruct (getTranslationStatus_reports Scenario.article ["ms-MY"; "zh-CN"]
              (Scenario.world [("articles/a1/i18n/ms-MY", Scenario.currentRecord)] []
                              (Scenario.replyWith "")) eq_refl)
    as [result [w' [E [_ [G _]]]]].
  exists result, w'. split; [exact E|]. split.
  - rewrite (G "ms-MY" (or_introl eq_refl)) by discriminate. reflexivity.
  - rewrite (G "zh-CN" (or_intror (or_introl eq_refl))) by discriminate.
    reflexivity.
Defined.

(** ** The provider *)

(** The steps of [GeminiProvider.translate] after the check of the key,
    as a function of the host and of the reply: what the provider answers
    does not depend on the store nor on the log. *)
Lemma Gemini_translate_cases (cfg : ProviderConfig) (content : Obj)
    (schema : ZodSchema) (topts : TranslationOptions) (w : World) :
  exists r : TranslationResponse,
    Gemini_translate cfg content schema topts w
    = (Return r, if Gemini_isConfigured cfg then with_event EvFetch w else w) /\
    (tr_success r = true ->
     exists (text : string) (parsed validated : Value),
       fst (extractJsonFromResponse text w) = Return parsed /\
       safeParse schema parsed = inl validated /\
       tr_output r = Some validated /\ tr_error r = None) /\
    (tr_success r = false -> tr_output r = None /\ exists e, tr_error r = Some e).
Proof.
  unfold Gemini_translate, try_catch.
  destruct (Gemini_isConfigured cfg); cbn [negb].
  2:{ eexists. split; [reflexivity|]. split; [discriminate|].
      intros _. split; [reflexivity | eexists; reflexivity]. }
  unfold bind at 1. unfold fetch.
  destruct (fetch_reply w) as [response|e].
  2:{ eexists. split; [reflexivity|]. split; [discriminate|].
      intros _. split; [reflexivity | eexists; reflexivity]. }
  destruct (resp_ok response); cbn [negb].
  2:{ unfold bind, try_catch, of_outcome, ret.
      destruct (resp_errorData response); eexists;
        (split; [reflexivity|]); (split; [discriminate|]);
        intros _; (split; [reflexivity | eexists; reflexivity]). }
  unfold bind at 1. unfold of_outcome.
  destruct (resp_data response) as [data|e].
  2:{ eexists. split; [reflexivity|]. split; [discriminate|].
      intros _. split; [reflexivity | eexists; reflexivity]. }
  destruct (first_text data) as [text|].
  2:{ eexists. split; [reflexivity|]. split; [discriminate|].
      intros _. split; [reflexivity | eexists; reflexivity]. }
  destruct (String.eqb text "").
  { eexists. split; [reflexivity|]. split; [discriminate|].
    intros _. split; [reflexivity | eexists; reflexivity]. }
  unfold bind at 1.
  pose proof (extractJsonFromResponse_pure text (with_event EvFetch w)) as Hw.
  pose proof (extractJsonFromResponse_platform text (with_event EvFetch w) w eq_refl)
    as Hx.
  destruct (extractJsonFromResponse text (with_event EvFetch w)) as [[parsed|e] wx];
    cbn [fst snd] in Hw, Hx; subst wx.
  2:{ eexists. split; [reflexivity|]. split; [discriminate|].
      intros _. split; [reflexivity | eexists; reflexivity]. }
  destruct (safeParse schema parsed) as [validated|issues] eqn:Ep.
  - eexists. split; [reflexivity|]. split.
    + intros _. exists text, parsed, validated. now rewrite <- Hx.
    + discriminate.
  - eexists. split; [reflexivity|]. split; [discriminate|].
    intros _. split; [reflexivity | eexists; reflexivity].
Qed.

(** X15.  [GeminiProvider.translate] never throws and never touches the
    store: whatever the endpoint does (the request fails, the status is
    an error, the body cannot be read, the reply is empty, is not JSON or
    does not validate), it returns a response that is either a success
    with an output and no error, or a failure with an error and no
    output. *)
Theorem Gemini_translate_uniform (cfg : ProviderConfig) (content : Obj)
    (schema : ZodSchema) (topts : TranslationOptions) (w : World) :
  exists (r : TranslationResponse) (w' : World),
    Gemini_translate cfg content schema topts w = (Return r, w') /\
    store w' = store w /\ faults w' = faults w /\
    (if tr_success r
     then (exists output, tr_output r = Some output) /\ tr_error r = None
     else tr_output r = None /\ exists e, tr_error r = Some e).
Proof.
  destruct (Gemini_translate_cases cfg content schema topts w) as [r [E [S F]]].
  exists r. eexists. split; [exact E|].
  split; [destruct (Gemini_isConfigured cfg); reflexivity|].
  split; [destruct (Gemini_isConfigured cfg); reflexivity|].
  destruct (tr_success r).
  - destruct (S eq_refl) as [text [parsed [validated [_ [_ [O Er]]]]]].
    split; [now exists validated | exact Er].
  - exact (F eq_refl).
Qed.

(** Without a key no request is made. *)
Lemma Gemini_translate_without_key (cfg : ProviderConfig) (content : Obj)
    (schema : ZodSchema) (topts : TranslationOptions) (w : World) :
  Gemini_isConfigured cfg = false ->
  Gemini_translate cfg content schema topts w
  = (Return (response_failure "Gemini API key not configured"), w).
Proof.
  intros H. unfold Gemini_translate, try_catch. now rewrite H.
Qed.

(** ** The synthesized schema *)

Lemma schema_fields_fold (f : string -> ZodSchema) (keys : list string) :
  forall acc : list (string * ZodSchema),
    NoDup keys ->
    ~ In "__proto__" keys ->
    (forall k, In k keys -> obj_get acc k = None) ->
    fold_left (fun acc field => obj_assign acc field (f field)) keys acc
    = (acc ++ map (fun k => (k, f k)) keys)%list.
Proof.
  induction keys as [|k keys IH]; intros acc Hnd Hno Hfresh.
  - cbn. now rewrite app_nil_r.
  - inversion Hnd as [|? ? Hnotin Hnd']; subst. cbn [fold_left map].
    assert (Ek : obj_assign acc k (f k) = obj_set acc k (f k)).
    { unfold obj_assign. destruct (String.eqb_spec k "__proto__") as [->|_];
        [exfalso; apply Hno; now left | reflexivity]. }
    rewrite Ek, IH; [| exact Hnd' | intros I; apply Hno; now right |].
    + rewrite (obj_set_fresh acc k (f k)) by (apply Hfresh; now left).
      now rewrite <- app_assoc.
    + intros k' Hk'. rewrite obj_get_set_other.
      * apply Hfresh. now right.
      * intros ->. contradiction.
Qed.

(** The shape of the schema when no field is named [__proto__]: one
    field per field of the content, in order. *)
Lemma createTranslationSchema_shape (translatable0 : Obj)
    (types : list (string * SchemaType)) :
  NoDup (Object_keys translatable0) ->
  ~ In "__proto__" (Object_keys translatable0) ->
  createTranslationSchema translatable0 types
  = ZObject (map (fun k => (k, detected_field_schema types k))
                 (Object_keys translatable0)) strip.
Proof.
  intros Hnd Hno. unfold createTranslationSchema.
  rewrite (schema_fields_fold (detected_field_schema types)
             (Object_keys translatable0) [] Hnd Hno); [reflexivity|].
  intros k _. reflexivity.
Qed.

(** A required field of a schema type does not validate when it is
    missing. *)
Lemma required_field_rejects_undefined (t : SchemaType) :
  exists issues, safeParse (createFieldSchema t true) VUndef = inr issues.
Proof.
  destruct t; cbn; eexists; reflexivity.
Qed.

(** The field of a name with a detected type, or of a name that is not
    inherited, is the required field of a schema type. *)
Lemma detected_field_schema_typed (types : list (string * SchemaType)) (k : string) :
  (obj_get types k = None -> includes Object_prototype_members k = false) ->
  exists t, detected_field_schema types k = createFieldSchema t true.
Proof.
  unfold detected_field_schema. intros H.
  destruct (obj_get types k) as [t|]; [now exists t|].
  rewrite (H eq_refl). now exists T_string.
Qed.

Lemma parse_shape_keys (f : string -> ZodSchema) (props : Obj)
    (keys : list string) (out : list (string * Value)) :
  (forall k, In k keys -> exists t, f k = createFieldSchema t true) ->
  parse_shape props (map (fun k => (k, f k)) keys) = inl out ->
  map fst out = keys.
Proof.
  revert out. induction keys as [|k keys IH]; intros out Hf H.
  - cbn in H. now inversion H.
  - cbn [map parse_shape] in H.
    destruct (Hf k (or_introl eq_refl)) as [t Et]. rewrite Et in H.
    assert (Hf' : forall k', In k' keys -> exists t', f k' = createFieldSchema t' true).
    { intros k' I. apply Hf. now right. }
    destruct (obj_get props k) as [v|] eqn:Ek.
    + destruct (safeParse (createFieldSchema t true) v) as [v'|]; [|
        destruct (parse_shape props _); discriminate H].
      destruct (parse_shape props _) as [rest|] eqn:Er; [|discriminate H].
      assert (E : out = (k, v') :: rest).
      { destruct v'; now inversion H. }
      subst out. cbn. now rewrite (IH rest Hf' eq_refl).
    + destruct (required_field_rejects_undefined t) as [issues Ei].
      rewrite Ei in H. destruct (parse_shape props _); discriminate H.
Qed.

Lemma obj_set_keys_In {A : Type} (o : list (string * A)) (k k' : string) (v : A) :
  In k' (Object_keys (obj_set o k v)) -> In k' (Object_keys o) \/ k' = k.
Proof.
  induction o as [|[k0 v0] rest IH]; cbn.
  - intros [E|[]]. now right.
  - destruct (String.eqb_spec k0 k) as [->|Hne]; cbn.
    + intros [E|I]; [left; now left | left; now right].
    + intros [E|I]; [left; now left|].
      destruct (IH I) as [I'|E]; [left; now right | now right].
Qed.

Lemma obj_set_keys_NoDup {A : Type} (o : list (string * A)) (k : string) (v : A) :
  NoDup (Object_keys o) -> NoDup (Object_keys (obj_set o k v)).
Proof.
  induction o as [|[k0 v0] rest IH]; cbn; intros Hnd.
  - constructor; [intros [] | constructor].
  - inversion Hnd as [|? ? Hnotin Hnd']; subst.
    destruct (String.eqb_spec k0 k) as [->|Hne]; cbn.
    + now constructor.
    + constructor; [|now apply IH].
      intros I. destruct (obj_set_keys_In rest k k0 v I) as [I'|E];
        [contradiction | now subst].
Qed.

(** What [separateContent] hands to the schema, for any document: the
    translatable fields are distinct, none is named [__proto__], and
    each has a detected type. *)
Lemma separateContent_schema_inputs (doc : Obj) (fields : option (list string)) :
  let sc := separateContent doc fields in
  NoDup (Object_keys (translatable sc)) /\
  forall k, In k (Object_keys (translatable sc)) ->
            k <> "__proto__" /\ obj_get (detectedTypes sc) k <> None.
Proof.
  unfold separateContent.
  assert (H : forall acc,
             (NoDup (Object_keys (translatable acc)) /\
              forall k, In k (Object_keys (translatable acc)) ->
                        k <> "__proto__" /\ obj_get (detectedTypes acc) k <> None) ->
             NoDup (Object_keys (translatable (fold_left (separate_step fields) doc acc))) /\
             forall k, In k (Object_keys
                              (translatable (fold_left (separate_step fields) doc acc))) ->
                       k <> "__proto__" /\
                       obj_get (detectedTypes (fold_left (separate_step fields) doc acc)) k
                       <> None).
  { induction doc as [|[f v] rest IH]; intros acc Hacc; [exact Hacc|].
    cbn [fold_left]. apply IH. destruct Hacc as [Hnd Hk].
    unfold separate_step.
    destruct (String.eqb f "_melaka"); [now split|].
    destruct (match fields with Some fs => negb (includes fs f) | None => false end);
      [now split|].
    assert (Htypes : forall k, obj_get (detectedTypes acc) k <> None ->
                               obj_get (obj_assign (detectedTypes acc) f
                                                   (detectFieldType v)) k <> None).
    { intros k Hg. rewrite obj_get_assign.
      destruct (_ && _); [discriminate | exact Hg]. }
    destruct (isTranslatableType (detectFieldType v));
      cbn [translatable detectedTypes].
    - destruct (String.eqb_spec f "__proto__") as [->|Hf].
      + change (obj_assign (translatable acc) "__proto__" v) with (translatable acc).
        split; [exact Hnd|]. intros k I. destruct (Hk k I) as [N G].
        split; [exact N | now apply Htypes].
      + assert (Ea : obj_assign (translatable acc) f v
                     = obj_set (translatable acc) f v).
        { unfold obj_assign.
          destruct (String.eqb_spec f "__proto__"); [contradiction | reflexivity]. }
        rewrite Ea.
        split; [now apply obj_set_keys_NoDup|].
        intros k I. destruct (obj_set_keys_In _ _ _ _ I) as [I'| ->].
        * destruct (Hk k I') as [N G]. split; [exact N | now apply Htypes].
        * split; [exact Hf|]. rewrite obj_get_assign, String.eqb_refl.
          destruct (String.eqb_spec f "__proto__"); [contradiction | discriminate].
    - split; [exact Hnd|]. intros k I. destruct (Hk k I) as [N G].
      split; [exact N | now apply Htypes]. }
  apply H. split; [constructor | intros k []].
Qed.

(** X16.  A successful answer of the provider for the synthesized schema
    has exactly the fields of the translatable content, in their order:
    no field is added, none is missing.  This is so when no field is
    named [__proto__] and every field has a detected type or a name that
    objects do not inherit, as with the content and the types that
    [separateContent] returns ([separateContent_schema_inputs]); the
    schema of a field named [toString] without a detected type is
    [z.unknown()], which a reply without that field passes. *)
Theorem Gemini_translate_success_fields (cfg : ProviderConfig)
    (translatable0 : Obj) (types : list (string * SchemaType))
    (topts : TranslationOptions) (w w' : World) (r : TranslationResponse) :
  NoDup (Object_keys translatable0) ->
  ~ In "__proto__" (Object_keys translatable0) ->
  (forall k, In k (Object_keys translatable0) -> obj_get types k = None ->
             includes Object_prototype_members k = false) ->
  Gemini_translate cfg translatable0
                   (createTranslationSchema translatable0 types) topts w
  = (Return r, w') ->
  tr_success r = true ->
  exists output : Obj,
    tr_output r = Some (VObj output) /\
    Object_keys output = Object_keys translatable0.
Proof.
  intros Hnd Hno Htypes Erun Hs.
  destruct (Gemini_translate_cases cfg translatable0
              (createTranslationSchema translatable0 types) topts w)
    as [r0 [E [S _]]].
  rewrite E in Erun. inversion Erun; subst r0. clear Erun.
  destruct (S Hs) as [text [parsed [validated [_ [Hp [Ho _]]]]]].
  rewrite (createTranslationSchema_shape translatable0 types Hnd Hno) in Hp.
  destruct parsed as [| | | | | |props]; try discriminate Hp.
  rewrite safeParse_object_strip in Hp.
  destruct (parse_shape props _) as [out|] eqn:Eo; [|discriminate Hp].
  inversion Hp; subst validated.
  exists out. split; [exact Ho|].
  apply (parse_shape_keys (detected_field_schema types) props _ out); [|exact Eo].
  intros k I. apply detected_field_schema_typed. now apply Htypes.
Qed.

Lemma Gemini_translate_success_fields_witness :
  let w := Scenario.world [] [] (Scenario.replyWith (Scenario.text_of Scenario.replyExtra)) in
  let r := mkResponse true (Some (VObj [("title", VStr "Halo")])) None None in
  exists output : Obj,
    tr_output r = Some (VObj output) /\
    Object_keys output = ["title"].
Proof.
  intros w r.
  apply (Gemini_translate_success_fields
           (mkProviderConfig (Some "test-key") "gemini-2.5-flash" None)
           [("title", VStr "Hello")] [("title", T_string)]
           (mkTranslationOptions "ms-MY" None None None)
           w (with_event EvFetch w) r).
  - repeat constructor; simpl; intuition discriminate.
  - simpl. intuition discriminate.
  - intros k [<-|[]] H. discriminate H.
  - vm_compute. reflexivity.
  - reflexivity.
Defined.

(** The schema of a content with a field named [toString] and no
    detected type for it: the field is [z.unknown()], and an empty reply
    passes the validation; with a detected type the field is a string and
    the empty reply is rejected. *)
Example createTranslationSchema_inherited_name :
  let content : Obj := [("toString", VStr "x")] in
  createTranslationSchema content [] = ZObject [("toString", ZUnknown)] strip /\
  (exists v, safeParse (createTranslationSchema content []) (VObj []) = inl v) /\
  createTranslationSchema content [("toString", T_string)]
  = ZObject [("toString", ZString)] strip /\
  (exists issues,
     safeParse (createTranslationSchema content [("toString", T_string)]) (VObj [])
     = inr issues).
Proof. repeat split; eexists; reflexivity. Qed.

(** ** The pipeline *)

Lemma processTranslation_returns (docRef : DocumentReference) (docData : Obj)
    (targetLanguage : string) (config : MelakaConfig)
    (collectionConfig : CollectionConfig) (options : ProcessOptions) (w : World) :
  has_timestamp options (platform w) = true ->
  exists (r : ProcessResult) (w' : World),
    processTranslation docRef docData targetLanguage config collectionConfig
                       options w = (Return r, w').
Proof.
  intros Hts. unfold processTranslation, try_catch.
  pose proof (keeps_processTranslation_try docRef docData targetLanguage config
                collectionConfig options w) as Hp.
  destruct (processTranslation_try _ _ _ _ _ _ w) as [[r|e] w1]; cbn [snd] in Hp.
  - now exists r, w1.
  - rewrite processTranslation_catch_returns by now rewrite Hp.
    eexists; eexists; reflexivity.
Qed.

(** X30.  The one error that [processTranslation] can raise is the error
    of the import of the Firestore module, and only in a run without a
    timestamp at hand: the [catch] block resolves the timestamp before
    its guarded marking.  No exception of the classification, of the
    store, of the schema or of the provider reaches the caller, in any
    world. *)
Theorem processTranslation_raises_only_import (docRef : DocumentReference)
    (docData : Obj) (targetLanguage : string) (config : MelakaConfig)
    (collectionConfig : CollectionConfig) (options : ProcessOptions)
    (w w' : World) (e : string) :
  processTranslation docRef docData targetLanguage config collectionConfig
                     options w = (Throw e, w') ->
  has_timestamp options (platform w) = false /\
  import_firestore (platform w) = Some e /\
  exists error, processTranslation_try docRef docData targetLanguage config
                  collectionConfig options w = (Throw error, w').
Proof.
  unfold processTranslation, try_catch.
  pose proof (keeps_processTranslation_try docRef docData targetLanguage config
                collectionConfig options w) as Hp.
  destruct (processTranslation_try _ _ _ _ _ _ w) as [[r|error] w1];
    cbn [snd] in Hp; [discriminate|].
  destruct (has_timestamp options (platform w)) eqn:Hts.
  - rewrite processTranslation_catch_returns by now rewrite Hp. discriminate.
  - destruct (resolve_timestamp_throws docRef options w1) as [e0 [Hi E]];
      [now rewrite Hp|].
    unfold processTranslation_catch. unfold bind at 1. rewrite E.
    intros H. inversion H; subst e0 w'. rewrite <- Hp.
    split; [reflexivity|]. split; [exact Hi | now exists error].
Qed.

Section Pipeline.
Variables (docRef : DocumentReference) (docData : Obj) (targetLanguage : string).
Variables (config : MelakaConfig) (collectionConfig : CollectionConfig).
Variable options : ProcessOptions.

Let sc := separateContent docData (cc_fields collectionConfig).
Let sourceHash := hashContent (translatable sc).
Let path := getI18nPath docRef targetLanguage.
Let aiConfig := getEffectiveAIConfig config collectionConfig.

(** The stored record is current for the content of the document. *)
Let current (w : World) : Prop :=
  exists (translation metadata : Obj),
    obj_get (store w) path = Some translation /\
    obj_get translation "_melaka" = Some (VObj metadata) /\
    obj_get metadata "status" = Some (VStr "completed") /\
    obj_get metadata "source_hash" = Some (VStr sourceHash).

Lemma nonempty_translatable :
  translatable sc <> [] ->
  (Z.of_nat (length (Object_keys (translatable sc))) =? 0) = false.
Proof.
  destruct (translatable sc); [contradiction | reflexivity].
Qed.

(** The check of currency, when the read goes through. *)
Lemma currency_check (w : World) :
  hd None (faults w) = None ->
  exists b : bool,
    (existingMetadata <- readMelakaMetadata docRef targetLanguage ;;
     match existingMetadata with
     | Some md =>
         ret (strict_eq_string (js_prop md "status") "completed" &&
              strict_eq_string (js_prop md "source_hash") sourceHash)
     | None => ret false
     end) w = (Return b, called (EvGet path) w) /\
    (b = true <-> current w).
Proof.
  intros Hf. unfold bind. rewrite (readMelakaMetadata_ok _ _ _ Hf). fold path.
  unfold current.
  destruct (obj_get (store w) path) as [t|] eqn:Et.
  - destruct (truthy (js_prop (VObj t) "_melaka")) eqn:Etr.
    + eexists. split; [reflexivity|]. rewrite metadata_is_current. split.
      * intros [metadata [E [H1 H2]]]. exists t, metadata.
        repeat split; try assumption.
        cbn in E. destruct (obj_get t "_melaka"); [now subst | discriminate].
      * intros [t' [metadata [E1 [E2 [H1 H2]]]]]. inversion E1; subst t'.
        exists metadata. cbn. rewrite E2. auto.
    + exists false. split; [reflexivity|]. split; [discriminate|].
      intros [t' [metadata [E1 [E2 _]]]]. inversion E1; subst t'.
      cbn in Etr. rewrite E2 in Etr. discriminate.
  - exists false. split; [reflexivity|]. split; [discriminate|].
    intros [t' [metadata [E1 _]]]. discriminate.
Qed.

(** A run on a current record stops after the read. *)
Lemma current_record_is_skipped (w : World) :
  translatable sc <> [] ->
  opt_true (po_forceUpdate options) = false ->
  hd None (faults w) = None ->
  current w ->
  processTranslation docRef docData targetLanguage config collectionConfig
                     options w
  = (Return (mkResult true true None), called (EvGet path) w).
Proof.
  intros Hne Hforce Hf Hcur.
  unfold processTranslation, try_catch, processTranslation_try. fold sc.
  rewrite (nonempty_translatable Hne), Hforce. cbn [negb].
  unfold bind at 1. fold sourceHash.
  destruct (currency_check w Hf) as [b [E Hb]]. rewrite E.
  apply Hb in Hcur. subst b. reflexivity.
Qed.

(** X17.  A document whose record is current is skipped: when the update
    is not forced and the record of the locale has status [completed]
    and the hash of the translatable content, [processTranslation] returns
    [{success: true, skipped: true}] after the read of the record; the
    provider is not called and nothing is written. *)
Theorem processTranslation_skips_current (w : World) :
  translatable sc <> [] ->
  opt_true (po_forceUpdate options) = false ->
  hd None (faults w) = None ->
  current w ->
  processTranslation docRef docData targetLanguage config collectionConfig
                     options w
  = (Return (mkResult true true None), called (EvGet path) w).
Proof.
  exact (current_record_is_skipped w).
Qed.

(** The [try] block reaches the translation when the content is not
    empty and the update is forced or the record is not current. *)
Lemma processTranslation_try_translates (w : World) :
  translatable sc <> [] ->
  faults w = [] ->
  opt_true (po_forceUpdate options) = true \/ ~ current w ->
  exists w1 : World,
    processTranslation_try docRef docData targetLanguage config collectionConfig
                           options w
    = translate_and_record docRef targetLanguage config collectionConfig options
                           sc sourceHash w1 /\
    (w1 = w \/ w1 = called (EvGet path) w).
Proof.
  intros Hne Hf Hcheck. unfold processTranslation_try. fold sc.
  rewrite (nonempty_translatable Hne). unfold bind at 1. fold sourceHash.
  destruct (opt_true (po_forceUpdate options)) eqn:Eforce; cbn [negb].
  - exists w. split; [reflexivity | now left].
  - destruct Hcheck as [X | Hstale]; [discriminate|].
    destruct (currency_check w) as [b [E Hb]]; [now rewrite Hf|].
    rewrite E. destruct b.
    + exfalso. apply Hstale. now apply Hb.
    + exists (called (EvGet path) w). split; [reflexivity | now right].
Qed.

(** X18.  With a provider that is not implemented, the pipeline still
    answers with a result: [processTranslation] returns [{success: false,
    skipped: false}] with the message of the error thrown by the creation
    of the gateway, and the store working and the timestamp at hand, the
    record is marked failed with that message. *)
Theorem processTranslation_unimplemented_provider (w : World) :
  translatable sc <> [] ->
  faults w = [] ->
  has_timestamp options (platform w) = true ->
  opt_true (po_forceUpdate options) = true \/ ~ current w ->
  ai_provider aiConfig = "openai" \/ ai_provider aiConfig = "claude" ->
  let message :=
    (if String.eqb (ai_provider aiConfig) "openai" then "OpenAI" else "Claude")
    ++ " provider not yet implemented. Use Gemini for MVP." in
  exists (w' : World) (record : Obj),
    processTranslation docRef docData targetLanguage config collectionConfig
                       options w
    = (Return (mkResult false false (Some message)), w') /\
    obj_get (store w') path = Some record /\
    js_prop (js_prop (VObj record) "_melaka") "status" = VStr "failed" /\
    js_prop (js_prop (VObj record) "_melaka") "error" = VStr message /\
    ~ In EvFetch (skipn (length (log w)) (log w')).
Proof.
  intros Hne Hf Hts Hcheck Hprov message.
  destruct (processTranslation_try_translates w Hne Hf Hcheck) as [w1 [Etry Hw1]].
  assert (Ecreate : createTranslationFacade aiConfig = Throw message).
  { unfold createTranslationFacade, createProvider, message.
    destruct Hprov as [-> | ->]; reflexivity. }
  assert (Ethrow : translate_and_record docRef targetLanguage config
                     collectionConfig options sc sourceHash w1
                   = (Throw message, w1)).
  { unfold translate_and_record. fold aiConfig. unfold bind at 1, of_outcome.
    now rewrite Ecreate. }
  unfold processTranslation, try_catch. rewrite Etry, Ethrow.
  rewrite processTranslation_catch_returns
    by (destruct Hw1 as [-> | ->]; exact Hts).
  assert (Hf1 : faults w1 = []) by (destruct Hw1 as [-> | ->]; cbn; now rewrite ?Hf).
  assert (Hs1 : store w1 = store w) by (destruct Hw1 as [-> | ->]; reflexivity).
  rewrite markTranslationFailed_ok by now rewrite Hf1.
  cbn [snd]. fold path.
  exists (after_mark docRef targetLanguage message (resolved_timestamp options w1) w1),
         (marked_failed (obj_get (store w1) path) message
                        (resolved_timestamp options w1)).
  split; [reflexivity|].
  assert (S : store (after_mark docRef targetLanguage message
                       (resolved_timestamp options w1) w1)
              = obj_set (store w1) path
                  (marked_failed (obj_get (store w1) path) message
                                 (resolved_timestamp options w1))).
  { unfold after_mark. fold path. destruct (obj_get (store w1) path); reflexivity. }
  rewrite S.
  split; [apply obj_get_set_same|].
  split; [apply marked_failed_status|].
  split; [apply marked_failed_status|].
  unfold after_mark. fold path.
  destruct Hw1 as [-> | ->]; destruct (obj_get _ path);
    cbn [log with_store called with_faults with_event];
    rewrite <- ?app_assoc, skipn_app, skipn_all, Nat.sub_diag; cbn;
    intuition discriminate.
Qed.

End Pipeline.

Lemma processTranslation_skips_current_witness :
  let w := Scenario.world [("articles/a1/i18n/ms-MY", Scenario.currentRecord)] []
                          (Scenario.replyWith "") in
  processTranslation Scenario.article Scenario.articleData "ms-MY"
                     Scenario.melakaConfig Scenario.articles Scenario.noOptions w
  = (Return (mkResult true true None),
     called (EvGet "articles/a1/i18n/ms-MY") w).
Proof.
  intros w.
  apply (processTranslation_skips_current Scenario.article Scenario.articleData
           "ms-MY" Scenario.melakaConfig Scenario.articles Scenario.noOptions w).
  - discriminate.
  - reflexivity.
  - reflexivity.
  - exists Scenario.currentRecord. eexists.
    split; [reflexivity|]. split; [reflexivity|].
    split; [reflexivity|]. vm_compute. reflexivity.
Defined.

Lemma processTranslation_unimplemented_provider_witness :
  let config := mkMelakaConfig ["ms-MY"]
                  (mkAIConfig "openai" "gpt-4o-mini" None None (Some "sk-test"))
                  None [Scenario.articles] in
  let w := Scenario.world [] [] (Scenario.replyWith "") in
  exists (w' : World) (record : Obj),
    processTranslation Scenario.article Scenario.articleData "ms-MY" config
                       Scenario.articles Scenario.noOptions w
    = (Return (mkResult false false
                 (Some "OpenAI provider not yet implemented. Use Gemini for MVP.")),
       w') /\
    obj_get (store w') "articles/a1/i18n/ms-MY" = Some record /\
    js_prop (js_prop (VObj record) "_melaka") "status" = VStr "failed".
Proof.
  intros config w.
  destruct (processTranslation_unimplemented_provider Scenario.article
              Scenario.articleData "ms-MY" config Scenario.articles
              Scenario.noOptions w)
    as [w' [record [E [G [S _]]]]].
  - discriminate.
  - reflexivity.
  - reflexivity.
  - right. intros [translation [metadata [H _]]]. discriminate H.
  - left. reflexivity.
  - exists w', record. split; [exact E|]. split; [exact G | exact S].
Defined.

(** The provider on a reply that is extracted and validates. *)
Lemma Gemini_translate_valid (cfg : ProviderConfig) (content : Obj)
    (schema : ZodSchema) (topts : TranslationOptions) (w : World)
    (response : HttpResponse) (data : GeminiResponse)
    (textResponse : string) (parsed validated : Value) :
  Gemini_isConfigured cfg = true ->
  fetch_reply w = Return response ->
  resp_ok response = true ->
  resp_data response = Return data ->
  first_text data = Some textResponse ->
  textResponse <> "" ->
  fst (extractJsonFromResponse textResponse w) = Return parsed ->
  safeParse schema parsed = inl validated ->
  exists usage,
    Gemini_translate cfg content schema topts w
    = (Return (mkResponse true (Some validated) None usage), with_event EvFetch w).
Proof.
  intros Hcfg Hfetch Hok Hdata Htext Hne Hextract Hparse.
  unfold Gemini_translate, try_catch. rewrite Hcfg. cbn [negb].
  unfold bind at 1. unfold fetch. rewrite Hfetch, Hok. cbn [negb].
  unfold bind at 1. unfold of_outcome. rewrite Hdata, Htext.
  destruct (String.eqb_spec textResponse "") as [E|_]; [contradiction|].
  unfold bind at 1.
  pose proof (extractJsonFromResponse_pure textResponse (with_event EvFetch w)) as Hw.
  assert (Hx : fst (extractJsonFromResponse textResponse (with_event EvFetch w))
               = Return parsed).
  { rewrite <- Hextract. now apply extractJsonFromResponse_platform. }
  destruct (extractJsonFromResponse textResponse (with_event EvFetch w))
    as [o wx]. cbn in Hw, Hx. subst o wx.
  rewrite Hparse. eexists. reflexivity.
Qed.

Section TranslateOnce.
Variables (docRef : DocumentReference) (docData : Obj) (targetLanguage : string).
Variables (config : MelakaConfig) (collectionConfig : CollectionConfig).
Variable options : ProcessOptions.

Let sc := separateContent docData (cc_fields collectionConfig).
Let sourceHash := hashContent (translatable sc).
Let path := getI18nPath docRef targetLanguage.
Let aiConfig := getEffectiveAIConfig config collectionConfig.
Let schema := createTranslationSchema (translatable sc) (detectedTypes sc).

Lemma translate_and_record_valid (w : World) (response : HttpResponse)
    (data : GeminiResponse) (textResponse : string) (parsed : Value)
    (validated : Obj) :
  ai_provider aiConfig = "gemini" ->
  (exists key, ai_apiKey aiConfig = Some key /\ key <> "") ->
  fetch_reply w = Return response ->
  resp_ok response = true ->
  resp_data response = Return data ->
  first_text data = Some textResponse ->
  textResponse <> "" ->
  fst (extractJsonFromResponse textResponse w) = Return parsed ->
  safeParse schema parsed = inl (VObj validated) ->
  faults w = [] ->
  has_timestamp options (platform w) = true ->
  let record :=
    final_record validated (nonTranslatable sc)
      (mkMetadata sourceHash (resolved_timestamp options w) (ai_model aiConfig)
                  completed false) in
  translate_and_record docRef targetLanguage config collectionConfig options
                       sc sourceHash w
  = (Return (mkResult true false None),
     with_store (obj_set (store w) path record)
       (called (EvSet path record) (with_event EvFetch w))).
Proof.
  intros Hprov [key [Hkey Hkne]] Hfetch Hok Hdata Htext Hnonempty Hextract Hparse
         Hfaults Hts record.
  unfold translate_and_record. fold aiConfig schema.
  unfold bind at 1. unfold of_outcome.
  rewrite (createTranslationFacade_gemini aiConfig Hprov).
  unfold bind at 1. unfold facade_translate.
  cbn [facade_provider GeminiProvider provider_translate pc_apiKey pc_model].
  edestruct Gemini_translate_valid as [usage ->]; try eassumption.
  { unfold Gemini_isConfigured. cbn [pc_apiKey]. rewrite Hkey.
    destruct (String.eqb_spec key ""); [contradiction | reflexivity]. }
  unfold bind at 1. rewrite resolve_timestamp_returns by exact Hts.
  cbn [response_rejected tr_success tr_output truthy negb orb output_fields].
  unfold bind at 1.
  rewrite writeTranslation_ok by (cbn; now rewrite Hfaults).
  reflexivity.
Qed.

(** X19.  Two runs on unchanged content (scenario B of the
    specification): when the reply of the model validates, the first run
    returns [{success: true, skipped: false}] and replaces the record by
    the validated fields, the copied fields and a metadata with status
    [completed] and the hash of the translatable content; a second run on
    the same document is skipped after its read of the record, without a
    call to the provider.  The first run needs its timestamp (passed in
    the options, or read from the Firestore module). *)
Theorem processTranslation_translates_then_skips (w : World)
    (response : HttpResponse) (data : GeminiResponse) (textResponse : string)
    (parsed : Value) (validated : Obj) :
  translatable sc <> [] ->
  opt_true (po_forceUpdate options) = false ->
  ~ (exists (translation metadata : Obj),
       obj_get (store w) path = Some translation /\
       obj_get translation "_melaka" = Some (VObj metadata) /\
       obj_get metadata "status" = Some (VStr "completed") /\
       obj_get metadata "source_hash" = Some (VStr sourceHash)) ->
  ai_provider aiConfig = "gemini" ->
  (exists key, ai_apiKey aiConfig = Some key /\ key <> "") ->
  fetch_reply w = Return response ->
  resp_ok response = true ->
  resp_data response = Return data ->
  first_text data = Some textResponse ->
  textResponse <> "" ->
  fst (extractJsonFromResponse textResponse w) = Return parsed ->
  safeParse schema parsed = inl (VObj validated) ->
  faults w = [] ->
  has_timestamp options (platform w) = true ->
  exists w1 : World,
    processTranslation docRef docData targetLanguage config collectionConfig
                       options w = (Return (mkResult true false None), w1) /\
    obj_get (store w1) path
    = Some (final_record validated (nonTranslatable sc)
              (mkMetadata sourceHash (resolved_timestamp options w)
                          (ai_model aiConfig) completed false)) /\
    processTranslation docRef docData targetLanguage config collectionConfig
                       options w1
    = (Return (mkResult true true None), called (EvGet path) w1).
Proof.
  intros Hne Hforce Hstale Hprov Hkey Hfetch Hok Hdata Htext Hnonempty Hextract
         Hparse Hfaults Hts.
  assert (Etry : processTranslation_try docRef docData targetLanguage config
                   collectionConfig options w
                 = translate_and_record docRef targetLanguage config
                     collectionConfig options sc sourceHash
                     (called (EvGet path) w)).
  { unfold processTranslation_try.
    rewrite (nonempty_translatable docRef docData targetLanguage collectionConfig Hne),
      Hforce.
    cbn [negb]. unfold bind at 1. fold sc sourceHash.
    destruct (currency_check docRef docData targetLanguage collectionConfig w)
      as [b [E Hb]]; [now rewrite Hfaults|].
    fold sc sourceHash path in E, Hb. rewrite E.
    destruct b; [exfalso; apply Hstale; now apply Hb | reflexivity]. }
  set (w0 := called (EvGet path) w) in *.
  assert (Erun : translate_and_record docRef targetLanguage config collectionConfig
                   options sc sourceHash w0
                 = (Return (mkResult true false None),
                    with_store
                      (obj_set (store w0) path
                         (final_record validated (nonTranslatable sc)
                            (mkMetadata sourceHash (resolved_timestamp options w0)
                                        (ai_model aiConfig) completed false)))
                      (called (EvSet path
                                 (final_record validated (nonTranslatable sc)
                                    (mkMetadata sourceHash
                                       (resolved_timestamp options w0)
                                       (ai_model aiConfig) completed false)))
                              (with_event EvFetch w0)))).
  { eapply translate_and_record_valid; try eassumption.
    - rewrite <- Hextract. now apply extractJsonFromResponse_platform.
    - subst w0. cbn. now rewrite Hfaults. }
  eexists. split; [|split].
  - unfold processTranslation, try_catch. rewrite Etry, Erun. reflexivity.
  - cbn [store with_store]. rewrite obj_get_set_same. reflexivity.
  - apply current_record_is_skipped.
    + exact Hne.
    + exact Hforce.
    + subst w0. cbn. now rewrite Hfaults.
    + eexists. eexists. fold sc sourceHash path.
      cbn [store with_store]. rewrite obj_get_set_same.
      split; [reflexivity|].
      split; [unfold final_record; apply obj_get_set_same|].
      split; reflexivity.
Qed.

End TranslateOnce.

Lemma processTranslation_translates_then_skips_witness :
  let w := Scenario.world [] [] (Scenario.replyWith (Scenario.text_of Scenario.replyExact)) in
  exists w1 : World,
    processTranslation Scenario.article Scenario.articleData "ms-MY"
                       Scenario.melakaConfig Scenario.articles Scenario.noOptions w
    = (Return (mkResult true false None), w1) /\
    obj_get (store w1) "articles/a1/i18n/ms-MY" = Some Scenario.currentRecord /\
    processTranslation Scenario.article Scenario.articleData "ms-MY"
                       Scenario.melakaConfig Scenario.articles Scenario.noOptions w1
    = (Return (mkResult true true None),
       called (EvGet "articles/a1/i18n/ms-MY") w1).
Proof.
  intros w.
  destruct (processTranslation_translates_then_skips Scenario.article
              Scenario.articleData "ms-MY" Scenario.melakaConfig Scenario.articles
              Scenario.noOptions w
              (mkHttpResponse true 200 (Return (VObj []))
                 (Return (mkGeminiResponse
                            (Some [mkCandidate
                                     (Some (mkContent
                                              (Some [mkPart
                                                       (Some (Scenario.text_of
                                                                Scenario.replyExact))])))])
                            None)))
              (mkGeminiResponse
                 (Some [mkCandidate
                          (Some (mkContent
                                   (Some [mkPart
                                            (Some (Scenario.text_of
                                                     Scenario.replyExact))])))])
                 None)
              (Scenario.text_of Scenario.replyExact) (VObj Scenario.replyExact)
              [("title", VStr "Halo")])
    as [w1 [E [G S]]].
  - discriminate.
  - reflexivity.
  - intros [translation [metadata [H _]]]. discriminate H.
  - reflexivity.
  - exists "test-key". split; [reflexivity | discriminate].
  - reflexivity.
  - reflexivity.
  - reflexivity.
  - reflexivity.
  - discriminate.
  - vm_compute. reflexivity.
  - vm_compute. reflexivity.
  - reflexivity.
  - reflexivity.
  - exists w1. split; [exact E|]. split; [|exact S].
    refine (eq_trans G _). vm_compute. reflexivity.
Defined.

(** A host where the Firestore module does not load, a store whose read
    fails: without a timestamp in the options the error of the import
    reaches the caller; with one, the failure of the read is returned. *)
Lemma processTranslation_raises_only_import_witness :
  let w := mkWorld Scenario.hostWithoutFirestore [] [Some "UNAVAILABLE"]
                   (Scenario.replyWith "") 1708972800000 Scenario.now ["a1b2c3"] [] in
  let run := processTranslation Scenario.article Scenario.articleData "ms-MY"
               Scenario.melakaConfig Scenario.articles in
  fst (run Scenario.noOptions w)
  = Throw "Cannot find module 'firebase-admin/firestore'" /\
  has_timestamp Scenario.noOptions (platform w) = false /\
  fst (run (mkProcessOptions None (Some Scenario.now)) w)
  = Return (mkResult false false (Some "UNAVAILABLE")).
Proof.
  intros w run.
  destruct (run Scenario.noOptions w) as [o w'] eqn:E.
  assert (Ho : o = Throw "Cannot find module 'firebase-admin/firestore'").
  { change o with (fst (o, w')). rewrite <- E. vm_compute. reflexivity. }
  subst o. split; [reflexivity|]. split; [|vm_compute; reflexivity].
  exact (proj1 (processTranslation_raises_only_import Scenario.article
                  Scenario.articleData "ms-MY" Scenario.melakaConfig
                  Scenario.articles Scenario.noOptions w w' _ E)).
Defined.

(** ** Forced updates *)

Lemma writeTranslation_log (docRef : DocumentReference) (locale : string)
    (translatedContent nonTranslatableContent : Obj) (metadata : MelakaMetadata)
    (w : World) :
  exists (o : Outcome unit) (w' : World) (rest : list Event),
    writeTranslation docRef locale translatedContent nonTranslatableContent
                     metadata w = (o, w') /\
    log w' = (log w ++ rest)%list.
Proof.
  unfold writeTranslation, ref_set, backend_call.
  destruct w as [p s f r c t e l]. cbn.
  destruct f as [|[m|] f]; cbn; do 3 eexists; split; reflexivity.
Qed.

(** The handler appends to the log; it returns when the timestamp is at
    hand. *)
Lemma processTranslation_catch_log (docRef : DocumentReference)
    (targetLanguage : string) (options : ProcessOptions) (error : string)
    (w : World) :
  exists (o : Outcome ProcessResult) (w' : World) (rest : list Event),
    processTranslation_catch docRef targetLanguage options error w = (o, w') /\
    log w' = (log w ++ rest)%list /\
    (has_timestamp options (platform w) = true -> exists r, o = Return r).
Proof.
  destruct (has_timestamp options (platform w)) eqn:Hts.
  - rewrite processTranslation_catch_returns by exact Hts.
    destruct (markTranslationFailed_attempted docRef targetLanguage error
                (resolved_timestamp options w) w) as [o [w' [rest [E L]]]].
    rewrite E. do 3 eexists. split; [reflexivity|]. split; [exact L|].
    intros _. eexists. reflexivity.
  - destruct (resolve_timestamp_throws docRef options w Hts) as [e [_ E]].
    unfold processTranslation_catch. unfold bind at 1. rewrite E.
    exists (Throw e), w, []. split; [reflexivity|].
    split; [now rewrite app_nil_r | intros H; discriminate H].
Qed.

(** X20.  A forced update goes to the provider first: with [forceUpdate]
    set and a Gemini provider with a key, [processTranslation] on a
    document with translatable content makes the request to the model as
    its first call, without reading the record, so also when the record is
    current; with the timestamp of the run at hand it returns a result. *)
Theorem processTranslation_forced_calls_provider (docRef : DocumentReference)
    (docData : Obj) (targetLanguage : string) (config : MelakaConfig)
    (collectionConfig : CollectionConfig) (options : ProcessOptions) (w : World) :
  translatable (separateContent docData (cc_fields collectionConfig)) <> [] ->
  opt_true (po_forceUpdate options) = true ->
  ai_provider (getEffectiveAIConfig config collectionConfig) = "gemini" ->
  (exists key, ai_apiKey (getEffectiveAIConfig config collectionConfig) = Some key
               /\ key <> "") ->
  exists (o : Outcome ProcessResult) (w' : World) (rest : list Event),
    processTranslation docRef docData targetLanguage config collectionConfig
                       options w = (o, w') /\
    log w' = (log w ++ EvFetch :: rest)%list /\
    (has_timestamp options (platform w) = true -> exists r, o = Return r).
Proof.
  intros Hne Hforce Hprov [key [Hkey Hkne]].
  unfold processTranslation, try_catch, processTranslation_try.
  rewrite (nonempty_translatable docRef docData targetLanguage collectionConfig Hne),
    Hforce.
  cbn [negb]. unfold bind at 1. unfold ret at 1.
  unfold translate_and_record. unfold bind at 1. unfold of_outcome.
  rewrite (createTranslationFacade_gemini _ Hprov).
  unfold bind at 1. unfold facade_translate.
  cbn [facade_provider GeminiProvider provider_translate pc_apiKey pc_model].
  match goal with
  | |- context [Gemini_translate ?cfg ?c ?s ?t w] =>
      destruct (Gemini_translate_cases cfg c s t w) as [resp [E _]];
      assert (Hc : Gemini_isConfigured cfg = true)
  end.
  { unfold Gemini_isConfigured. cbn [pc_apiKey]. rewrite Hkey.
    destruct (String.eqb_spec key ""); [contradiction | reflexivity]. }
  rewrite Hc in E. rewrite E.
  set (w2 := with_event EvFetch w).
  assert (L2 : log w2 = (log w ++ [EvFetch])%list) by reflexivity.
  assert (P2 : platform w2 = platform w) by reflexivity.
  unfold bind at 1.
  destruct (has_timestamp options (platform w)) eqn:Hts.
  - rewrite resolve_timestamp_returns by (rewrite P2; exact Hts).
    destruct (response_rejected resp).
    + unfold bind at 1.
      pose proof (keeps_markTranslationFailed docRef targetLanguage
                    (error_or_unknown (tr_error resp))
                    (resolved_timestamp options w2) w2) as P3.
      destruct (markTranslationFailed_attempted docRef targetLanguage
                  (error_or_unknown (tr_error resp)) (resolved_timestamp options w2) w2)
        as [o [w3 [rest [Em L3]]]].
      rewrite Em in P3 |- *. cbn [snd] in P3. destruct o as [[]|e].
      * do 3 eexists. split; [reflexivity|]. split.
        -- cbn [ret snd]. rewrite L3, L2, <- app_assoc. reflexivity.
        -- intros _. eexists. reflexivity.
      * destruct (processTranslation_catch_log docRef targetLanguage options e w3)
          as [o4 [w4 [rest' [Ec [L4 R4]]]]].
        rewrite Ec. do 3 eexists. split; [reflexivity|]. split.
        -- rewrite L4, L3, L2, <- !app_assoc. reflexivity.
        -- intros _. apply R4. rewrite P3, P2. exact Hts.
    + unfold bind at 1.
      match goal with
      | |- context [writeTranslation ?a ?b ?c ?d ?e w2] =>
          pose proof (keeps_writeTranslation a b c d e w2) as P3;
          destruct (writeTranslation_log a b c d e w2) as [o [w3 [rest [Ew L3]]]]
      end.
      rewrite Ew in P3 |- *. cbn [snd] in P3. destruct o as [[]|e].
      * do 3 eexists. split; [reflexivity|]. split.
        -- cbn [ret snd]. rewrite L3, L2, <- app_assoc. reflexivity.
        -- intros _. eexists. reflexivity.
      * destruct (processTranslation_catch_log docRef targetLanguage options e w3)
          as [o4 [w4 [rest' [Ec [L4 R4]]]]].
        rewrite Ec. do 3 eexists. split; [reflexivity|]. split.
        -- rewrite L4, L3, L2, <- !app_assoc. reflexivity.
        -- intros _. apply R4. rewrite P3, P2. exact Hts.
  - destruct (resolve_timestamp_throws docRef options w2) as [e [_ Et]];
      [rewrite P2; exact Hts|].
    rewrite Et.
    destruct (processTranslation_catch_log docRef targetLanguage options e w2)
      as [o4 [w4 [rest' [Ec [L4 _]]]]].
    rewrite Ec. do 3 eexists. split; [reflexivity|]. split.
    + rewrite L4, L2, <- app_assoc. reflexivity.
    + intros H. discriminate H.
Qed.

Lemma processTranslation_forced_calls_provider_witness :
  let w := Scenario.world [("articles/a1/i18n/ms-MY", Scenario.currentRecord)] []
             (Scenario.replyWith (Scenario.text_of Scenario.replyExact)) in
  exists (r : ProcessResult) (w' : World) (rest : list Event),
    processTranslation Scenario.article Scenario.articleData "ms-MY"
      Scenario.melakaConfig Scenario.articles (mkProcessOptions (Some true) None) w
    = (Return r, w') /\
    log w' = (log w ++ EvFetch :: rest)%list.
Proof.
  intros w.
  destruct (processTranslation_forced_calls_provider Scenario.article
              Scenario.articleData "ms-MY" Scenario.melakaConfig Scenario.articles
              (mkProcessOptions (Some true) None) w)
    as [o [w' [rest [E [L R]]]]].
  - discriminate.
  - reflexivity.
  - reflexivity.
  - exists "test-key". split; [reflexivity | discriminate].
  - destruct (R eq_refl) as [r ->]. now exists r, w', rest.
Defined.

(** ** All languages *)

Lemma processAllLanguages_loop_entries (docRef : DocumentReference)
    (docData : Obj) (config : MelakaConfig) (collectionConfig : CollectionConfig)
    (options : ProcessOptions) (languages : list string) :
  forall (results : list (string * ProcessResult)) (w : World),
  has_timestamp options (platform w) = true ->
  exists (final : list (string * ProcessResult)) (w' : World),
    processAllLanguages_loop docRef docData config collectionConfig options
                             languages results w = (Return final, w') /\
    forall language,
      obj_get final language <> None <->
      (In language languages /\ language <> "__proto__") \/
      obj_get results language <> None.
Proof.
  induction languages as [|l rest IH]; intros results w Hts.
  - exists results, w. split; [reflexivity|]. intros language. cbn. tauto.
  - cbn [processAllLanguages_loop]. unfold bind at 1.
    pose proof (keeps_processTranslation docRef docData l config collectionConfig
                  options w) as Hp.
    destruct (processTranslation_returns docRef docData l config collectionConfig
                options w Hts) as [r [w1 E]].
    rewrite E in Hp |- *. cbn [snd] in Hp.
    destruct (IH (obj_assign results l r) w1) as [final [w' [E' H]]];
      [now rewrite Hp|].
    exists final, w'. split; [exact E'|].
    intros language. rewrite H, obj_get_assign. cbn [In].
    destruct (String.eqb_spec l language) as [->|Hne]; cbn [andb].
    + destruct (String.eqb_spec language "__proto__") as [->|Hn]; cbn [negb].
      * tauto.
      * split; [intros _; left; auto | intros _; right; discriminate].
    + tauto.
Qed.

(** X21.  With the timestamp of the runs at hand, [processAllLanguages]
    returns a result for every configured language and for no other,
    whatever the store and the provider do: a failure for one language
    does not stop the loop nor make it throw.  A language named
    [__proto__] gets no entry: the assignment [results[language] = ...]
    creates no property under that name. *)
Theorem processAllLanguages_entries (docRef : DocumentReference) (docData : Obj)
    (config : MelakaConfig) (collectionConfig : CollectionConfig)
    (options : ProcessOptions) (w : World) :
  has_timestamp options (platform w) = true ->
  exists (results : list (string * ProcessResult)) (w' : World),
    processAllLanguages docRef docData config collectionConfig options w
    = (Return results, w') /\
    forall language,
      obj_get results language <> None <->
      In language (mc_languages config) /\ language <> "__proto__".
Proof.
  intros Hts. unfold processAllLanguages.
  destruct (processAllLanguages_loop_entries docRef docData config collectionConfig
              options (mc_languages config) [] w Hts) as [final [w' [E H]]].
  exists final, w'. split; [exact E|].
  intros language. rewrite H. cbn. tauto.
Qed.

(** The store fails on every call: each of the three languages has its
    failure result. *)
Lemma processAllLanguages_entries_witness :
  let w := Scenario.world [] (repeat (Some "UNAVAILABLE") 9) (Scenario.replyWith "") in
  exists (results : list (string * ProcessResult)) (w' : World),
    processAllLanguages Scenario.article Scenario.articleData Scenario.melakaConfig
                        Scenario.articles Scenario.noOptions w
    = (Return results, w') /\
    obj_get results "zh-CN" <> None /\ obj_get results "fr-FR" = None.
Proof.
  intros w.
  destruct (processAllLanguages_entries Scenario.article Scenario.articleData
              Scenario.melakaConfig Scenario.articles Scenario.noOptions w eq_refl)
    as [results [w' [E H]]].
  exists results, w'. split; [exact E|]. split.
  - apply H. split; [right; now left | discriminate].
  - destruct (obj_get results "fr-FR") eqn:G; [|reflexivity].
    exfalso. assert (X : obj_get results "fr-FR" <> None) by (rewrite G; discriminate).
    apply H in X. destruct X as [[X|[X|[X|[]]]] _]; discriminate X.
Defined.

(** ** The tasks of a collection *)

Lemma generateBatchId_world (w : World) :
  exists w', generateBatchId w =
             (Return ("batch_" ++ Number_toString (clock_ms w) ++ "_"
                      ++ hd "" (entropy w)), w') /\
             log w' = log w /\ faults w' = faults w /\ store w' = store w.
Proof.
  unfold generateBatchId, bind, Date_now, Math_random36, ret.
  destruct w as [p s f r c t e l]. cbn.
  destruct e as [|x e]; cbn; eexists; (split; [reflexivity|]); repeat split.
Qed.

Lemma query_listed (collectionConfig : CollectionConfig) (w : World) :
  (if opt_true (cc_isCollectionGroup collectionConfig)
   then query_get (cc_path collectionConfig)
                  (in_collection_group (cc_path collectionConfig))
   else query_get (cc_path collectionConfig)
                  (in_collection (cc_path collectionConfig))) w
  = backend_call (EvGet (cc_path collectionConfig))
      (fun w0 => (Return (listed_docs collectionConfig (store w0)), w0)) w.
Proof.
  unfold listed_docs, query_get.
  destruct (opt_true (cc_isCollectionGroup collectionConfig)); reflexivity.
Qed.

Lemma enqueue_docs_counts (collectionConfig : CollectionConfig)
    (options : EnqueueOptions) (theBatchId : string) (staggerDelay : Z)
    (languages docs : list string) :
  forall (i : Z) (acc : EnqueueResult) (w : World),
  exists (r : EnqueueResult) (w' : World),
    enqueue_docs collectionConfig options theBatchId staggerDelay languages docs
                 i acc w = (Return r, w') /\
    er_batchId r = er_batchId acc /\
    tasksEnqueued acc <= tasksEnqueued r /\
    er_failed acc <= er_failed r /\
    tasksEnqueued r + er_failed r
    = tasksEnqueued acc + er_failed acc
      + Z.of_nat (length docs * length languages) /\
    Z.of_nat (length (errors r)) - er_failed r
    = Z.of_nat (length (errors acc)) - er_failed acc.
Proof.
  induction docs as [|doc rest IH]; intros i acc w.
  - exists acc, w. cbn. repeat split; lia.
  - cbn [enqueue_docs]. unfold bind at 1.
    match goal with
    | |- context [enqueue_loop ?a ?b ?c ?d ?e ?f ?g i acc w] =>
        destruct (enqueue_loop_counts a b c d e f g i acc w)
          as [r1 [w1 [E1 [B1 [T1 [F1 [S1 L1]]]]]]]
    end.
    rewrite E1.
    destruct (IH (i + Z.of_nat (length languages)) r1 w1)
      as [r [w' [E [B [T [F [S L]]]]]]].
    exists r, w'. split; [exact E|]. cbn [length Nat.mul].
    repeat split; try lia. congruence.
Qed.

(** X22.  When the listing of the collection goes through,
    [enqueueCollectionTranslation] returns for every task queue, whichever
    of its calls throw, and counts every pair of a listed document and a
    configured language once: [tasksEnqueued + failed] is the number of
    documents times the number of languages, and [errors] has one entry
    per failed enqueue. *)
Theorem enqueueCollectionTranslation_counts (config : MelakaConfig)
    (collectionConfig : CollectionConfig) (options : EnqueueOptions) (w : World) :
  hd None (faults w) = None ->
  exists (r : EnqueueResult) (w' : World),
    enqueueCollectionTranslation config collectionConfig options w
    = (Return r, w') /\
    0 <= tasksEnqueued r /\ 0 <= er_failed r /\
    tasksEnqueued r + er_failed r
    = Z.of_nat (length (listed_docs collectionConfig (store w))
                * length (mc_languages config)) /\
    Z.of_nat (length (errors r)) = er_failed r.
Proof.
  intros Hf. unfold enqueueCollectionTranslation, bind at 1.
  destruct (generateBatchId_world w) as [w0 [-> [_ [F0 S0]]]].
  unfold bind at 1. rewrite query_listed.
  rewrite backend_call_ok by now rewrite F0.
  change (store (called (EvGet (cc_path collectionConfig)) w0)) with (store w0).
  rewrite S0.
  match goal with
  | |- context [enqueue_docs ?a ?b ?c ?d ?e ?f 0 ?acc ?w1] =>
      destruct (enqueue_docs_counts a b c d e f 0 acc w1)
        as [r [w' [E [_ [T [F [S L]]]]]]]
  end.
  exists r, w'. cbn in *. rewrite E. repeat split; lia.
Qed.

Lemma enqueueCollectionTranslation_counts_witness :
  let w := Scenario.world [("articles/a1", Scenario.articleData);
                           ("articles/a1/i18n/ms-MY", Scenario.currentRecord);
                           ("articles/a2", Scenario.articleData)]
                          [None; None; Some "DEADLINE_EXCEEDED"]
                          (Scenario.replyWith "") in
  exists (r : EnqueueResult) (w' : World),
    enqueueCollectionTranslation Scenario.melakaConfig Scenario.articles
      (mkEnqueueOptions transport_queue None) w = (Return r, w') /\
    tasksEnqueued r + er_failed r = 6 /\ er_failed r = 1.
Proof.
  intros w.
  destruct (enqueueCollectionTranslation_counts Scenario.melakaConfig
              Scenario.articles (mkEnqueueOptions transport_queue None) w eq_refl)
    as [r [w' [E [_ [_ [S _]]]]]].
  exists r, w'. split; [exact E|]. split; [exact S|].
  assert (R : fst (enqueueCollectionTranslation Scenario.melakaConfig
                     Scenario.articles (mkEnqueueOptions transport_queue None) w)
              = Return r) by now rewrite E.
  vm_compute in R. now inversion R.
Defined.

(** X23.  A failure of the listing is not caught: when the query of the
    collection fails, [enqueueCollectionTranslation] throws the error of
    the store, and the query is the only call it made. *)
Theorem enqueueCollectionTranslation_listing_fails (config : MelakaConfig)
    (collectionConfig : CollectionConfig) (options : EnqueueOptions) (w : World)
    (e : string) :
  hd None (faults w) = Some e ->
  exists w',
    enqueueCollectionTranslation config collectionConfig options w = (Throw e, w') /\
    log w' = (log w ++ [EvGet (cc_path collectionConfig)])%list.
Proof.
  intros Hf. unfold enqueueCollectionTranslation, bind at 1.
  destruct (generateBatchId_world w) as [w0 [-> [L0 [F0 _]]]].
  unfold bind at 1. rewrite query_listed.
  rewrite (backend_call_fault _ _ _ e) by now rewrite F0.
  eexists. split; [reflexivity|]. cbn. now rewrite L0.
Qed.

Lemma enqueueCollectionTranslation_listing_fails_witness :
  exists w',
    enqueueCollectionTranslation Scenario.melakaConfig Scenario.articles
      (mkEnqueueOptions transport_queue None)
      (Scenario.world [("articles/a1", Scenario.articleData)] [Some "UNAVAILABLE"]
                      (Scenario.replyWith "")) = (Throw "UNAVAILABLE", w') /\
    log w' = [EvGet "articles"].
Proof.
  apply (enqueueCollectionTranslation_listing_fails Scenario.melakaConfig
           Scenario.articles (mkEnqueueOptions transport_queue None)
           (Scenario.world [("articles/a1", Scenario.articleData)]
                           [Some "UNAVAILABLE"] (Scenario.replyWith ""))
           "UNAVAILABLE").
  reflexivity.
Defined.

Lemma delays_app (a b : list Event) :
  Scenario.delays (a ++ b) = (Scenario.delays a ++ Scenario.delays b)%list.
Proof. unfold Scenario.delays. apply flat_map_app. Qed.

Lemma batchIds_app (a b : list Event) :
  Scenario.batchIds (a ++ b) = (Scenario.batchIds a ++ Scenario.batchIds b)%list.
Proof. unfold Scenario.batchIds. apply flat_map_app. Qed.

Lemma handed_delays (collectionPath documentId : string)
    (collectionConfig : CollectionConfig) (theBatchId : string)
    (staggerDelay : Z) (languages : list string) :
  forall i : Z,
    Scenario.delays (handed collectionPath documentId collectionConfig theBatchId
                            staggerDelay languages i)
    = map (fun k => ((i + Z.of_nat k) * staggerDelay) / 1000)
          (seq 0 (length languages)) /\
    Scenario.batchIds (handed collectionPath documentId collectionConfig
                              theBatchId staggerDelay languages i)
    = repeat theBatchId (length languages).
Proof.
  induction languages as [|l rest IH]; intros i; [split; reflexivity|].
  destruct (IH (i + 1)) as [D B].
  cbn [handed length seq map repeat]. split.
  - change (Scenario.delays (?x :: ?y)) with (Scenario.delays ([x] ++ y)).
    rewrite delays_app, D. cbn [Scenario.delays flat_map app].
    unfold scheduleDelaySeconds. rewrite Z.add_0_r. f_equal.
    rewrite <- seq_shift, map_map. apply map_ext. intros k. f_equal. f_equal. lia.
  - change (Scenario.batchIds (?x :: ?y)) with (Scenario.batchIds ([x] ++ y)).
    rewrite batchIds_app, B. reflexivity.
Qed.

Lemma map_seq_from {A : Type} (g : nat -> A) (m : nat) :
  forall a : nat, map g (seq a m) = map (fun k => g (a + k)%nat) (seq 0 m).
Proof.
  induction m as [|m IH]; intros a; [reflexivity|].
  cbn [seq map]. rewrite Nat.add_0_r. f_equal.
  rewrite (IH (S a)), <- (seq_shift m 0), map_map.
  apply map_ext. intros k. f_equal. lia.
Qed.

Lemma handed_docs_delays (collectionConfig : CollectionConfig)
    (theBatchId : string) (staggerDelay : Z) (languages docs : list string) :
  forall i : Z,
    Scenario.delays (handed_docs collectionConfig theBatchId staggerDelay
                                 languages docs i)
    = map (fun k => ((i + Z.of_nat k) * staggerDelay) / 1000)
          (seq 0 (length docs * length languages)) /\
    Scenario.batchIds (handed_docs collectionConfig theBatchId staggerDelay
                                   languages docs i)
    = repeat theBatchId (length docs * length languages).
Proof.
  induction docs as [|doc rest IH]; intros i; [split; reflexivity|].
  destruct (IH (i + Z.of_nat (length languages))) as [D B].
  cbn [handed_docs length Nat.mul].
  match goal with
  | |- context [handed ?a ?b ?c ?d ?e ?f i] =>
      destruct (handed_delays a b c d e f i) as [D1 B1]
  end.
  split.
  - rewrite delays_app, D1, D, seq_app, map_app. f_equal. cbn [Nat.add].
    rewrite (map_seq_from _ _ (length languages)).
    apply map_ext. intros k. f_equal. f_equal. lia.
  - rewrite batchIds_app, B1, B. symmetry. apply repeat_app.
Qed.

Lemma enqueue_docs_handed (collectionConfig : CollectionConfig)
    (stagger : option Z) (theBatchId : string) (staggerDelay : Z)
    (languages docs : list string) :
  forall (i : Z) (acc : EnqueueResult) (w : World),
  exists (r : EnqueueResult) (w' : World),
    enqueue_docs collectionConfig (mkEnqueueOptions transport_queue stagger)
                 theBatchId staggerDelay languages docs i acc w = (Return r, w') /\
    er_batchId r = er_batchId acc /\
    log w' = (log w ++ handed_docs collectionConfig theBatchId staggerDelay
                                   languages docs i)%list.
Proof.
  induction docs as [|doc rest IH]; intros i acc w.
  - exists acc, w. cbn. now rewrite app_nil_r.
  - cbn [enqueue_docs handed_docs]. unfold bind at 1.
    match goal with
    | |- context [enqueue_loop ?a ?b ?c _ ?e ?f ?g i acc w] =>
        destruct (enqueue_loop_handed a b c stagger e f g i acc w)
          as [r1 [w1 [E1 [B1 L1]]]]
    end.
    rewrite E1.
    destruct (IH (i + Z.of_nat (length languages)) r1 w1) as [r [w' [E [B L]]]].
    exists r, w'. split; [exact E|]. split; [congruence|].
    now rewrite L, L1, <- app_assoc.
Qed.

Lemma handed_docs_length (collectionConfig : CollectionConfig)
    (theBatchId : string) (staggerDelay : Z) (languages docs : list string) :
  forall i0 : Z,
    length (handed_docs collectionConfig theBatchId staggerDelay languages docs i0)
    = (length docs * length languages)%nat.
Proof.
  induction docs as [|doc rest IH]; intros i0; cbn [handed_docs length Nat.mul];
    [reflexivity|].
  now rewrite length_app, handed_length, IH.
Qed.

(** The task of the document at index [d] and the language at index [l]
    is the one at index [d * n + l], for [n] languages. *)
Lemma handed_docs_nth (collectionConfig : CollectionConfig)
    (theBatchId : string) (staggerDelay : Z) (languages docs : list string) :
  forall (i0 : Z) (d l : nat) (doc language : string),
    nth_error docs d = Some doc ->
    nth_error languages l = Some language ->
    nth_error (handed_docs collectionConfig theBatchId staggerDelay languages docs i0)
              (d * length languages + l)
    = Some (EvEnqueue
              (mkPayload (if opt_true (cc_isCollectionGroup collectionConfig)
                          then doc_parent doc else cc_path collectionConfig)
                         (doc_id doc) language collectionConfig theBatchId)
              (((i0 + Z.of_nat (d * length languages + l)) * staggerDelay) / 1000)).
Proof.
  induction docs as [|doc0 rest IH]; intros i0 [|d] l doc language Hd Hl;
    try discriminate Hd.
  - cbn in Hd. inversion Hd; subst doc0. cbn [handed_docs Nat.mul Nat.add].
    rewrite nth_error_app1
      by (rewrite handed_length; apply nth_error_Some; congruence).
    now apply handed_nth.
  - cbn [nth_error] in Hd. cbn [handed_docs].
    rewrite nth_error_app2; rewrite handed_length; [|cbn [Nat.mul]; lia].
    replace (S d * length languages + l - length languages)%nat
      with (d * length languages + l)%nat by (cbn [Nat.mul]; lia).
    rewrite (IH _ d l doc language Hd Hl). do 3 f_equal. cbn [Nat.mul]. lia.
Qed.

(** X24.  After the query, [enqueueCollectionTranslation] hands one task
    per listed document and configured language to the transport,
    document by document and language by language, whether or not the
    transport fails on some of them.  For [n] languages, the task at index
    [d * n + l] is the one of the [d]-th document and the [l]-th
    language: its payload has the document's identifier, the path of the
    document's collection (of its parent, for a collection group), the
    language, the collection's configuration and the batch identifier of
    the result; the stagger runs over all the tasks of the batch, the
    task at index [k] being scheduled with a delay of
    [floor (k * staggerDelayMs / 1000)] seconds. *)
Theorem enqueueCollectionTranslation_tasks (config : MelakaConfig)
    (collectionConfig : CollectionConfig) (stagger : option Z) (w : World) :
  hd None (faults w) = None ->
  let options := mkEnqueueOptions transport_queue stagger in
  let docs := listed_docs collectionConfig (store w) in
  let languages := mc_languages config in
  let n := (length docs * length languages)%nat in
  exists (r : EnqueueResult) (w' : World) (tasks : list Event),
    enqueueCollectionTranslation config collectionConfig options w
    = (Return r, w') /\
    er_batchId r = "batch_" ++ Number_toString (clock_ms w) ++ "_"
                   ++ hd "" (entropy w) /\
    log w' = (log w ++ EvGet (cc_path collectionConfig) :: tasks)%list /\
    length tasks = n /\
    (forall (d l : nat) (doc language : string),
       nth_error docs d = Some doc ->
       nth_error languages l = Some language ->
       nth_error tasks (d * length languages + l)
       = Some (EvEnqueue
                 (mkPayload (if opt_true (cc_isCollectionGroup collectionConfig)
                             then doc_parent doc else cc_path collectionConfig)
                            (doc_id doc) language collectionConfig (er_batchId r))
                 ((Z.of_nat (d * length languages + l) * staggerDelay_of options)
                  / 1000))) /\
    Scenario.delays tasks
    = map (fun k => (Z.of_nat k * staggerDelay_of options) / 1000) (seq 0 n) /\
    Scenario.batchIds tasks = repeat (er_batchId r) n.
Proof.
  intros Hf options docs languages n.
  unfold enqueueCollectionTranslation, bind at 1.
  destruct (generateBatchId_world w) as [w0 [-> [L0 [F0 S0]]]].
  set (b := "batch_" ++ Number_toString (clock_ms w) ++ "_" ++ hd "" (entropy w)).
  unfold bind at 1. rewrite query_listed.
  rewrite backend_call_ok by now rewrite F0.
  change (store (called (EvGet (cc_path collectionConfig)) w0)) with (store w0).
  rewrite S0. fold docs languages.
  destruct (enqueue_docs_handed collectionConfig stagger b (staggerDelay_of options)
              languages docs 0 (mkEnqueueResult b 0 0 [])
              (called (EvGet (cc_path collectionConfig)) w0))
    as [r [w' [E [B L]]]].
  cbn in B.
  exists r, w'.
  exists (handed_docs collectionConfig b (staggerDelay_of options) languages docs 0).
  split; [exact E|]. split; [exact B|]. split.
  { rewrite L. cbn [log called with_faults with_event]. rewrite L0.
    now rewrite <- app_assoc. }
  split; [apply handed_docs_length|]. split.
  { intros d l doc language Hd Hl. rewrite B.
    now rewrite (handed_docs_nth collectionConfig b (staggerDelay_of options)
                   languages docs 0 d l doc language Hd Hl). }
  rewrite B.
  exact (handed_docs_delays collectionConfig b (staggerDelay_of options)
           languages docs 0).
Qed.

(** Two articles, three languages, a stagger of 400 ms: the fifth task is
    the one of the second article in Chinese. *)
Lemma enqueueCollectionTranslation_tasks_witness :
  let w := Scenario.world [("articles/a1", Scenario.articleData);
                           ("articles/a2", Scenario.articleData)] []
                          (Scenario.replyWith "") in
  exists (r : EnqueueResult) (w' : World) (tasks : list Event),
    enqueueCollectionTranslation Scenario.melakaConfig Scenario.articles
      (mkEnqueueOptions transport_queue (Some 400)) w = (Return r, w') /\
    log w' = EvGet "articles" :: tasks /\
    nth_error tasks 4
    = Some (EvEnqueue (mkPayload "articles" "a2" "zh-CN" Scenario.articles
                                 "batch_1708972800000_a1b2c3") 1) /\
    Scenario.delays tasks = [0; 0; 0; 1; 1; 2].
Proof.
  intros w.
  destruct (enqueueCollectionTranslation_tasks Scenario.melakaConfig
              Scenario.articles (Some 400) w eq_refl)
    as [r [w' [tasks [E [B [L [_ [N [D _]]]]]]]]].
  exists r, w', tasks. split; [exact E|]. split; [exact L|]. split.
  - etransitivity;
      [exact (N 1%nat 1%nat "articles/a2" "zh-CN" eq_refl eq_refl)|].
    rewrite B. reflexivity.
  - rewrite D. vm_compute. reflexivity.
Defined.

(** ** Failures of the transport *)

Lemma enqueue_loop_failures (collectionPath documentId : string)
    (collectionConfig : CollectionConfig) (stagger : option Z)
    (theBatchId : string) (staggerDelay : Z) (languages : list string) :
  forall (i : Z) (acc : EnqueueResult) (w : World),
  exists (r : EnqueueResult) (w' : World),
    enqueue_loop collectionPath documentId collectionConfig
                 (mkEnqueueOptions transport_queue stagger) theBatchId
                 staggerDelay languages i acc w = (Return r, w') /\
    er_failed r
    = er_failed acc
      + Z.of_nat (length (filter is_fault (firstn (length languages) (faults w)))).
Proof.
  induction languages as [|language rest IH]; intros i acc w.
  - exists acc, w. cbn. split; [reflexivity | lia].
  - cbn [enqueue_loop queue]. unfold bind at 1. rewrite transport_step.
    match goal with
    | |- context [enqueue_loop _ _ _ _ _ _ rest (i + 1) ?a ?w1] =>
        destruct (IH (i + 1) a w1) as [r [w' [E F]]]
    end.
    exists r, w'. split; [exact E|]. rewrite F.
    cbn [faults called with_faults with_event length firstn].
    destruct (faults w) as [|[m|] fs]; cbn [hd tl firstn filter is_fault length er_failed].
    + destruct (length rest); cbn; lia.
    + lia.
    + lia.
Qed.

(** X25.  With a transport that fails some calls, the [failed] count of
    [enqueueDocumentTranslation] is the number of calls that the transport
    failed, and [tasksEnqueued] the number of the others. *)
Theorem enqueueDocumentTranslation_failures (collectionPath documentId : string)
    (config : MelakaConfig) (collectionConfig : CollectionConfig)
    (stagger : option Z) (w : World) :
  let failures :=
    length (filter is_fault (firstn (length (mc_languages config)) (faults w))) in
  exists (r : EnqueueResult) (w' : World),
    enqueueDocumentTranslation collectionPath documentId config collectionConfig
      (mkEnqueueOptions transport_queue stagger) w = (Return r, w') /\
    er_failed r = Z.of_nat failures /\
    tasksEnqueued r = Z.of_nat (length (mc_languages config)) - Z.of_nat failures.
Proof.
  intros failures. unfold enqueueDocumentTranslation, bind at 1.
  destruct (generateBatchId_world w) as [w0 [-> [_ [F0 _]]]].
  match goal with
  | |- context [enqueue_loop ?a ?b ?c _ ?e ?f ?g 0 ?acc w0] =>
      destruct (enqueue_loop_failures a b c stagger e f g 0 acc w0) as [r [w' [E F]]];
      destruct (enqueue_loop_counts a b c (mkEnqueueOptions transport_queue stagger)
                  e f g 0 acc w0) as [r' [w'' [E' [_ [_ [_ [S _]]]]]]]
  end.
  rewrite E in E'. inversion E'; subst r' w''.
  exists r, w'. split; [exact E|]. rewrite F0 in F. cbn in F, S.
  fold failures in F. split; lia.
Qed.

(** ** The task handler *)

Section Handler.
Variable validate : Value -> TranslationTaskPayload + string.
Variables (payload : Value) (context : TaskHandlerContext).
Variable taskPayload : TranslationTaskPayload.
Hypothesis Hvalid : validate payload = inl taskPayload.

Let documentPath : string :=
  collectionPath taskPayload ++ "/" ++ documentId taskPayload.

(** X26.  A task for a document that was deleted (scenario D of the
    specification): the handler returns [{success: true, skipped: true}]
    after the read of the document; it is not a failure, and nothing is
    written nor translated. *)
Theorem handleTranslationTask_deleted_document (w : World) :
  hd None (faults w) = None ->
  obj_get (store w) documentPath = None ->
  handleTranslationTask validate payload context w
  = (Return (mkResult true true (Some "Document no longer exists")),
     called (EvGet documentPath) w).
Proof.
  intros Hf Hnone. unfold handleTranslationTask. rewrite Hvalid.
  unfold bind, ref_get. rewrite (backend_call_ok _ _ _ Hf).
  cbn [ref_path]. fold documentPath.
  change (store (called (EvGet documentPath) w)) with (store w).
  rewrite Hnone. reflexivity.
Qed.

(** X27.  A task for a collection that the live configuration does not
    have is a failure that makes no attempt: the handler returns
    [{success: false, skipped: false}] with the path of the collection in
    the error, whatever configuration the payload carries, after the read
    of the document; nothing is written nor translated. *)
Theorem handleTranslationTask_unconfigured (w : World) (docData : Obj) :
  hd None (faults w) = None ->
  obj_get (store w) documentPath = Some docData ->
  (forall c, In c (mc_collections (ctx_config context)) ->
             cc_path c <> collectionPath taskPayload) ->
  handleTranslationTask validate payload context w
  = (Return (mkResult false false
               (Some ("Collection not configured: " ++ collectionPath taskPayload))),
     called (EvGet documentPath) w).
Proof.
  intros Hf Hdoc Hnone. unfold handleTranslationTask. rewrite Hvalid.
  unfold bind, ref_get. rewrite (backend_call_ok _ _ _ Hf).
  cbn [ref_path]. fold documentPath.
  change (store (called (EvGet documentPath) w)) with (store w).
  rewrite Hdoc. cbn [snap_exists snap_data negb].
  assert (E : findCollectionConfig (ctx_config context) (collectionPath taskPayload)
              = None).
  { unfold findCollectionConfig.
    destruct (find _ _) as [c|] eqn:Ef; [|reflexivity].
    apply find_some in Ef as [I P]. apply String.eqb_eq in P.
    exfalso. exact (Hnone c I P). }
  rewrite E. reflexivity.
Qed.

(** X28.  The handler throws when the read of the document fails: the
    error of the store goes to the transport.  Once the document is read,
    every outcome is a result, provided the Firestore module loads: the
    handler passes no timestamp to the pipeline, which reads it from the
    module. *)
Theorem handleTranslationTask_throws_iff (w : World) :
  match hd None (faults w) with
  | Some e =>
      exists w', handleTranslationTask validate payload context w = (Throw e, w')
  | None =>
      import_firestore (platform w) = None ->
      exists r w', handleTranslationTask validate payload context w = (Return r, w')
  end.
Proof.
  unfold handleTranslationTask. rewrite Hvalid. unfold bind, ref_get.
  destruct (hd None (faults w)) as [e|] eqn:Hf.
  - rewrite (backend_call_fault _ _ _ e Hf). eexists. reflexivity.
  - intros Himport. rewrite (backend_call_ok _ _ _ Hf). cbn [ref_path].
    destruct (obj_get _ _) as [docData|]; cbn [snap_exists snap_data negb];
      [|eexists; eexists; reflexivity].
    destruct (findCollectionConfig _ _) as [c|];
      [|eexists; eexists; reflexivity].
    apply processTranslation_returns.
    unfold has_timestamp. cbn [po_timestamp orb].
    change (platform (called _ w)) with (platform w). now rewrite Himport.
Qed.

End Handler.

Lemma handleTranslationTask_deleted_document_witness :
  let tp := mkPayload "articles" "a9" "ms-MY" Scenario.articles "batch_1_x" in
  let w := Scenario.world [("articles/a1", Scenario.articleData)] []
                          (Scenario.replyWith "") in
  handleTranslationTask (fun _ => inl tp) VNull
    (mkContext Scenario.melakaConfig "test-key") w
  = (Return (mkResult true true (Some "Document no longer exists")),
     called (EvGet "articles/a9") w).
Proof.
  intros tp w.
  apply (handleTranslationTask_deleted_document (fun _ => inl tp) VNull
           (mkContext Scenario.melakaConfig "test-key") tp eq_refl w);
    reflexivity.
Defined.

Lemma handleTranslationTask_unconfigured_witness :
  let tp := mkPayload "products" "p1" "ms-MY" Scenario.articles "batch_1_x" in
  let w := Scenario.world [("products/p1", Scenario.articleData)] []
                          (Scenario.replyWith "") in
  handleTranslationTask (fun _ => inl tp) VNull
    (mkContext Scenario.melakaConfig "test-key") w
  = (Return (mkResult false false (Some "Collection not configured: products")),
     called (EvGet "products/p1") w).
Proof.
  intros tp w.
  apply (handleTranslationTask_unconfigured (fun _ => inl tp) VNull
           (mkContext Scenario.melakaConfig "test-key") tp eq_refl w
           Scenario.articleData).
  - reflexivity.
  - reflexivity.
  - intros c [<-|[]]. discriminate.
Defined.

(** A read that fails is thrown; with the document read and the module
    loaded, the handler returns a result. *)
Lemma handleTranslationTask_throws_iff_witness :
  let tp := mkPayload "articles" "a1" "ms-MY" Scenario.articles "batch_1_x" in
  let handle := handleTranslationTask (fun _ => inl tp) VNull
                  (mkContext Scenario.melakaConfig "test-key") in
  (exists w',
     handle (Scenario.world [("articles/a1", Scenario.articleData)]
                            [Some "UNAVAILABLE"] (Scenario.replyWith ""))
     = (Throw "UNAVAILABLE", w')) /\
  (exists r w',
     handle (Scenario.world [("articles/a1", Scenario.articleData)]
                            [None; Some "UNAVAILABLE"] (Scenario.replyWith ""))
     = (Return r, w')).
Proof.
  intros tp handle. split.
  - exact (handleTranslationTask_throws_iff (fun _ => inl tp) VNull
             (mkContext Scenario.melakaConfig "test-key") tp eq_refl
             (Scenario.world [("articles/a1", Scenario.articleData)]
                             [Some "UNAVAILABLE"] (Scenario.replyWith ""))).
  - exact (handleTranslationTask_throws_iff (fun _ => inl tp) VNull
             (mkContext Scenario.melakaConfig "test-key") tp eq_refl
             (Scenario.world [("articles/a1", Scenario.articleData)]
                             [None; Some "UNAVAILABLE"] (Scenario.replyWith ""))
             eq_refl).
Defined.

(** ** The fingerprint *)

Lemma string_length_app (a b : string) :
  String.length (a ++ b) = (String.length a + String.length b)%nat.
Proof.
  induction a as [|c a IH]; [reflexivity|]. cbn. now rewrite IH.
Qed.

Lemma string_length_of_list (l : list ascii) :
  String.length (string_of_list_ascii l) = length l.
Proof.
  induction l as [|c l IH]; [reflexivity|]. cbn. now rewrite IH.
Qed.

Lemma be_bytes_spec (n : nat) :
  forall x : Z, length (Sha256.be_bytes n x) = n /\
                Forall (fun b => 0 <= b < 256) (Sha256.be_bytes n x).
Proof.
  induction n as [|n IH]; intros x; [split; [reflexivity | constructor]|].
  cbn [Sha256.be_bytes]. destruct (IH (x / 256)) as [L F]. split.
  - rewrite length_app, L. cbn. lia.
  - apply Forall_app. split; [exact F|].
    constructor; [|constructor]. apply Z.mod_pos_bound. lia.
Qed.

Lemma hex_digit_is_hex (n : Z) : 0 <= n < 16 -> is_lower_hex (hex_digit n) = true.
Proof.
  intros H.
  assert (A : forallb (fun k => is_lower_hex (hex_digit (Z.of_nat k))) (seq 0 16) = true)
    by reflexivity.
  rewrite forallb_forall in A.
  rewrite <- (Z2Nat.id n) by lia. apply A, in_seq. lia.
Qed.

Lemma hex_of_word_spec (x : Z) :
  String.length (Sha256.hex_of_word x) = 8%nat /\
  forallb is_lower_hex (list_ascii_of_string (Sha256.hex_of_word x)) = true.
Proof.
  unfold Sha256.hex_of_word.
  destruct (be_bytes_spec 4 x) as [L F].
  destruct (Sha256.be_bytes 4 x) as [|b0 [|b1 [|b2 [|b3 [|b4 l]]]]];
    try discriminate L.
  rewrite list_ascii_of_string_of_list_ascii, string_length_of_list.
  split; [reflexivity|].
  inversion F as [|? ? H0 F0]; subst. inversion F0 as [|? ? H1 F1]; subst.
  inversion F1 as [|? ? H2 F2]; subst. inversion F2 as [|? ? H3 F3]; subst.
  cbn [flat_map app forallb].
  rewrite !hex_digit_is_hex; try reflexivity;
    try (split; [apply Z.div_pos; lia | apply Z.div_lt_upper_bound; lia]);
    try (apply Z.mod_pos_bound; lia).
Qed.

Lemma round_length (st : list Z) (kw : Z * Z) :
  length st = 8%nat -> length (Sha256.round st kw) = 8%nat.
Proof.
  intros H.
  destruct st as [|a [|b [|c [|d [|e [|f [|g [|h [|i l]]]]]]]]]; try discriminate H.
  reflexivity.
Qed.

Lemma compress_length (h block : list Z) :
  length h = 8%nat -> length (Sha256.compress h block) = 8%nat.
Proof.
  intros H. unfold Sha256.compress.
  rewrite length_map, length_combine.
  assert (R : forall kws st, length st = 8%nat ->
                length (fold_left Sha256.round kws st) = 8%nat).
  { induction kws as [|kw kws IH]; intros st Hs; [exact Hs|].
    cbn. apply IH. now apply round_length. }
  rewrite (R _ h H), H. reflexivity.
Qed.

Lemma digest_words_length (blocks : list (list Z)) :
  forall h, length h = 8%nat ->
            length (fold_left Sha256.compress blocks h) = 8%nat.
Proof.
  induction blocks as [|b bs IH]; intros h H; [exact H|].
  cbn. apply IH. now apply compress_length.
Qed.

Lemma concat_hex_words (ws : list Z) :
  String.length (String.concat "" (map Sha256.hex_of_word ws)) = (8 * length ws)%nat /\
  forallb is_lower_hex
    (list_ascii_of_string (String.concat "" (map Sha256.hex_of_word ws))) = true.
Proof.
  induction ws as [|x ws [IHl IHh]]; [split; reflexivity|].
  destruct (hex_of_word_spec x) as [L H].
  assert (E : String.concat "" (map Sha256.hex_of_word (x :: ws))
              = Sha256.hex_of_word x ++ String.concat "" (map Sha256.hex_of_word ws)).
  { cbn [map String.concat]. destruct (map Sha256.hex_of_word ws) eqn:Em.
    - cbn. clear. induction (Sha256.hex_of_word x) as [|c s IH]; [reflexivity|].
      cbn. now f_equal.
    - reflexivity. }
  rewrite E, string_length_app, L, IHl. split; [cbn [length]; lia|].
  assert (A : forall a b, list_ascii_of_string (a ++ b)
                          = (list_ascii_of_string a ++ list_ascii_of_string b)%list).
  { induction a as [|c a IH]; intros b; [reflexivity|]. cbn. now rewrite IH. }
  rewrite A, forallb_app, H, IHh. reflexivity.
Qed.

(** X29.  The fingerprint of any content map is a string of sixty-four
    lower-case hexadecimal digits; in particular it is never the empty
    hash of the minimal record of a failure. *)
Theorem hashContent_is_hex64 (content : Obj) :
  String.length (hashContent content) = 64%nat /\
  forallb is_lower_hex (list_ascii_of_string (hashContent content)) = true /\
  hashContent content <> "".
Proof.
  unfold hashContent, Sha256.digest_hex.
  match goal with
  | |- context [fold_left Sha256.compress ?bs Sha256.H0] =>
      pose proof (digest_words_length bs Sha256.H0 eq_refl) as L;
      destruct (concat_hex_words (fold_left Sha256.compress bs Sha256.H0)) as [Hl Hh];
      set (d := String.concat "" (map Sha256.hex_of_word
                                      (fold_left Sha256.compress bs Sha256.H0))) in *
  end.
  rewrite L in Hl. split; [exact Hl|]. split; [exact Hh|].
  intros E. rewrite E in Hl. discriminate Hl.
Qed.
